(** * dmc.token: the accounting engine of [contracts/dmc.token/src/dmc.cpp]

    A shallow embedding of the actions of [dmc.cpp] (billing, ordering,
    the weighted stake pool, minting, liquidation, bonus accrual and the
    price window) as functions on an explicit table store.  An action
    either returns the new store or aborts with the message of the
    [check] that failed; an aborted action leaves no effect. *)

From Stdlib Require Import ZArith Lia Floats.
From stdpp Require Import gmap list strings.

Set Warnings "-inexact-float".
Local Open Scope Z_scope.

(** ** Aborts *)

Inductive result (A : Type) : Type :=
| Ok (a : A)
| Abort (msg : string).
Arguments Ok {A} a.
Arguments Abort {A} msg.

Definition bind {A B : Type} (r : result A) (k : A -> result B) : result B :=
  match r with
  | Ok a => k a
  | Abort msg => Abort msg
  end.

Notation "'let*' x := e 'in' k" := (bind e (fun x => k))
  (at level 10, x pattern, e at level 200, k at level 200).

(** [ensure b else msg in k] is [eosio::check(b, msg); k]. *)
Notation "'ensure' b 'else' msg 'in' k" :=
  (if b then k else Abort msg)
  (at level 10, b at level 200, msg at level 0, k at level 200).

(** [table.get(key, msg)] and the [find] / [check(it != end, msg)] idiom *)
Definition get {A : Type} (o : option A) (msg : string) : result A :=
  match o with
  | Some a => Ok a
  | None => Abort msg
  end.

(** ** Machine integers *)

Definition uint64 (z : Z) : Z := z mod 2 ^ 64.
Definition int64 (z : Z) : Z := (z + 2 ^ 63) mod 2 ^ 64 - 2 ^ 63.
Definition uint32 (z : Z) : Z := z mod 2 ^ 32.

(** ** Doubles

    [double] is Rocq's binary64 [float].  Conversions from and to the
    integer types go through the format's specification [spec_float]. *)

(** [(double) z] for an integer [z]: rounded to the nearest double. *)
Definition of_Z (z : Z) : float :=
  SF2Prim (binary_normalize prec emax z 0 false).

(** The integer part of a finite double, rounded toward zero. *)
Definition trunc (x : float) : option Z :=
  match Prim2SF x with
  | S754_zero _ => Some 0
  | S754_finite s m e =>
      let q := if 0 <=? e then Z.pos m * 2 ^ e else Z.pos m / 2 ^ (- e) in
      Some (if s then - q else q)
  | _ => None
  end.

(** Conversion of a double to [int64_t] and [uint64_t]: the value rounded
    toward zero; the conversion traps when it does not fit. *)
Definition to_int64 (x : float) : result Z :=
  match trunc x with
  | Some z =>
      ensure (- 2 ^ 63 <=? z) && (z <? 2 ^ 63) else "f64 to i64 overflow" in Ok z
  | None => Abort "f64 to i64 unrepresentable"
  end.

Definition to_uint64 (x : float) : result Z :=
  match trunc x with
  | Some z =>
      ensure (0 <=? z) && (z <? 2 ^ 64) else "f64 to u64 overflow" in Ok z
  | None => Abort "f64 to u64 unrepresentable"
  end.

(** [std::floor], [std::ceil], [std::round] through one rounding of the
    scaled mantissa [n / d]; integers, zeros, infinities and NaN are
    returned as they are. *)
Definition integral (pick : Z -> Z -> Z) (x : float) : float :=
  match Prim2SF x with
  | S754_finite s m e =>
      if 0 <=? e then x
      else
        let n := pick (if s then Z.neg m else Z.pos m) (2 ^ (- e)) in
        if n =? 0 then (if s then neg_zero else zero) else of_Z n
  | _ => x
  end.

Definition floor : float -> float := integral (fun n d => n / d).
Definition ceil : float -> float := integral (fun n d => - ((- n) / d)).
Definition round : float -> float :=
  integral (fun n d => Z.sgn n * ((2 * Z.abs n + d) / (2 * d))).

(** C++ comparisons on doubles *)
Definition fle (x y : float) : bool := PrimFloat.leb x y.
Definition flt (x y : float) : bool := PrimFloat.ltb x y.
Definition feq (x y : float) : bool := PrimFloat.eqb x y.

(** The value of a finite double as a multiple of [2 ^ -1074] (every
    finite double is one), and its unit in the last place on that
    scale: the exact arithmetic the weights are compared in. *)
Definition scaled (x : float) : Z :=
  match Prim2SF x with
  | S754_finite s m e => (if s then Z.neg m else Z.pos m) * 2 ^ (e + 1074)
  | _ => 0
  end.

Definition scaled_ulp (x : float) : Z :=
  match Prim2SF x with
  | S754_finite _ _ e => 2 ^ (e + 1074)
  | _ => 1
  end.

(** ** Assets *)

(** The three symbols of [dmc.token.hpp] and any other extended symbol a
    caller may pass. *)
Inductive extended_symbol : Set :=
| pst_sym
| dmc_sym
| rsi_sym
| other_sym (raw : Z).

Global Instance extended_symbol_eq_dec : EqDecision extended_symbol.
Proof. solve_decision. Defined.

Definition symbol_code (s : extended_symbol) : Z + Z :=
  match s with
  | pst_sym => inl 0
  | dmc_sym => inl 1
  | rsi_sym => inl 2
  | other_sym raw => inr raw
  end.

Definition symbol_of_code (c : Z + Z) : extended_symbol :=
  match c with
  | inl 0 => pst_sym
  | inl 1 => dmc_sym
  | inl _ => rsi_sym
  | inr raw => other_sym raw
  end.

Global Instance extended_symbol_countable : Countable extended_symbol.
Proof.
  apply (inj_countable' symbol_code symbol_of_code).
  intros []; reflexivity.
Defined.

Record extended_asset : Set := mk_asset {
  amount : Z;                (* quantity.amount, int64_t *)
  symbol : extended_symbol   (* get_extended_symbol() *)
}.

Global Instance extended_asset_eq_dec : EqDecision extended_asset.
Proof. solve_decision. Defined.

Definition max_amount : Z := 2 ^ 62 - 1.

(** [extended_asset(v, sym)]: the [asset] constructor checks the range. *)
Definition asset (v : Z) (sym : extended_symbol) : result extended_asset :=
  ensure (- max_amount <=? v) && (v <=? max_amount)
  else "magnitude of asset amount must be less than 2^62" in
  Ok (mk_asset v sym).

(** [a + b], [a += b] *)
Definition asset_add (a b : extended_asset) : result extended_asset :=
  ensure bool_decide (symbol a = symbol b) else "type mismatch" in
  let v := int64 (amount a + amount b) in
  ensure - max_amount <=? v else "addition underflow" in
  ensure v <=? max_amount else "addition overflow" in
  Ok (mk_asset v (symbol a)).

(** [a - b], [a -= b] *)
Definition asset_sub (a b : extended_asset) : result extended_asset :=
  ensure bool_decide (symbol a = symbol b) else "type mismatch" in
  let v := int64 (amount a - amount b) in
  ensure - max_amount <=? v else "subtraction underflow" in
  ensure v <=? max_amount else "subtraction overflow" in
  Ok (mk_asset v (symbol a)).

(** [-a] *)
Definition asset_neg (a : extended_asset) : extended_asset :=
  mk_asset (int64 (- amount a)) (symbol a).

(** [a <= b]; [a >= b] is [asset_le b a] *)
Definition asset_le (a b : extended_asset) : result bool :=
  ensure bool_decide (symbol a = symbol b) else "type mismatch" in
  Ok (amount a <=? amount b).

(** ** Tables

    Account names are their 64-bit values; times are seconds since the
    epoch ([time_point_sec]).  The record types are declared in
    [dmc.token.hpp]; the fields are the ones [dmc.cpp] reads and writes. *)

Abbreviation name := Z (only parsing).

Record bill_record : Type := mk_bill {
  b_primary : Z;
  b_bill_id : Z;
  b_owner : name;
  b_matched : extended_asset;
  b_unmatched : extended_asset;
  b_price : Z;                 (* 32.32 fixed point, uint64_t *)
  b_created_at : Z;
  b_updated_at : Z;
  b_expire_on : Z;
  b_deposit_ratio : Z          (* uint64_t, as [bill] receives it *)
}.

Record maker : Type := mk_maker {
  miner : name;
  current_rate : float;
  miner_rate : float;
  total_weight : float;
  total_staked : extended_asset;
  benchmark_stake_rate : Z;    (* uint64_t *)
  rate_updated_at : Z
}.

Inductive order_state : Set := OrderStateWaiting.
Inductive challenge_state : Set := ChallengePrepare.

Record dmc_order : Type := mk_order {
  order_id : Z;
  o_user : name;
  o_miner : name;
  o_bill_id : Z;
  user_pledge : extended_asset;
  miner_lock_pst : extended_asset;
  miner_lock_dmc : extended_asset;
  settlement_pledge : extended_asset;
  lock_pledge : extended_asset;
  o_price : extended_asset;
  o_state : order_state;
  deliver_start_date : Z;
  latest_settlement_date : Z;
  miner_lock_rsi : extended_asset;
  miner_rsi : extended_asset;
  user_rsi : extended_asset;
  deposit : extended_asset;
  deposit_valid : Z;
  cancel_date : Z
}.

Record dmc_challenge : Type := mk_challenge {
  c_order_id : Z;
  pre_data_block_count : Z;
  merkle_submitter : name;
  challenge_times : Z;
  c_state : challenge_state;
  user_lock : extended_asset;
  miner_pay : extended_asset
}.

Record price_sample : Type := mk_sample {
  p_primary : Z;
  p_bill_id : Z;
  p_price : float;
  p_created_at : Z
}.

Record price_avg : Type := mk_avg {
  a_primary : Z;
  total : float;
  count : Z;                   (* uint64_t *)
  avg : float
}.

(** A balance credited by [lock_add_balance]: owner, asset, maturity. *)
Record locked_balance : Type := mk_locked {
  l_owner : name;
  l_asset : extended_asset;
  l_unlock_at : Z
}.

(** The store one action runs against.  Scoped tables are maps from the
    scope to the table; a table iterated in primary-key order by the code
    ([bill_stats], the price table) is a list in that order. *)
Record state : Type := mk_state {
  now : Z;                                     (* current_time_point() *)
  authority : list name;                       (* who signed the action *)
  config : gmap string Z;                      (* dmc_global *)
  accounts : gmap (name * extended_symbol) Z;  (* free balances *)
  locked : list locked_balance;
  supply : gmap extended_symbol Z;             (* add_stats / sub_stats *)
  bills : gmap name (list bill_record);        (* bill_stats, by owner *)
  orders : gmap Z dmc_order;
  challenges : gmap Z dmc_challenge;
  makers : gmap name maker;                    (* dmc_makers *)
  pools : gmap name (gmap name float);         (* dmc_maker_pool, by maker *)
  pststats : gmap name extended_asset;         (* minted PST per maker *)
  prices : list price_sample;                  (* price_table *)
  price_average : option price_avg             (* avg_table, one row *)
}.

Definition set_accounts (f : gmap (name * extended_symbol) Z) (s : state) :=
  mk_state (now s) (authority s) (config s) f (locked s) (supply s) (bills s)
    (orders s) (challenges s) (makers s) (pools s) (pststats s) (prices s)
    (price_average s).
Definition set_locked (f : list locked_balance) (s : state) :=
  mk_state (now s) (authority s) (config s) (accounts s) f (supply s) (bills s)
    (orders s) (challenges s) (makers s) (pools s) (pststats s) (prices s)
    (price_average s).
Definition set_supply (f : gmap extended_symbol Z) (s : state) :=
  mk_state (now s) (authority s) (config s) (accounts s) (locked s) f (bills s)
    (orders s) (challenges s) (makers s) (pools s) (pststats s) (prices s)
    (price_average s).
Definition set_bills (f : gmap name (list bill_record)) (s : state) :=
  mk_state (now s) (authority s) (config s) (accounts s) (locked s) (supply s) f
    (orders s) (challenges s) (makers s) (pools s) (pststats s) (prices s)
    (price_average s).
Definition set_orders (f : gmap Z dmc_order) (s : state) :=
  mk_state (now s) (authority s) (config s) (accounts s) (locked s) (supply s)
    (bills s) f (challenges s) (makers s) (pools s) (pststats s) (prices s)
    (price_average s).
Definition set_challenges (f : gmap Z dmc_challenge) (s : state) :=
  mk_state (now s) (authority s) (config s) (accounts s) (locked s) (supply s)
    (bills s) (orders s) f (makers s) (pools s) (pststats s) (prices s)
    (price_average s).
Definition set_makers (f : gmap name maker) (s : state) :=
  mk_state (now s) (authority s) (config s) (accounts s) (locked s) (supply s)
    (bills s) (orders s) (challenges s) f (pools s) (pststats s) (prices s)
    (price_average s).
Definition set_pools (f : gmap name (gmap name float)) (s : state) :=
  mk_state (now s) (authority s) (config s) (accounts s) (locked s) (supply s)
    (bills s) (orders s) (challenges s) (makers s) f (pststats s) (prices s)
    (price_average s).
Definition set_pststats (f : gmap name extended_asset) (s : state) :=
  mk_state (now s) (authority s) (config s) (accounts s) (locked s) (supply s)
    (bills s) (orders s) (challenges s) (makers s) (pools s) f (prices s)
    (price_average s).
Definition set_prices (f : list price_sample) (a : option price_avg) (s : state) :=
  mk_state (now s) (authority s) (config s) (accounts s) (locked s) (supply s)
    (bills s) (orders s) (challenges s) (makers s) (pools s) (pststats s) f a.
Definition set_config (f : gmap string Z) (s : state) :=
  mk_state (now s) (authority s) f (accounts s) (locked s) (supply s)
    (bills s) (orders s) (challenges s) (makers s) (pools s) (pststats s)
    (prices s) (price_average s).

(** Field updates of a maker row ([maker_tbl.modify]). *)
Definition with_rate (r : float) (m : maker) : maker :=
  mk_maker (miner m) r (miner_rate m) (total_weight m) (total_staked m)
    (benchmark_stake_rate m) (rate_updated_at m).
Definition with_staked (a : extended_asset) (m : maker) : maker :=
  mk_maker (miner m) (current_rate m) (miner_rate m) (total_weight m) a
    (benchmark_stake_rate m) (rate_updated_at m).
Definition with_weight (w : float) (m : maker) : maker :=
  mk_maker (miner m) (current_rate m) (miner_rate m) w (total_staked m)
    (benchmark_stake_rate m) (rate_updated_at m).

(** Field updates of a bill row ([sst.modify]). *)
Definition with_unmatched (u : extended_asset) (b : bill_record) : bill_record :=
  mk_bill (b_primary b) (b_bill_id b) (b_owner b) (b_matched b) u (b_price b)
    (b_created_at b) (b_updated_at b) (b_expire_on b) (b_deposit_ratio b).
Definition with_matched (m : extended_asset) (b : bill_record) : bill_record :=
  mk_bill (b_primary b) (b_bill_id b) (b_owner b) m (b_unmatched b) (b_price b)
    (b_created_at b) (b_updated_at b) (b_expire_on b) (b_deposit_ratio b).
Definition with_updated_at (t : Z) (b : bill_record) : bill_record :=
  mk_bill (b_primary b) (b_bill_id b) (b_owner b) (b_matched b) (b_unmatched b)
    (b_price b) (b_created_at b) t (b_expire_on b) (b_deposit_ratio b).

(** ** What the headers declare

    [dmc.token/dmc.token.hpp] and [dmc.token/utils.hpp] are not among
    the sources.  The constants they define, the two digests and the
    RSI-to-DMC conversion are the fields of [header]; every definition
    below takes them from there.  Three reads in [dmc.cpp] have no
    value the source defines (two rows read through [end()], a row read
    after [erase]); what they return is a field as well. *)
Record header : Type := mk_header {
  self : name;                             (* get_self() *)
  system_account : name;
  eos_account : name;
  default_service_interval : Z;
  default_order_service_epoch : Z;
  default_bill_dmc_claims_interval : Z;
  default_benchmark_stake_rate : Z;
  default_penalty_rate : Z;
  default_initial_price : Z;
  price_fluncuation_interval : Z;          (* seconds *)
  day_sec : Z;
  uint64_max : Z;
  incentive_rate : float;
  static_weights : float;
  (* sha256<stake_id_args>, leading 64 bits *)
  bill_digest : name -> extended_asset -> Z -> Z -> string -> Z;
  (* sha256<order_id_args>, leading 64 bits *)
  order_digest :
    name -> name -> Z -> extended_asset -> extended_asset -> string -> Z -> Z;
  get_dmc_by_vrsi : state -> extended_asset -> result extended_asset;
  (* [it->price] once [it] is the end of the price index *)
  end_price : float;
  (* [pst_it->amount] once [pst_it] is the end of the minted table *)
  end_minted : extended_asset;
  (* [iter->total_weight] once the maker row is erased *)
  erased_total_weight : float
}.

Section Contract.

Variable hdr : header.

(** *** Helpers declared outside [dmc.cpp] *)

(** [require_auth]: the host's answer, read off the store. *)
Definition has_auth (a : name) (s : state) : bool :=
  bool_decide (a ∈ authority s).

Definition balance (s : state) (owner : name) (sym : extended_symbol) : Z :=
  default 0 (accounts s !! (owner, sym)).

(** Modelled from the spec: [sub_balance] is the balance ledger's debit,
    which fails on insufficient funds. *)
Definition sub_balance (owner : name) (a : extended_asset) (s : state)
  : result state :=
  ensure amount a <=? balance s owner (symbol a) else "overdrawn balance" in
  Ok (set_accounts
        (<[(owner, symbol a) := balance s owner (symbol a) - amount a]>
           (accounts s)) s).

(** Modelled from the spec: [add_balance] is the balance ledger's credit. *)
Definition add_balance (owner : name) (a : extended_asset) (s : state) : state :=
  set_accounts
    (<[(owner, symbol a) := balance s owner (symbol a) + amount a]>
       (accounts s)) s.

(** Modelled from the spec: [lock_add_balance] credits a time-locked
    balance that matures at [unlock_at]. *)
Definition lock_add_balance (owner : name) (a : extended_asset)
    (unlock_at : Z) (s : state) : state :=
  set_locked (locked s ++ [mk_locked owner a unlock_at]) s.

(** Modelled from the spec: [add_stats] and [sub_stats] keep the supply
    of a symbol; no action of [dmc.cpp] reads it. *)
Definition add_stats (a : extended_asset) (s : state) : state :=
  set_supply
    (<[symbol a := default 0 (supply s !! symbol a) + amount a]> (supply s)) s.

Definition sub_stats (a : extended_asset) (s : state) : state :=
  set_supply
    (<[symbol a := default 0 (supply s !! symbol a) - amount a]> (supply s)) s.

(** Modelled from the spec: [change_pst] adds [a] to the maker's minted
    amount (MintedStats: up on mint, down on a liquidation burn). *)
Definition change_pst (owner : name) (a : extended_asset) (s : state)
  : result state :=
  match pststats s !! owner with
  | Some st =>
      let* st' := asset_add st a in
      Ok (set_pststats (<[owner := st']> (pststats s)) s)
  | None => Ok (set_pststats (<[owner := a]> (pststats s)) s)
  end.

(** Modelled from the spec: [get_real_asset] is the value of an asset as
    a double. *)
Definition get_real_asset (a : extended_asset) : float := of_Z (amount a).

(** Modelled from the spec: [get_asset_by_amount<double, wipe>(x, sym)]
    is the asset of [sym] whose amount is [wipe(x)] (ceil for amounts
    owed, floor for amounts distributed). *)
Definition get_asset_by_amount (wipe : float -> float) (x : float)
    (sym : extended_symbol) : result extended_asset :=
  let* v := to_int64 (wipe x) in
  asset v sym.

(** Modelled from the spec: [get_n()] is the maker's benchmark, so that
    the sweep selects the makers whose rate is below their benchmark. *)
Definition get_n (m : maker) : Z := benchmark_stake_rate m.

(** [bill_stats sst(get_self(), owner.value)], in primary-key order. *)
Definition bills_of (s : state) (owner : name) : list bill_record :=
  default [] (bills s !! owner).

(** [ust_idx.find(bill_id)]: the row of lowest primary key with that id,
    with its position in the table. *)
Definition find_bill (rows : list bill_record) (bill_id : Z)
  : option (nat * bill_record) :=
  list_find (fun b => b_bill_id b = bill_id) rows.

(** [sst.available_primary_key()] *)
Definition available_primary_key (rows : list bill_record) : Z :=
  match last rows with
  | Some b => b_primary b + 1
  | None => 0
  end.

Definition pool_of (s : state) (maker_name : name) : gmap name float :=
  default ∅ (pools s !! maker_name).

(** *** Configuration and rates *)

Definition setdmcconfig (key : string) (value : Z) (s : state) : result state :=
  ensure has_auth (eos_account hdr) s else "missing authority" in
  ensure negb (String.eqb key "claiminter") || (0 <? value)
  else "invalid claims interval" in
  Ok (set_config (<[key := value]> (config s)) s).

Definition get_dmc_config (s : state) (key : string) (default_value : Z) : Z :=
  match config s !! key with
  | Some value => value
  | None => default_value
  end.

Definition get_dmc_rate (s : state) (rate_value : Z) : float :=
  let value := (of_Z rate_value / 100)%float in
  match price_average s with
  | None =>
      let avg_price := get_dmc_config s "initalprice" (default_initial_price hdr) in
      (value * of_Z avg_price)%float
  | Some a => (value * avg a)%float
  end.

Definition cal_current_rate (s : state) (dmc_asset : extended_asset)
    (owner : name) : float :=
  match pststats s !! owner with
  | Some st =>
      if amount st =? 0 then of_Z (uint64_max hdr)
      else (get_real_asset dmc_asset / of_Z (amount st))%float
  | None => of_Z (uint64_max hdr)
  end.

(** *** Bonus accrual *)

(** The RSI amount one second of one unmatched PST earns. *)
Definition bonus_unit (s : state) : result extended_asset :=
  get_asset_by_amount floor
    (incentive_rate hdr
     * of_Z (get_dmc_config s "bmrate" (default_benchmark_stake_rate hdr))
     / 100 / of_Z (default_bill_dmc_claims_interval hdr))%float
    rsi_sym.

(** [max_dmc_claims_interval]: the end of the bill's claim window. *)
Definition claims_end (s : state) (ust : bill_record) : Z :=
  uint64 (b_created_at ust
          + get_dmc_config s "billinter" (default_bill_dmc_claims_interval hdr)).

(** [now_time_t] once capped at the end of the claim window. *)
Definition capped_now (s : state) (ust : bill_record) : Z :=
  if claims_end s ust <=? now s then claims_end s ust else now s.

Definition calbonus (owner : name) (bill_id : Z) (ram_payer : name)
    (s : state) : result (Z * state) :=
  let* (_, ust) := get (find_bill (bills_of s owner) bill_id) "no such record" in
  let* iter := get (makers s !! owner) "no such pst maker" in
  let updated_at_t := b_updated_at ust in
  let now_time_t := capped_now s ust in
  if updated_at_t <=? claims_end s ust then
    let duration := uint64 (now_time_t - updated_at_t) in
    ensure duration <=? now_time_t else "subtractive overflow" in
    let* quantity := bonus_unit s in
    let q := int64 (int64 (amount quantity * duration)
                    * amount (b_unmatched ust)) in
    if q =? 0 then Ok (now_time_t, s)
    else
      let* dmc_quantity := get_dmc_by_vrsi hdr s (mk_asset q rsi_sym) in
      if 0 <? amount dmc_quantity then
        let* staked := asset_add (total_staked iter) dmc_quantity in
        Ok (now_time_t,
            set_makers (<[owner := with_staked staked iter]> (makers s)) s)
      else Ok (now_time_t, s)
  else Ok (now_time_t, s).

(** *** Billing *)

Definition bill (owner : name) (a : extended_asset) (price : float)
    (expire_on : Z) (deposit_ratio : Z) (memo : string) (s : state)
  : result state :=
  ensure has_auth owner s else "missing authority" in
  ensure (String.length memo <=? 256)%nat else "memo has more than 256 bytes" in
  ensure bool_decide (symbol a = pst_sym)
  else "only proof of service token can be billed" in
  ensure fle 0.0001 price && flt price 4294967296 else "invalid price" in
  ensure 0 <? amount a else "must bill a positive amount" in
  ensure 0 <=? deposit_ratio else "invalid deposit ratio" in
  let now_time := now s in
  ensure uint32 (now_time
                 + uint32 (get_dmc_config s "serverinter"
                             (default_service_interval hdr)))
         <=? expire_on
  else "invalid service time" in
  let* price_t := to_uint64 (price * 4294967296)%float in
  let* s1 := sub_balance owner a s in
  let bill_id := bill_digest hdr owner a price_t (now s) memo in
  let sst := bills_of s1 owner in
  let r :=
    mk_bill (available_primary_key sst) bill_id owner (mk_asset 0 pst_sym) a
      price_t now_time now_time expire_on deposit_ratio in
  Ok (set_bills (<[owner := sst ++ [r]]> (bills s1)) s1).

Definition unbill (owner : name) (bill_id : Z) (memo : string) (s : state)
  : result state :=
  ensure has_auth owner s else "missing authority" in
  ensure (String.length memo <=? 256)%nat else "memo has more than 256 bytes" in
  let* (i, ust) := get (find_bill (bills_of s owner) bill_id) "no such record" in
  let unmatched_asseet := b_unmatched ust in
  let* (_, s1) := calbonus owner bill_id owner s in
  let s2 := set_bills (<[owner := delete i (bills_of s1 owner)]> (bills s1)) s1 in
  Ok (add_balance owner unmatched_asseet s2).

(** *** Price window *)

(** The [bytime] index: rows by [created_at], equal times by primary key
    (the order of the table). *)
Fixpoint insert_bytime (p : price_sample) (idx : list price_sample)
  : list price_sample :=
  match idx with
  | [] => [p]
  | q :: idx' =>
      if p_created_at p <=? p_created_at q then p :: idx
      else q :: insert_bytime p idx'
  end.

Definition bytime (rows : list price_sample) : list price_sample :=
  foldr insert_bytime [] rows.

(** The eviction loop over the index.  [it = iter.erase(it)] moves [it]
    to the row after the erased one before the running sum is updated,
    so [it->price] is that next row's price, or a read through [end()]. *)
Fixpoint evict (rtime : Z) (idx : list price_sample) (a : price_avg)
  : price_avg :=
  match idx with
  | [] => a
  | it :: rest =>
      if p_created_at it <? rtime then
        let it_price :=
          match rest with
          | next :: _ => p_price next
          | [] => end_price hdr
          end in
        evict rtime rest
          (mk_avg (a_primary a) (total a - it_price)%float
             (uint64 (count a - 1)) (avg a))
      else a
  end.

Definition next_sample_key (rows : list price_sample) : Z :=
  match last rows with
  | Some p => p_primary p + 1
  | None => 0
  end.

Definition trace_price_history (price : float) (bill_id : Z) (s : state)
  : state :=
  let now_time := now s in
  let rtime := uint32 (now_time - price_fluncuation_interval hdr) in
  let aitr :=
    match price_average s with
    | Some a => a
    | None => mk_avg 0 0 0 0
    end in
  let a1 := evict rtime (bytime (prices s)) aitr in
  let kept := List.filter (fun p => negb (p_created_at p <? rtime)) (prices s) in
  let row := mk_sample (next_sample_key kept) bill_id price now_time in
  let total' := (total a1 + price)%float in
  let count' := uint64 (count a1 + 1) in
  set_prices (kept ++ [row])
    (Some (mk_avg (a_primary a1) total' count' (total' / of_Z count')%float)) s.

(** *** Ordering *)

(** [while (order_tbl.find(order_id) != order_tbl.end()) order_id += 1;]
    Among [size tbl + 1] consecutive ids one is free, so that many
    probes are enough. *)
Fixpoint probe (fuel : nat) (tbl : gmap Z dmc_order) (id : Z) : Z :=
  match fuel with
  | O => id
  | S fuel' =>
      match tbl !! id with
      | Some _ => probe fuel' tbl (uint64 (id + 1))
      | None => id
      end
  end.

Definition free_order_id (tbl : gmap Z dmc_order) (id : Z) : Z :=
  probe (S (size tbl)) tbl id.

(** [price = (double)ust->price / std::pow(2, 32)] *)
Definition bill_price (ust : bill_record) : float :=
  (of_Z (b_price ust) / 4294967296)%float.

(** [user_to_pay]: the payment an order of [a] against [ust] requires. *)
Definition user_to_pay (ust : bill_record) (a : extended_asset)
  : result extended_asset :=
  get_asset_by_amount ceil (bill_price ust * of_Z (amount a))%float dmc_sym.

(** [user_to_deposit]: [std::round] of the 64-bit product of the payment
    and the bill's deposit ratio. *)
Definition user_to_deposit (pay : extended_asset) (ust : bill_record)
  : result extended_asset :=
  let* v :=
    to_int64 (round (of_Z (uint64 (amount pay * b_deposit_ratio ust)))) in
  asset v dmc_sym.

(** [generate_maker_snapshot] is declared outside [dmc.cpp]; it records
    the maker's pool for the order and changes no table read here. *)
Definition generate_maker_snapshot (order_id bill_id : Z) (miner owner : name)
    (s : state) : state := s.

Definition order (owner miner : name) (bill_id : Z) (a reserve : extended_asset)
    (memo : string) (deposit_valid : Z) (s : state) : result state :=
  ensure has_auth owner s else "missing authority" in
  ensure (String.length memo <=? 256)%nat else "memo has more than 256 bytes" in
  ensure negb (owner =? miner) else "owner and user are same person" in
  ensure bool_decide (symbol a = pst_sym)
  else "only proof of service token can be ordered" in
  ensure 0 <? amount a else "must order a positive amount" in
  ensure 0 <=? amount reserve else "reserve amount must >= 0" in
  let* (i, ust) := get (find_bill (bills_of s miner) bill_id) "no such record" in
  let* enough := asset_le a (b_unmatched ust) in
  ensure enough else "overdrawn balance" in
  let order_serivce_epoch :=
    get_dmc_config s "ordsrvepoch" (default_order_service_epoch hdr) in
  ensure deposit_valid <=? b_expire_on ust else "service has expired" in
  ensure int64 (now s * 1000000 + int64 (order_serivce_epoch * 1000000))
         <=? deposit_valid * 1000000
  else "service not reach minimum deposit expire time" in
  let price := bill_price ust in
  let* pay := user_to_pay ust a in
  let* dep := user_to_deposit pay ust in
  let* first_payment := asset_add pay dep in
  let* covered := asset_le first_payment reserve in
  ensure covered else "reserve can't pay first time" in
  let* s1 := sub_balance owner reserve s in
  let* (now_time_t, s2) := calbonus miner bill_id owner s1 in
  let* unmatched' := asset_sub (b_unmatched ust) a in
  let* matched' := asset_add (b_matched ust) a in
  let ust' :=
    with_updated_at (uint32 now_time_t)
      (with_matched matched' (with_unmatched unmatched' ust)) in
  let s3 := set_bills (<[miner := <[i := ust']> (bills_of s2 miner)]> (bills s2)) s2 in
  let id :=
    free_order_id (orders s3)
      (order_digest hdr owner miner bill_id a reserve memo (now s)) in
  let* maker_iter := get (makers s3 !! miner) "can't find maker pool" in
  let r := cal_current_rate s3 (total_staked maker_iter) miner in
  let* lock_v := to_int64 (of_Z (amount pay) * r)%float in
  let* lock_dmc := asset lock_v (symbol pay) in
  let* reduced := asset_sub (total_staked maker_iter) lock_dmc in
  let s4 :=
    set_makers
      (<[miner := with_rate (cal_current_rate s3 reduced miner) maker_iter]>
         (makers s3)) s3 in
  let* pledge0 := asset_sub reserve pay in
  let* pledge := asset_sub pledge0 dep in
  let order_info :=
    mk_order id owner miner bill_id pledge a lock_dmc
      (mk_asset 0 (symbol pay)) pay pay OrderStateWaiting 0 0
      (mk_asset 0 rsi_sym) (mk_asset 0 rsi_sym) (mk_asset 0 rsi_sym)
      dep deposit_valid 0 in
  let s5 := set_orders (<[id := order_info]> (orders s4)) s4 in
  let challenge_info :=
    mk_challenge id 0 (self hdr) 0 ChallengePrepare
      (mk_asset 0 dmc_sym) (mk_asset 0 dmc_sym) in
  ensure bool_decide (challenges s5 !! id = None) else "duplicate challenge" in
  let s6 := set_challenges (<[id := challenge_info]> (challenges s5)) s5 in
  let s7 := generate_maker_snapshot id bill_id miner owner s6 in
  Ok (trace_price_history price bill_id s7).

(** *** Stake pool *)

Definition increase (owner : name) (a : extended_asset) (miner_name : name)
    (s : state) : result state :=
  ensure has_auth owner s else "missing authority" in
  ensure bool_decide (symbol a = dmc_sym) else "only DMC can be staked" in
  ensure 0 <? amount a else "must increase a positive amount" in
  let* s1 := sub_balance owner a s in
  let dmc_pool := pool_of s1 miner_name in
  match makers s1 !! miner_name with
  | None =>
      ensure owner =? miner_name else "no such record" in
      let m :=
        mk_maker owner (cal_current_rate s1 a miner_name) 1
          (static_weights hdr) a
          (get_dmc_config s1 "bmrate" (default_benchmark_stake_rate hdr)) 0 in
      ensure bool_decide (dmc_pool !! owner = None) else "duplicate pool row" in
      Ok (set_pools
            (<[miner_name := <[owner := static_weights hdr]> dmc_pool]> (pools s1))
            (set_makers (<[miner_name := m]> (makers s1)) s1))
  | Some iter =>
      let* new_total := asset_add (total_staked iter) a in
      let new_weight :=
        (of_Z (amount a) / of_Z (amount (total_staked iter))
         * total_weight iter)%float in
      let total_weight' := (total_weight iter + new_weight)%float in
      ensure flt 0 new_weight else "invalid new weight" in
      ensure flt 0.0001 (new_weight / total_weight')%float
      else "increase too lower" in
      let r := cal_current_rate s1 new_total miner_name in
      let iter' := with_rate r (with_staked new_total (with_weight total_weight' iter)) in
      let dmc_pool' :=
        match dmc_pool !! owner with
        | Some w => <[owner := (w + new_weight)%float]> dmc_pool
        | None => <[owner := new_weight]> dmc_pool
        end in
      let* miner_weight := get (dmc_pool' !! miner_name) "" in
      ensure fle (miner_rate iter') (miner_weight / total_weight')%float
      else "exceeding the maximum rate" in
      Ok (set_pools (<[miner_name := dmc_pool']> (pools s1))
            (set_makers (<[miner_name := iter']> (makers s1)) s1))
  end.

(** The pool after [dmc_pool.erase(p_iter)] when [rate == 1]: what
    [pool_begin] and [++pool_begin] find. *)
Inductive pool_rest : Type :=
| pool_empty                  (* pool_begin == end *)
| pool_single (w : float)     (* ++pool_begin == end: one row, of weight w *)
| pool_many.

Definition pool_after_erase (dmc_pool : gmap name float) : pool_rest :=
  match map_to_list dmc_pool with
  | [] => pool_empty
  | [(_, w)] => pool_single w
  | _ => pool_many
  end.

Definition redemption (owner : name) (rate : float) (miner_name : name)
    (s : state) : result state :=
  ensure has_auth owner s else "missing authority" in
  ensure flt 0 rate && fle rate 1 else "invalid rate" in
  let* iter := get (makers s !! miner_name) "no such record" in
  let dmc_pool := pool_of s miner_name in
  let* p_weight := get (dmc_pool !! owner) "no such limit partnership" in
  let owner_weight := (p_weight * rate)%float in
  let rede_rate := (owner_weight / total_weight iter)%float in
  let* rede_v :=
    to_int64 (floor (of_Z (amount (total_staked iter)) * rede_rate)%float) in
  let* rede_quantity := asset rede_v dmc_sym in
  (* the pool row, the weight taken off the total, the amount paid out,
     last_one, and the depositor's weight after the call *)
  let* (dmc_pool', owner_weight, rede_quantity, last_one, p_weight') :=
    if feq rate 1 then
      let erased := delete owner dmc_pool in
      match pool_after_erase erased with
      | pool_empty => Ok (erased, owner_weight, total_staked iter, false, p_weight)
      | pool_single w => Ok (erased, w, rede_quantity, true, p_weight)
      | pool_many => Ok (erased, owner_weight, rede_quantity, false, p_weight)
      end
    else
      let w' := (p_weight - owner_weight)%float in
      ensure flt 0 w' else "negative pool weight amount" in
      Ok (<[owner := w']> dmc_pool, owner_weight, rede_quantity, false, w') in
  let total_weight' := (total_weight iter - owner_weight)%float in
  let* total_staked' := asset_sub (total_staked iter) rede_quantity in
  let benchmark := get_dmc_rate s (benchmark_stake_rate iter) in
  let r := cal_current_rate s total_staked' miner_name in
  let* _ :=
    if miner_name =? owner then
      ensure fle benchmark r
      else "current stake rate less than benchmark stake rate, redemption fails" in
      let* mrate :=
        if amount total_staked' =? 0 then Ok (of_Z (uint64_max hdr))
        else
          let* miner_weight :=
            get (dmc_pool' !! miner_name) "miner can only redeem all last" in
          Ok (miner_weight / total_weight')%float in
      ensure fle (miner_rate iter) mrate else "below the minimum rate" in
      Ok tt
    else Ok tt in
  ensure 0 <? amount rede_quantity else "dust attack detected" in
  let s1 :=
    lock_add_balance owner rede_quantity
      (uint32 (now s + 3 * day_sec hdr * 86400)) s in
  let s2 := set_pools (<[miner_name := dmc_pool']> (pools s1)) s1 in
  let* (s3, iter_total_weight) :=
    if amount total_staked' =? 0 then
      Ok (set_makers (delete miner_name (makers s2)) s2, erased_total_weight hdr)
    else
      let w := if last_one then owner_weight else total_weight' in
      let iter' := with_rate r (with_staked total_staked' (with_weight w iter)) in
      ensure 0 <=? amount (total_staked iter')
      else "negative total_staked amount" in
      ensure fle 0 (total_weight iter') else "negative total weight amount" in
      Ok (set_makers (<[miner_name := iter']> (makers s2)) s2, total_weight iter') in
  if feq rate 1 then Ok s3
  else
    ensure flt 0.0001 (p_weight' / iter_total_weight)%float
    else "The remaining weight is too low" in
    Ok s3.

Definition mint (owner : name) (a : extended_asset) (s : state) : result state :=
  ensure has_auth owner s else "missing authority" in
  ensure 0 <? amount a else "must mint a positive amount" in
  ensure bool_decide (symbol a = pst_sym) else "only PST can be minted" in
  let* iter := get (makers s !! owner) "no such pst maker" in
  let benchmark := get_dmc_rate s (benchmark_stake_rate iter) in
  let makerd_pst := (get_real_asset (total_staked iter) / benchmark)%float in
  let* added_asset :=
    match pststats s !! owner with
    | Some st => asset_add a st
    | None => Ok a
    end in
  ensure fle (of_Z (amount added_asset)) (floor makerd_pst)
  else "insufficient funds to mint" in
  let s1 := add_stats a s in
  let s2 := add_balance owner a s1 in
  let* s3 := change_pst owner a s2 in
  let r := cal_current_rate s3 (total_staked iter) owner in
  ensure fle benchmark r
  else "current stake rate less than benchmark stake rate, mint fails" in
  Ok (set_makers (<[owner := with_rate r iter]> (makers s3)) s3).

Definition setmakerrate (owner : name) (rate : float) (s : state) : result state :=
  ensure has_auth owner s else "missing authority" in
  ensure fle 0.2 rate && fle rate 1 else "invalid rate" in
  let* iter := get (makers s !! owner) "no such record" in
  let* miner_weight :=
    get (pool_of s owner !! owner) "miner can not destroy maker" in
  ensure fle rate (miner_weight / total_weight iter)%float
  else "rate does not meet limits" in
  Ok (set_makers
        (<[owner :=
             mk_maker (miner iter) (current_rate iter) rate (total_weight iter)
               (total_staked iter) (benchmark_stake_rate iter)
               (rate_updated_at iter)]> (makers s)) s).

(** The two operations that move pool weights, and the exact sum of a
    pool's PoolShare weights. *)
Inductive pool_op : Type :=
| op_increase (a : extended_asset)
| op_redemption (rate : float).

Definition run_pool_op (op : pool_op) (owner maker_name : name) (s : state)
  : result state :=
  match op with
  | op_increase a => increase owner a maker_name s
  | op_redemption rate => redemption owner rate maker_name s
  end.

Definition weight_sum (dmc_pool : gmap name float) : Z :=
  foldr (fun row acc => scaled row.2 + acc) 0 (map_to_list dmc_pool).

(** How one operation of [owner] moves a pool [p] with total weight
    [tw] to [p'] with [tw']: one double goes into, or comes out of, the
    owner's share and the total; or the owner's share is erased and the
    one depositor left defines the total. *)
Inductive weight_move (p p' : gmap name float) (tw tw' : float) (owner : name)
  : Prop :=
| move_in (d : float) :
    tw' = (tw + d)%float ->
    p' = <[owner := match p !! owner with
                    | Some w => (w + d)%float
                    | None => d
                    end]> p ->
    weight_move p p' tw tw' owner
| move_out (w d : float) :
    p !! owner = Some w ->
    tw' = (tw - d)%float ->
    p' = <[owner := (w - d)%float]> p ->
    weight_move p p' tw tw' owner
| move_all (w : float) :
    p !! owner = Some w ->
    tw' = (tw - w * 1)%float ->
    p' = delete owner p ->
    weight_move p p' tw tw' owner
| move_last (other : name) (w' : float) :
    p' = delete owner p ->
    p' = {[other := w']} ->
    tw' = w' ->
    weight_move p p' tw tw' owner.

(** *** Liquidation *)

(** The [byrate] index: maker rows by [current_rate], equal rates by
    primary key. *)
Definition rate_before (m q : maker) : bool :=
  flt (current_rate m) (current_rate q)
  || (feq (current_rate m) (current_rate q) && (miner m <=? miner q)).

Fixpoint insert_byrate (m : maker) (idx : list maker) : list maker :=
  match idx with
  | [] => [m]
  | q :: idx' =>
      if rate_before m q then m :: idx else q :: insert_byrate m idx'
  end.

Definition byrate (tbl : gmap name maker) : list maker :=
  foldr insert_byrate [] (map_to_list tbl).*2.

(** An element of [liquidation_required]: maker, burned PST, penalty. *)
Definition liquidation_entry : Type := name * extended_asset * extended_asset.

(** The drain of the maker's own free PST balance. *)
Definition drain_balance (owner : name) (leftover : extended_asset) (s : state)
  : result (extended_asset * state) :=
  match accounts s !! (owner, pst_sym) with
  | Some bal =>
      let* pst_sub := asset (Z.min (amount leftover) bal) pst_sym in
      let* s1 := sub_balance owner pst_sub s in
      let* rest := asset_sub leftover pst_sub in
      Ok (mk_asset (Z.max (amount rest) 0) (symbol leftover), s1)
  | None => Ok (leftover, s)
  end.

(** The loop over the maker's bills, oldest first; [i] is the position
    of [bit] in the table, [rows] the rows from [bit] on. *)
Fixpoint drain_bills (rows : list bill_record) (i : nat) (scope : name)
    (leftover : extended_asset) (s : state) : result (extended_asset * state) :=
  match rows with
  | [] => Ok (leftover, s)
  | bit :: rest =>
      if 0 <? amount leftover then
        let* whole := asset_le (b_unmatched bit) leftover in
        let* (sub_pst, leftover') :=
          if whole then
            let* l := asset_sub leftover (b_unmatched bit) in
            Ok (b_unmatched bit, l)
          else Ok (leftover, mk_asset 0 (symbol leftover)) in
        let* (now_time_t, s1) :=
          calbonus (b_owner bit) (b_bill_id bit) (self hdr) s in
        let* u := asset_sub (b_unmatched bit) sub_pst in
        let bit' := with_updated_at (uint32 now_time_t) (with_unmatched u bit) in
        if amount u =? 0 then
          drain_bills rest i scope leftover'
            (set_bills (<[scope := delete i (bills_of s1 scope)]> (bills s1)) s1)
        else
          drain_bills rest (S i) scope leftover'
            (set_bills (<[scope := <[i := bit']> (bills_of s1 scope)]> (bills s1)) s1)
      else Ok (leftover, s)
  end.

(** [1 - r1 / m] *)
Definition shortfall (r1 m : float) : float := (1 - r1 / m)%float.

(** [liq_pst_asset_leftover] at its start: the PST the sweep sets out to
    burn for a maker. *)
Definition liq_target (f : float) (minted : extended_asset)
  : result extended_asset :=
  get_asset_by_amount ceil (f * get_real_asset minted)%float pst_sym.

(** [penalty_dmc_asset] *)
Definition penalty_of (s : state) (f : float) (staked : extended_asset)
  : result extended_asset :=
  get_asset_by_amount ceil
    (f * get_real_asset staked
     * of_Z (get_dmc_config s "penaltyrate" (default_penalty_rate hdr))
     / 100)%float
    dmc_sym.

(** [pst_it->amount] after [pst_it = pst_acnts.find(owner.value)]: the
    sweep reads it without a check. *)
Definition minted_read (s : state) (owner : name) : extended_asset :=
  match pststats s !! owner with
  | Some st => st
  | None => end_minted hdr
  end.

(** The scan.  [maker_it] is a row of the sweep's own [maker_tbl]
    object, loaded when the index reached it: what [calbonus] writes
    through its own table object reaches the store, not this row. *)
Fixpoint scan (idx : list maker) (required : list liquidation_entry)
    (s : state) : result (list liquidation_entry * state) :=
  match idx with
  | [] => Ok (required, s)
  | maker_it :: rest =>
      if flt (current_rate maker_it) (get_dmc_rate s (get_n maker_it))
         && (length required <? 20)%nat
      then
        let owner := miner maker_it in
        let minted := minted_read s owner in
        let m := get_dmc_rate s (benchmark_stake_rate maker_it) in
        let f := shortfall (current_rate maker_it) m in
        let* origin := liq_target f minted in
        let* (leftover1, s1) := drain_balance owner origin s in
        let* (leftover2, s2) :=
          drain_bills (bills_of s1 owner) 0 owner leftover1 s1 in
        let* sub_pst_asset := asset_sub origin leftover2 in
        let* penalty := penalty_of s2 f (total_staked maker_it) in
        let required' :=
          if negb (amount sub_pst_asset =? 0) && negb (amount penalty =? 0)
          then required ++ [(owner, sub_pst_asset, penalty)]
          else required in
        scan rest required' s2
      else Ok (required, s)
  end.

(** The apply phase.  [maker_tbl.find] returns the row the scan loaded,
    and [modify] writes that row back with the two new fields. *)
Fixpoint settle (cache : list maker) (required : list liquidation_entry)
    (s : state) : result state :=
  match required with
  | [] => Ok s
  | (miner_name, pst, dmc) :: rest =>
      let* s1 := change_pst miner_name (asset_neg pst) s in
      let s2 := sub_stats pst s1 in
      let* iter :=
        get (List.find (fun m => miner m =? miner_name) cache) "no such maker" in
      let* new_staked := asset_sub (total_staked iter) dmc in
      let new_rate := cal_current_rate s2 new_staked miner_name in
      let s3 :=
        set_makers
          (<[miner_name := with_rate new_rate (with_staked new_staked iter)]>
             (makers s2)) s2 in
      settle cache rest (add_balance (system_account hdr) dmc s3)
  end.

Definition liquidation (memo : string) (s : state) : result state :=
  ensure has_auth (eos_account hdr) s else "missing authority" in
  let maker_idx := byrate (makers s) in
  let* (required, s1) := scan maker_idx [] s in
  settle maker_idx required s1.

End Contract.

(** ** The remaining actions of [dmc.cpp] *)

(** [setmakerbstr].  [maker_change_rate_interval] is a constant of
    [dmc.token.hpp], a number of seconds added to the [time_point_sec]
    of the last change. *)
Definition setmakerbstr (hdr : header) (maker_change_rate_interval : Z)
    (owner : name) (self_benchmark_stake_rate : Z) (s : state) : result state :=
  ensure has_auth owner s else "missing authority" in
  let* iter := get (makers s !! owner) "no such record" in
  let* miner_weight :=
    get (pool_of s owner !! owner) "miner can not destroy maker" in
  let now_time := now s in
  ensure uint32 (rate_updated_at iter + maker_change_rate_interval) <=? now_time
  else "change rate interval too short" in
  let bmrate := get_dmc_config s "bmrate" (default_benchmark_stake_rate hdr) in
  ensure
    if rate_updated_at iter =? 0 then bmrate <=? self_benchmark_stake_rate
    else
      fle (of_Z self_benchmark_stake_rate)
        (of_Z (benchmark_stake_rate iter) * 1.1)%float
      && fle (of_Z (benchmark_stake_rate iter) * 0.9)%float
           (of_Z self_benchmark_stake_rate)
      && (bmrate <=? self_benchmark_stake_rate)
  else "invalid benchmark_stake_rate" in
  Ok (set_makers
        (<[owner :=
             mk_maker (miner iter) (current_rate iter) (miner_rate iter)
               (total_weight iter) (total_staked iter)
               self_benchmark_stake_rate now_time]> (makers s)) s).

(** A row of [abostats], the release schedule [setabostats] configures:
    the fields the action writes. *)
Record abostat : Type := mk_abostat {
  stage : Z;
  user_rate : float;
  foundation_rate : float;
  total_release : extended_asset;
  remaining_release : extended_asset;
  start_at : Z;
  end_at : Z;
  last_user_released_at : Z;
  last_foundation_released_at : Z
}.

(** [setabostats] reads the clock and the authority off the store and
    writes the [abostats] table only, which it takes and returns. *)
Definition setabostats (hdr : header) (stage_no : Z)
    (user_r foundation_r : float) (release : extended_asset)
    (start_t end_t : Z) (s : state) (ast : gmap Z abostat)
  : result (gmap Z abostat) :=
  ensure has_auth (eos_account hdr) s else "missing authority" in
  ensure (1 <=? stage_no) && (stage_no <=? 11) else "invalid stage" in
  ensure fle user_r 1 && fle 0 user_r else "invalid user_rate" in
  ensure feq (foundation_r + user_r)%float 1 else "invalid foundation_rate" in
  ensure start_t <? end_t else "invalid time" in
  ensure bool_decide (symbol release = dmc_sym) else "invalid symbol" in
  let now_time := now s in
  let set_now := start_t <? now_time in
  match ast !! stage_no with
  | Some st =>
      Ok (<[stage_no :=
              mk_abostat (stage st) user_r foundation_r release
                (remaining_release st) start_t end_t
                (last_user_released_at st) (last_foundation_released_at st)]>
            ast)
  | None =>
      let released_at := if set_now then now_time else start_t in
      Ok (<[stage_no :=
              mk_abostat stage_no user_r foundation_r release release
                start_t end_t released_at released_at]> ast)
  end.

(** The maker's own share of its pool is at least the minimum share
    [miner_rate] its row declares. *)
Definition share_kept (s : state) (maker_name : name) : Prop :=
  exists m w,
    makers s !! maker_name = Some m
    /\ pool_of s maker_name !! maker_name = Some w
    /\ fle (miner_rate m) (w / total_weight m)%float = true.

(** ** Sample data

    A header with concrete constants, and stores for the examples below.
    The RSI-to-DMC conversion of the sample values the reward at the
    current average price (at par before the first trade). *)

Definition sample_vrsi (s : state) (q : extended_asset) : result extended_asset :=
  let p :=
    match price_average s with
    | Some a => avg a
    | None => 1%float
    end in
  get_asset_by_amount floor (get_real_asset q * p)%float dmc_sym.

Definition sample_header : header :=
  {| self := 100; system_account := 101; eos_account := 102;
     default_service_interval := 604800;
     default_order_service_epoch := 604800;
     default_bill_dmc_claims_interval := 604800;
     default_benchmark_stake_rate := 200;
     default_penalty_rate := 30;
     default_initial_price := 1;
     price_fluncuation_interval := 604800;
     day_sec := 86400;
     uint64_max := 2 ^ 64 - 1;
     incentive_rate := 0.1;
     static_weights := 10000000;
     bill_digest := fun owner a price_t t memo => uint64 (owner + amount a + price_t + t);
     order_digest := fun owner miner bill_id a reserve memo t => uint64 (owner + bill_id + t);
     get_dmc_by_vrsi := sample_vrsi;
     end_price := 0;
     end_minted := mk_asset 0 pst_sym;
     erased_total_weight := 0 |}.

Definition alice : Z := 1.
Definition bob : Z := 2.
Definition carol : Z := 3.

(** What an action does to a store, the store itself when it aborts. *)
Definition after (r : result state) (s : state) : state :=
  match r with
  | Ok s' => s'
  | Abort _ => s
  end.

(** Everybody signs; alice, bob and carol hold DMC; no table has a row. *)
Definition genesis : state :=
  {| now := 1000000;
     authority := [alice; bob; carol; 102];
     config := ∅;
     accounts :=
       <[(alice, dmc_sym) := 2 ^ 60]>
         (<[(bob, dmc_sym) := 100000]> (<[(carol, dmc_sym) := 100000]> ∅));
     locked := [];
     supply := ∅;
     bills := ∅;
     orders := ∅;
     challenges := ∅;
     makers := ∅;
     pools := ∅;
     pststats := ∅;
     prices := [];
     price_average := None |}.

(** alice holds PST without ever having staked. *)
Definition genesis_pst : state :=
  set_accounts (<[(alice, pst_sym) := 500]> (accounts genesis)) genesis.

(** The host's clock [dt] seconds later. *)
Definition advance (dt : Z) (s : state) : state :=
  mk_state (now s + dt) (authority s) (config s) (accounts s) (locked s)
    (supply s) (bills s) (orders s) (challenges s) (makers s) (pools s)
    (pststats s) (prices s) (price_average s).

(** The maker's staked amount, 0 without a maker row. *)
Definition staked_of (s : state) (maker_name : name) : Z :=
  match makers s !! maker_name with
  | Some m => amount (total_staked m)
  | None => 0
  end.

Definition week : Z := 604800.

(** alice opens her pool with 10000 DMC and mints 3000 PST against it. *)
Definition staked : state :=
  after (increase sample_header alice (mk_asset 10000 dmc_sym) alice genesis)
    genesis.

Definition minted : state :=
  after (mint sample_header alice (mk_asset 3000 pst_sym) staked) staked.

(** The administrator raises "bmrate", so that one unmatched PST earns
    two RSI a second. *)
Definition configured : state :=
  after (setdmcconfig sample_header "bmrate" 1209600000 minted) minted.

(** alice offers 1000 PST at 2.5 DMC, deposit ratio 1, for three weeks. *)
Definition billed : state :=
  after (bill sample_header alice (mk_asset 1000 pst_sym) 2.5
           (now configured + 3 * week) 1 "" configured) configured.

Definition bill_1 : Z :=
  bill_digest sample_header alice (mk_asset 1000 pst_sym) 10737418240
    (now configured) "".

(** bob orders 100 PST of it in the same second, pledging 600 DMC. *)
Definition ordered : state :=
  after (order sample_header bob alice bill_1 (mk_asset 100 pst_sym)
           (mk_asset 600 dmc_sym) "" (now billed + week) billed) billed.

(** The bill a hundred seconds after alice created it. *)
Definition later : state := advance 100 billed.

(** The row [billed] holds, and the store after a bonus accrual for it. *)
Definition bill_row : bill_record :=
  mk_bill 0 bill_1 alice (mk_asset 0 pst_sym) (mk_asset 1000 pst_sym)
    10737418240 1000000 1000000 2814400 1.

Definition accrue (s : state) : state :=
  match calbonus sample_header alice bill_1 alice s with
  | Ok (_, s') => s'
  | Abort _ => s
  end.

(** bob's order of 100 PST a hundred seconds after [bill]. *)
Definition ordered_later : state :=
  after (order sample_header bob alice bill_1 (mk_asset 100 pst_sym)
           (mk_asset 600 dmc_sym) "" (now later + week) later) later.

(** alice bills 100 PST she holds without ever having opened a pool. *)
Definition billed_without_pool : state :=
  after (bill sample_header alice (mk_asset 100 pst_sym) 2.5
           (now genesis_pst + week) 1 "" genesis_pst) genesis_pst.

Definition bill_2 : Z :=
  bill_digest sample_header alice (mk_asset 100 pst_sym) 10737418240
    (now genesis_pst) "".

(** alice repeats her first [bill] in the second in which bob ordered
    from it, then cancels by identifier. *)
Definition billed_again : state :=
  after (bill sample_header alice (mk_asset 1000 pst_sym) 2.5
           (now ordered + 3 * week) 1 "" ordered) ordered.

Definition cancelled : state :=
  after (unbill sample_header alice bill_1 "" billed_again) billed_again.

(** Three trades: at 1 DMC, half a million seconds later at 5 DMC, and
    two hundred thousand seconds after that at 3 DMC.  The window is a
    week, so the third trade finds the first sample expired and the
    second one not. *)
Definition traded_once : state := trace_price_history sample_header 1 7 genesis.

Definition traded_twice : state :=
  trace_price_history sample_header 5 7 (advance 500000 traded_once).

Definition traded_thrice : state :=
  trace_price_history sample_header 3 7 (advance 200000 traded_twice).

(** A pool of two: alice opens with 10000 DMC, lowers her minimum share
    to 0.2, and bob joins with 5000 DMC. *)
Definition opened : state :=
  after (setmakerrate alice 0.2 staked) staked.

Definition joined : state :=
  after (increase sample_header bob (mk_asset 5000 dmc_sym) alice opened) opened.

Definition bob_left : state :=
  after (redemption sample_header bob 1 alice joined) joined.

(** A lopsided pool of two: alice and bob stake 16 DMC units each, then
    alice adds [2 ^ 59 - 32]: bob's weight is below the rounding unit of
    the total weight. *)
Definition small_pool : state :=
  let s1 := after (increase sample_header alice (mk_asset 16 dmc_sym) alice genesis)
              genesis in
  let s2 := after (setmakerrate alice 0.2 s1) s1 in
  after (increase sample_header bob (mk_asset 16 dmc_sym) alice s2) s2.

Definition lopsided : state :=
  after (increase sample_header alice (mk_asset (2 ^ 59 - 32) dmc_sym) alice
           small_pool) small_pool.

Definition alice_left : state :=
  after (redemption sample_header alice 1 alice lopsided) lopsided.

Definition alice_back : state :=
  after (increase sample_header alice (mk_asset 16 dmc_sym) alice alice_left)
    alice_left.

(** [who] adds [v] DMC units to alice's pool. *)
Definition stake (who : name) (v : Z) (s : state) : state :=
  after (increase sample_header who (mk_asset v dmc_sym) alice s) s.

(** alice opens a pool with 12345 units and lowers her minimum share;
    then six increases by alice, bob and carol. *)
Definition odd_pool : state :=
  let s1 := stake alice 12345 genesis in
  after (setmakerrate alice 0.2 s1) s1.

Definition drifted : state :=
  stake alice 3333
    (stake carol 23
       (stake bob 17 (stake alice 1000 (stake bob 47 (stake alice 37 odd_pool))))).

(** The maker's total weight, 0 without a maker row. *)
Definition total_weight_of (s : state) (maker_name : name) : float :=
  match makers s !! maker_name with
  | Some m => total_weight m
  | None => 0
  end.

(** ** Predicates on stores *)

(** Every maker row sits under its own name. *)
Definition makers_keyed (s : state) : Prop :=
  forall k m, makers s !! k = Some m -> miner m = k.

(** What the scan reads and never writes: the minted amounts, the
    configuration and the price average. *)
Definition same_rates (s s' : state) : Prop :=
  pststats s' = pststats s /\ config s' = config s
  /\ price_average s' = price_average s.

(** The unmatched amount of every bill is an asset amount, not
    negative. *)
Definition bill_sound (b : bill_record) : Prop :=
  0 <= amount (b_unmatched b) <= max_amount.

Definition bills_sound (s : state) : Prop :=
  forall owner, Forall bill_sound (bills_of s owner).

(** What the drain of [owner] leaves alone: what the sweep reads the
    rates from, every balance but the PST of [owner], and the bills of
    the others. *)
Definition drained_only (owner : name) (s s' : state) : Prop :=
  same_rates s s'
  /\ (forall key, key <> (owner, pst_sym) ->
        accounts s' !! key = accounts s !! key)
  /\ (forall other, other <> owner -> bills_of s' other = bills_of s other).

(** *** The sweep, planned on the store the call begins with

    What [liquidation] does to one maker, computed from the store as
    the call finds it: the PST the sweep sets out to burn, what of it
    the maker's free balance covers, what the bills cover, and the
    penalty. *)

(** What the drain takes from the maker's free PST balance when
    [target] is to burn: [std::min] of the two, nothing without an
    account row. *)
Definition from_balance (s : state) (owner : name) (target : Z) : Z :=
  match accounts s !! (owner, pst_sym) with
  | Some bal => Z.min target bal
  | None => 0
  end.

(** What is left to drain after the bills, given by their unmatched
    amounts, oldest first. *)
Fixpoint bills_leftover (us : list Z) (leftover : Z) : Z :=
  match us with
  | [] => leftover
  | u :: rest =>
      if 0 <? leftover then
        if u <=? leftover then bills_leftover rest (leftover - u) else 0
      else leftover
  end.

(** The unmatched amounts the drain leaves in the table: a bill drained
    whole is erased, the one drained in part keeps the rest. *)
Fixpoint unmatched_left (us : list Z) (leftover : Z) : list Z :=
  match us with
  | [] => []
  | u :: rest =>
      if 0 <? leftover then
        if u <=? leftover then unmatched_left rest (leftover - u)
        else (u - leftover) :: rest
      else us
  end.

Definition unmatched_of (rows : list bill_record) : list Z :=
  (fun b => amount (b_unmatched b)) <$> rows.

Record sweep : Type := mk_sweep {
  sw_maker : maker;             (* the row of the rate index *)
  sw_target : extended_asset;   (* origin_liq_pst_asset *)
  sw_from_balance : Z;
  sw_from_bills : Z;
  sw_penalty : extended_asset   (* penalty_dmc_asset *)
}.

Definition sw_owner (sw : sweep) : name := miner (sw_maker sw).

(** [sub_pst_asset]: what was drained, from the balance and the bills. *)
Definition sw_burned (sw : sweep) : Z := sw_from_balance sw + sw_from_bills sw.

(** The test that puts a maker on [liquidation_required]. *)
Definition sw_queued (sw : sweep) : bool :=
  negb (sw_burned sw =? 0) && negb (amount (sw_penalty sw) =? 0).

Definition sweep_of (hdr : header) (s : state) (m : maker) : result sweep :=
  let owner := miner m in
  let f :=
    shortfall (current_rate m) (get_dmc_rate hdr s (benchmark_stake_rate m)) in
  let* target := liq_target f (minted_read hdr s owner) in
  let* penalty := penalty_of hdr s f (total_staked m) in
  let taken := from_balance s owner (amount target) in
  let leftover := amount target - taken in
  Ok (mk_sweep m target taken
        (leftover - bills_leftover (unmatched_of (bills_of s owner)) leftover)
        penalty).

(** The makers the sweep works on: those of the rate index, in order,
    up to the first whose rate is not below its valued benchmark or
    until twenty are queued. *)
Fixpoint sweep_plan (hdr : header) (s : state) (idx : list maker) (queued : nat)
  : result (list sweep) :=
  match idx with
  | [] => Ok []
  | m :: rest =>
      if flt (current_rate m) (get_dmc_rate hdr s (get_n m))
         && (queued <? 20)%nat
      then
        let* sw := sweep_of hdr s m in
        let* more :=
          sweep_plan hdr s rest (if sw_queued sw then S queued else queued) in
        Ok (sw :: more)
      else Ok []
  end.

Definition sweep_entry (sw : sweep) : option liquidation_entry :=
  if sw_queued sw
  then Some (sw_owner sw, mk_asset (sw_burned sw) pst_sym, sw_penalty sw)
  else None.

(** [liquidation_required] *)
Definition queue_of (sweeps : list sweep) : list liquidation_entry :=
  omap sweep_entry sweeps.

(** The drains of one planned sweep, between two stores: the balance
    debited, the bills drained. *)
Definition sweep_drained (s s' : state) (sw : sweep) : Prop :=
  let owner := sw_owner sw in
  balance s' owner pst_sym = balance s owner pst_sym - sw_from_balance sw
  /\ unmatched_of (bills_of s' owner)
     = unmatched_left (unmatched_of (bills_of s owner))
         (amount (sw_target sw) - sw_from_balance sw).

(** One planned sweep carried out by a call that went from [s] to [s']:
    the drains; and for a queued maker the burned PST off the minted
    amount, the penalty off the stake the row held in [s], and the rate
    recomputed from the two, the rest of the row as in [s]; for a maker
    not queued the minted amount as it was. *)
Definition sweep_settled (hdr : header) (s s' : state) (sw : sweep) : Prop :=
  let owner := sw_owner sw in
  makers s !! owner = Some (sw_maker sw)
  /\ sweep_drained s s' sw
  /\ if sw_queued sw then
       exists minted' staked',
         match pststats s !! owner with
         | Some st => asset_add st (asset_neg (mk_asset (sw_burned sw) pst_sym))
         | None => Ok (asset_neg (mk_asset (sw_burned sw) pst_sym))
         end = Ok minted'
         /\ pststats s' !! owner = Some minted'
         /\ asset_sub (total_staked (sw_maker sw)) (sw_penalty sw) = Ok staked'
         /\ makers s' !! owner
            = Some (with_rate (cal_current_rate hdr s' staked' owner)
                      (with_staked staked' (sw_maker sw)))
     else pststats s' !! owner = pststats s !! owner.

Definition entry_miner (e : liquidation_entry) : name := e.1.1.

(** The sweeps of a plan, none when there is no plan. *)
Definition after_plan (r : result (list sweep)) : list sweep :=
  match r with
  | Ok sweeps => sweeps
  | Abort _ => []
  end.

(** The penalties of the queued makers, added up. *)
Definition penalties_of (sweeps : list sweep) : Z :=
  foldr (fun sw acc =>
           (if sw_queued sw then amount (sw_penalty sw) else 0) + acc)
    0 sweeps.

(** The sweep run on [ordered], where bob's order has left alice's rate
    at 3.06 against a benchmark valued at 5. *)
Definition swept : state :=
  after (liquidation sample_header "" ordered) ordered.

(** alice offers 1950 PST more, which leaves her 50 PST free, and the
    sweep runs: its target of 1167 PST takes the 50, the whole of the
    first bill's 900 and 217 of the second's. *)
Definition stretched : state :=
  after (bill sample_header alice (mk_asset 1950 pst_sym) 2.5
           (now ordered + 3 * week) 1 "" ordered) ordered.

Definition stretched_swept : state :=
  after (liquidation sample_header "" stretched) stretched.

(** alice takes half of her own share out of the pool she shares with
    bob. *)
Definition alice_halved : state :=
  after (redemption sample_header alice 0.5 alice joined) joined.

(** alice raises her benchmark to 250 in a header whose change interval
    is three days, and tries again a day later. *)
Definition three_days : Z := 259200.

Definition rebenchmarked : state :=
  after (setmakerbstr sample_header three_days alice 250 staked) staked.

(** The first release stage, configured before it starts and again once
    it has started. *)
Definition stage_one : gmap Z abostat :=
  match
    setabostats sample_header 1 0.5 0.5 (mk_asset 1000000 dmc_sym)
      2000000 3000000 genesis ∅
  with
  | Ok ast => ast
  | Abort _ => ∅
  end.

Definition stage_one_again : gmap Z abostat :=
  match
    setabostats sample_header 1 0.25 0.75 (mk_asset 500 dmc_sym)
      2000000 4000000 (advance 1500000 genesis) stage_one
  with
  | Ok ast => ast
  | Abort _ => ∅
  end.

(** alice cancels her bill in [billed] at once: her table is empty. *)
Definition withdrawn : state :=
  after (unbill sample_header alice bill_1 "" billed) billed.

(** alice cancels the bill bob has ordered 100 PST from. *)
Definition closed : state :=
  after (unbill sample_header alice bill_1 "" ordered) ordered.

(** The bill of [billed] after its claim window (a week) has ended: the
    bonus accrued up to the end of the window and that time written
    back, as [order] would. *)
Definition window_end : Z := 1604800.

Definition past_window : state :=
  let s1 := accrue (advance 700000 billed) in
  advance 100
    (set_bills
       (<[alice := <[0%nat := with_updated_at window_end bill_row]>
                     (bills_of s1 alice)]> (bills s1)) s1).

(** Two makers.  alice has 10000 DMC staked and 3000 PST minted: a rate
    of 3.33 against a benchmark valued at 2.  bob has 10000 DMC staked
    and 2000 PST minted, and has raised his own benchmark to 1000: a
    rate of 5 against a benchmark valued at 10. *)
Definition two_makers : state :=
  let s1 := after (increase sample_header bob (mk_asset 10000 dmc_sym) bob minted)
              minted in
  let s2 := after (mint sample_header bob (mk_asset 2000 pst_sym) s1) s1 in
  after (setmakerbstr sample_header three_days bob 1000 s2) s2.

(** Every maker row of [s] is still a row of [s'], with the fields that
    neither an accrual nor a sweep writes; the pools are the same. *)
Definition weights_kept (s s' : state) : Prop :=
  pools s' = pools s
  /\ forall k m,
       makers s !! k = Some m ->
       exists m',
         makers s' !! k = Some m'
         /\ miner m' = miner m /\ total_weight m' = total_weight m
         /\ miner_rate m' = miner_rate m
         /\ benchmark_stake_rate m' = benchmark_stake_rate m
         /\ rate_updated_at m' = rate_updated_at m.

(** ** Reading a successful run *)

Lemma bind_Ok {A B : Type} (r : result A) (k : A -> result B) (b : B) :
  bind r k = Ok b -> exists a, r = Ok a /\ k a = Ok b.
Proof. destruct r as [a|msg]; simpl; [eauto | discriminate]. Qed.

Lemma get_Ok {A : Type} (o : option A) (msg : string) (a : A) :
  get o msg = Ok a -> o = Some a.
Proof. destruct o; simpl; congruence. Qed.

(** One step down a run that ended in [Ok]: the bound call returned, the
    check passed. *)
Ltac ok_step H :=
  lazymatch type of H with
  | bind (Ok _) _ = Ok _ => cbn [bind] in H
  | bind (get ?o ?msg) ?k = Ok _ =>
      let a := fresh "row" in
      let E := fresh "E" in
      destruct o as [a|] eqn:E; [| discriminate H];
      cbn [bind get] in H
  | bind ?r ?k = Ok _ =>
      let a := fresh "x" in
      let E := fresh "E" in
      destruct r as [a|] eqn:E; [| discriminate H];
      cbn [bind] in H
  | (if ?b then _ else Abort _) = Ok _ =>
      let E := fresh "E" in
      destruct b eqn:E; [| discriminate H]
  | (let (_, _) := ?p in _) = Ok _ => destruct p
  | match ?p with pair _ _ => _ end = Ok _ => destruct p
  end.

Ltac ok_steps H := repeat ok_step H.

(** The same over every hypothesis, through the branches of the
    conditionals on the way; runs that abort are discarded. *)
Ltac ok_all :=
  repeat match goal with
    | H : Abort _ = Ok _ |- _ => discriminate H
    | H : Ok _ = Ok _ |- _ => injection H as H; try subst
    | H : bind (Ok _) _ = Ok _ |- _ => cbn [bind] in H
    | H : bind (get ?o _) _ = Ok _ |- _ =>
        destruct o eqn:?; [| discriminate H]; cbn [bind get] in H
    | H : bind ?r _ = Ok _ |- _ =>
        destruct r eqn:?; [| discriminate H]; cbn [bind] in H
    | H : (if ?c then _ else _) = Ok _ |- _ => destruct c eqn:?
    | H : match ?p with pair _ _ => _ end = Ok _ |- _ => destruct p
    end.

(** ** Doubles *)

(** The one double that compares equal to 1 is 1. *)
Lemma feq_one (x : float) : feq x 1 = true -> x = 1%float.
Proof.
  unfold feq. rewrite FloatAxioms.eqb_spec. intros H.
  rewrite <- (SF2Prim_Prim2SF x), <- (SF2Prim_Prim2SF 1). f_equal.
  change (Prim2SF 1) with (S754_finite false 4503599627370496 (-52)) in *.
  unfold SFeqb, SFcompare in H.
  destruct (Prim2SF x) as [[]|[]| |[] m e]; try discriminate H.
  destruct (e ?= -52) eqn:He; try discriminate H.
  apply Z.compare_eq in He. subst e.
  destruct (Pos.compare_cont Eq m 4503599627370496) eqn:Hm; try discriminate H.
  apply Pos.compare_eq in Hm. subst m. reflexivity.
Qed.


(** ** Price window *)

(** C4: the code at the failing input.  The third trade evicts the
    sample of price 1, and the samples left are those of price 5 and 3.
    The running sum loses 5, the price of the row after the evicted
    one, not 1: it ends as 4 with count 2 and average 2, where the
    samples left sum to 8 and average 4. *)
Lemma trace_price_history_subtracts_next_price :
  p_price <$> prices traded_twice = [1%float; 5%float] /\
  price_average traded_twice = Some (mk_avg 0 6 2 3) /\
  p_price <$> prices traded_thrice = [5%float; 3%float] /\
  price_average traded_thrice = Some (mk_avg 0 4 2 2).
Proof. split_and!; vm_compute; reflexivity. Qed.

(** In general, while the first sample of the index is expired, the
    eviction takes the price of its successor off the running sum. *)
Lemma evict_expired_step (hdr : header) (rtime : Z) (it next : price_sample)
    (rest : list price_sample) (a : price_avg) :
  p_created_at it < rtime ->
  evict hdr rtime (it :: next :: rest) a
  = evict hdr rtime (next :: rest)
      (mk_avg (a_primary a) (total a - p_price next)%float
         (uint64 (count a - 1)) (avg a)).
Proof.
  intros Hexp. cbn [evict].
  apply Z.ltb_lt in Hexp. rewrite Hexp. reflexivity.
Qed.

(** ** Minting *)

Lemma asset_add_amount (a b c : extended_asset) :
  asset_add a b = Ok c ->
  - 2 ^ 63 <= amount a + amount b < 2 ^ 63 ->
  amount c = amount a + amount b /\ symbol c = symbol a /\ symbol b = symbol a.
Proof.
  unfold asset_add. intros H Hrange. ok_steps H. injection H as <-.
  cbn. split; [| split; [reflexivity |]].
  - unfold int64. rewrite Z.mod_small by lia. lia.
  - match goal with E : bool_decide _ = true |- _ =>
      apply bool_decide_eq_true in E; congruence end.
Qed.

Lemma cal_current_rate_pststats (hdr : header) (s s' : state)
    (a : extended_asset) (owner : name) :
  pststats s' = pststats s ->
  cal_current_rate hdr s' a owner = cal_current_rate hdr s a owner.
Proof. unfold cal_current_rate. intros ->. reflexivity. Qed.

Lemma get_dmc_rate_prices (hdr : header) (s s' : state) (rate_value : Z) :
  price_average s' = price_average s ->
  config s' = config s ->
  get_dmc_rate hdr s' rate_value = get_dmc_rate hdr s rate_value.
Proof. unfold get_dmc_rate, get_dmc_config. intros -> ->. reflexivity. Qed.

Lemma asset_add_comm (a b c : extended_asset) :
  asset_add a b = Ok c -> asset_add b a = Ok c.
Proof.
  unfold asset_add. intros H. ok_steps H. injection H as <-.
  match goal with E : bool_decide _ = true |- _ =>
    apply bool_decide_eq_true in E; rewrite E in * end.
  rewrite bool_decide_eq_true_2 by reflexivity.
  rewrite (Z.add_comm (amount b) (amount a)).
  repeat match goal with E : (_ <=? _) = true |- _ => rewrite E; clear E end.
  reflexivity.
Qed.

Lemma change_pst_Ok (owner : name) (a : extended_asset) (s s' : state) :
  change_pst owner a s = Ok s' ->
  exists st',
    match pststats s !! owner with
    | Some st => asset_add st a
    | None => Ok a
    end = Ok st' /\
    s' = set_pststats (<[owner := st']> (pststats s)) s.
Proof.
  unfold change_pst. intros H.
  destruct (pststats s !! owner) as [st|].
  - ok_steps H. injection H as <-. eauto.
  - injection H as <-. eauto.
Qed.

(** C7: a successful [mint] passed both checks.  The amount minted so
    far plus [a], as a double, is at most the floor of the staked value
    over the valued benchmark; the rate stored afterwards is the one
    recomputed against the new minted amount and is at least the valued
    benchmark.  A call that fails either check is an [Abort]: it returns
    no store. *)
Theorem mint_within_limit (hdr : header) (s s' : state) (owner : name)
    (a : extended_asset) :
  mint hdr owner a s = Ok s' ->
  exists iter added,
    makers s !! owner = Some iter /\
    match pststats s !! owner with
    | Some st => asset_add a st
    | None => Ok a
    end = Ok added /\
    fle (of_Z (amount added))
        (floor (get_real_asset (total_staked iter)
                / get_dmc_rate hdr s (benchmark_stake_rate iter))%float)
    = true /\
    pststats s' !! owner = Some added /\
    makers s' !! owner
    = Some (with_rate (cal_current_rate hdr s' (total_staked iter) owner) iter) /\
    fle (get_dmc_rate hdr s' (benchmark_stake_rate iter))
        (cal_current_rate hdr s' (total_staked iter) owner)
    = true.
Proof.
  unfold mint. intros H. ok_steps H. injection H as <-.
  match goal with
  | E : change_pst _ _ _ = Ok _ |- _ =>
      apply change_pst_Ok in E as (st' & Hst' & ->)
  end.
  cbn [pststats add_balance add_stats set_accounts set_supply] in Hst'.
  match goal with
  | E : match pststats s !! owner with _ => _ end = Ok ?x |- _ =>
      assert (st' = x) as ->
        by (destruct (pststats s !! owner);
            [apply asset_add_comm in Hst' | ]; congruence);
      exists row, x
  end.
  split; [reflexivity |]. split; [reflexivity |].
  split; [assumption |].
  cbn [pststats set_makers makers set_pststats].
  rewrite !lookup_insert_eq.
  split; [reflexivity |]. split; [reflexivity |].
  assumption.
Qed.

(** alice, with 10000 DMC staked at a benchmark of 2, mints 3000 PST. *)
Lemma mint_within_limit_witness :
  exists iter added,
    makers staked !! alice = Some iter /\
    match pststats staked !! alice with
    | Some st => asset_add (mk_asset 3000 pst_sym) st
    | None => Ok (mk_asset 3000 pst_sym)
    end = Ok added /\
    fle (of_Z (amount added))
        (floor (get_real_asset (total_staked iter)
                / get_dmc_rate sample_header staked (benchmark_stake_rate iter))%float)
    = true /\
    pststats minted !! alice = Some added /\
    makers minted !! alice
    = Some (with_rate
              (cal_current_rate sample_header minted (total_staked iter) alice)
              iter) /\
    fle (get_dmc_rate sample_header minted (benchmark_stake_rate iter))
        (cal_current_rate sample_header minted (total_staked iter) alice)
    = true.
Proof.
  apply (mint_within_limit sample_header staked minted alice
           (mk_asset 3000 pst_sym)).
  vm_compute. reflexivity.
Defined.

(** One PST more than the floor allows is refused, and so is a mint the
    rate check rejects: neither returns a store. *)
Lemma mint_over_limit_aborts :
  mint sample_header alice (mk_asset 5001 pst_sym) staked
  = Abort "insufficient funds to mint" /\
  mint sample_header alice (mk_asset 5000 pst_sym) staked <> Abort
    "insufficient funds to mint".
Proof. split; [vm_compute; reflexivity | vm_compute; discriminate]. Qed.

(** ** Store facts used throughout *)

Lemma sub_balance_Ok (owner : name) (a : extended_asset) (s s1 : state) :
  sub_balance owner a s = Ok s1 ->
  amount a <= balance s owner (symbol a) /\
  s1 = set_accounts
         (<[(owner, symbol a) := balance s owner (symbol a) - amount a]>
            (accounts s)) s.
Proof.
  unfold sub_balance. intros H. ok_steps H.
  match goal with E : (_ <=? _) = true |- _ => apply Z.leb_le in E end.
  split; [assumption | congruence].
Qed.

(** What a successful [bill] leaves: the debit, and one new row at the
    end of the owner's table. *)
Lemma bill_Ok (hdr : header) (s s1 : state) (owner : name) (a : extended_asset)
    (price : float) (expire_on deposit_ratio : Z) (memo : string) :
  bill hdr owner a price expire_on deposit_ratio memo s = Ok s1 ->
  exists price_t,
    to_uint64 (price * 4294967296)%float = Ok price_t /\
    amount a <= balance s owner (symbol a) /\
    s1 = set_bills
           (<[owner :=
                bills_of s owner
                ++ [mk_bill (available_primary_key (bills_of s owner))
                      (bill_digest hdr owner a price_t (now s) memo) owner
                      (mk_asset 0 pst_sym) a price_t (now s) (now s) expire_on
                      deposit_ratio]]> (bills s))
           (set_accounts
              (<[(owner, symbol a) := balance s owner (symbol a) - amount a]>
                 (accounts s)) s).
Proof.
  unfold bill. intros H. ok_steps H.
  match goal with
  | E : sub_balance _ _ _ = Ok _ |- _ => apply sub_balance_Ok in E as [Hfunds ->]
  end.
  injection H as <-. eexists. split; [reflexivity |]. split; [assumption |].
  reflexivity.
Qed.

(** What a successful [unbill] does: the accrual, the row erased, the
    row's unmatched amount credited. *)
Lemma unbill_Ok (hdr : header) (s s2 : state) (owner : name) (bill_id : Z)
    (memo : string) :
  unbill hdr owner bill_id memo s = Ok s2 ->
  exists i ust t s',
    find_bill (bills_of s owner) bill_id = Some (i, ust) /\
    calbonus hdr owner bill_id owner s = Ok (t, s') /\
    s2 = add_balance owner (b_unmatched ust)
           (set_bills (<[owner := delete i (bills_of s' owner)]> (bills s')) s').
Proof.
  unfold unbill. intros H. ok_steps H.
  injection H as <-. eauto 10.
Qed.

(** With no time elapsed since the bill was last touched, [calbonus]
    accrues over a duration of zero and returns the store as it is. *)
Lemma calbonus_fresh_bill (hdr : header) (s : state) (owner : name)
    (bill_id : Z) (payer : name) (i : nat) (ust : bill_record)
    (t : Z) (s' : state) :
  find_bill (bills_of s owner) bill_id = Some (i, ust) ->
  b_updated_at ust = now s ->
  calbonus hdr owner bill_id payer s = Ok (t, s') ->
  s' = s.
Proof.
  intros Hfind Hupd H. unfold calbonus in H.
  rewrite Hfind in H. cbn [get bind] in H.
  ok_step H. unfold capped_now in H. rewrite Hupd in H.
  set (mx := claims_end hdr s ust) in H.
  destruct (mx <=? now s) eqn:Hmx; destruct (now s <=? mx) eqn:Hle;
    try congruence.
  - assert (mx = now s) as Heq by (apply Z.leb_le in Hmx, Hle; lia).
    rewrite Heq, Z.sub_diag in H. change (uint64 0) with 0 in H.
    ok_steps H. rewrite Z.mul_0_r in H. change (int64 0) with 0 in H.
    rewrite Z.mul_0_l in H. change (int64 0) with 0 in H.
    simpl in H. congruence.
  - rewrite Z.sub_diag in H. change (uint64 0) with 0 in H.
    ok_steps H. rewrite Z.mul_0_r in H. change (int64 0) with 0 in H.
    rewrite Z.mul_0_l in H. change (int64 0) with 0 in H.
    simpl in H. congruence.
Qed.

Lemma bills_of_set_bills (f : gmap name (list bill_record)) (s : state)
    (owner : name) (rows : list bill_record) :
  bills_of (set_bills (<[owner := rows]> f) s) owner = rows.
Proof. unfold bills_of. cbn. rewrite lookup_insert_eq. reflexivity. Qed.

Lemma balance_add_balance (owner : name) (a : extended_asset) (s : state) :
  balance (add_balance owner a s) owner (symbol a)
  = balance s owner (symbol a) + amount a.
Proof. unfold balance at 1, add_balance. cbn. rewrite lookup_insert_eq. reflexivity. Qed.

Lemma balance_debited (owner : name) (sym : extended_symbol) (v : Z) (s : state) :
  balance (set_accounts (<[(owner, sym) := v]> (accounts s)) s) owner sym = v.
Proof. unfold balance. cbn. rewrite lookup_insert_eq. reflexivity. Qed.

(** ** Bill, then unbill *)

(** C8 (amended): a bill whose identifier no other bill of the owner
    carries, cancelled at once, credits the billed amount back and
    leaves the owner's bill table and the maker table as they were. *)
Theorem bill_unbill_roundtrip (hdr : header) (s s1 s2 : state) (owner : name)
    (a : extended_asset) (price : float) (expire_on deposit_ratio price_t : Z)
    (memo memo' : string) :
  to_uint64 (price * 4294967296)%float = Ok price_t ->
  find_bill (bills_of s owner) (bill_digest hdr owner a price_t (now s) memo)
  = None ->
  bill hdr owner a price expire_on deposit_ratio memo s = Ok s1 ->
  unbill hdr owner (bill_digest hdr owner a price_t (now s) memo) memo' s1
  = Ok s2 ->
  balance s1 owner (symbol a) = balance s owner (symbol a) - amount a /\
  balance s2 owner (symbol a) = balance s owner (symbol a) /\
  bills_of s2 owner = bills_of s owner /\
  makers s2 = makers s.
Proof.
  intros Hprice Hfresh Hbill Hunbill.
  apply bill_Ok in Hbill as (price_t' & Hprice' & Hfunds & ->).
  rewrite Hprice in Hprice'. injection Hprice' as <-.
  set (id := bill_digest hdr owner a price_t (now s) memo) in *.
  set (r := mk_bill _ id _ _ _ _ _ _ _ _) in *.
  set (s1 := set_bills _ _) in *.
  assert (bills_of s1 owner = bills_of s owner ++ [r]) as Hrows
    by apply bills_of_set_bills.
  assert (find_bill (bills_of s1 owner) id = Some (length (bills_of s owner), r))
    as Hfind.
  { unfold find_bill in *. rewrite Hrows, list_find_app_r by exact Hfresh.
    cbn. rewrite decide_True by reflexivity. reflexivity. }
  apply unbill_Ok in Hunbill as (i & ust & t & s' & Hfind' & Hbonus & ->).
  rewrite Hfind in Hfind'. injection Hfind' as <- <-.
  eapply calbonus_fresh_bill in Hbonus; [| exact Hfind | reflexivity].
  subst s'. rewrite Hrows.
  replace (bills_of s owner ++ [r]) with (bills_of s owner ++ r :: [])
    by reflexivity.
  rewrite delete_middle, app_nil_r.
  assert (balance s1 owner (symbol a) = balance s owner (symbol a) - amount a)
    as Hdebit by apply balance_debited.
  split; [exact Hdebit |].
  split; [| split; [| reflexivity]].
  - rewrite balance_add_balance.
    change (balance (set_bills _ s1) owner (symbol a))
      with (balance s1 owner (symbol a)).
    rewrite Hdebit. lia.
  - unfold bills_of at 1. cbn. rewrite lookup_insert_eq. reflexivity.
Qed.

(** alice bills 1000 PST in [configured], where she has no bill yet, and
    cancels in the same second. *)
Lemma bill_unbill_roundtrip_witness :
  balance billed alice pst_sym = balance configured alice pst_sym - 1000 /\
  balance (after (unbill sample_header alice bill_1 "" billed) billed)
    alice pst_sym = balance configured alice pst_sym /\
  bills_of (after (unbill sample_header alice bill_1 "" billed) billed) alice
  = bills_of configured alice /\
  makers (after (unbill sample_header alice bill_1 "" billed) billed)
  = makers configured.
Proof.
  apply (bill_unbill_roundtrip sample_header configured billed
           (after (unbill sample_header alice bill_1 "" billed) billed)
           alice (mk_asset 1000 pst_sym) 2.5 (now configured + 3 * week) 1
           10737418240 "" "");
    vm_compute; reflexivity.
Defined.

(** C8 as stated fails when the identifier is not fresh.  alice's two
    identical [bill] calls of one second share the identifier [bill_1];
    bob matched 100 PST of the first in between.  [unbill] then erases
    the first bill and credits its 900 unmatched PST: 100 PST short of
    the balance before the second [bill], whose row stays. *)
Lemma bill_unbill_duplicate_identifier :
  bill sample_header alice (mk_asset 1000 pst_sym) 2.5
    (now ordered + 3 * week) 1 "" ordered = Ok billed_again /\
  unbill sample_header alice bill_1 "" billed_again = Ok cancelled /\
  balance ordered alice pst_sym = 2000 /\
  balance cancelled alice pst_sym = 1900 /\
  b_unmatched <$> bills_of cancelled alice = [mk_asset 1000 pst_sym].
Proof. split_and!; vm_compute; reflexivity. Qed.

(** ** Bonus accrual *)

(** [calbonus] returns the capped time and writes nothing but the
    maker table. *)
Lemma calbonus_Ok (hdr : header) (s s1 : state) (owner : name) (bill_id : Z)
    (payer : name) (t : Z) :
  calbonus hdr owner bill_id payer s = Ok (t, s1) ->
  exists i ust,
    find_bill (bills_of s owner) bill_id = Some (i, ust) /\
    t = capped_now hdr s ust /\
    bills s1 = bills s /\ now s1 = now s /\ config s1 = config s /\
    accounts s1 = accounts s /\ pststats s1 = pststats s /\
    price_average s1 = price_average s.
Proof.
  unfold calbonus. intros H. ok_steps H.
  exists n, b. split; [reflexivity |].
  repeat first
    [ ok_step H
    | match type of H with
      | (if ?c then _ else _) = Ok _ => destruct c eqn:?
      end ];
    injection H as <- <-; auto 10.
Qed.

Lemma find_bill_write_back (rows : list bill_record) (bill_id : Z) (i : nat)
    (ust ust' : bill_record) :
  find_bill rows bill_id = Some (i, ust) ->
  b_bill_id ust' = bill_id ->
  find_bill (<[i := ust']> rows) bill_id = Some (i, ust').
Proof.
  unfold find_bill. intros Hfind Hid.
  apply list_find_Some in Hfind as (Hi & _ & Hleast).
  apply list_find_insert_Some. right; left.
  split; [reflexivity |]. split; [reflexivity |].
  split; [eauto using lookup_lt_Some |]. split; [exact Hid |].
  exact Hleast.
Qed.

(** C9 (amended): once the timestamp [calbonus] returned is the
    [updated_at] of the bill (what [order] and [liquidation] store in
    the row, along with the new unmatched amount), a second [calbonus]
    at the same time returns the same timestamp and changes nothing:
    the maker's [total_staked] moves by zero.  The second call runs on
    any store of the same time and configuration in which the bill,
    created when it was, carries that timestamp; the rest of the row
    and of the store is free. *)
Theorem calbonus_after_write_back (hdr : header) (s s1 s2 s3 : state)
    (owner : name) (bill_id : Z) (payer payer' : name) (t t' : Z)
    (i i2 : nat) (ust ust2 : bill_record) :
  0 <= now s < 2 ^ 32 ->
  find_bill (bills_of s owner) bill_id = Some (i, ust) ->
  calbonus hdr owner bill_id payer s = Ok (t, s1) ->
  now s2 = now s ->
  config s2 = config s ->
  find_bill (bills_of s2 owner) bill_id = Some (i2, ust2) ->
  b_created_at ust2 = b_created_at ust ->
  b_updated_at ust2 = uint32 t ->
  calbonus hdr owner bill_id payer' s2 = Ok (t', s3) ->
  t' = t /\ s3 = s2 /\ makers s3 = makers s2
  /\ staked_of s3 owner = staked_of s2 owner.
Proof.
  intros Hnow Hfind H1 Hnow2 Hcfg Hfind2 Hcreated Hupdated H2.
  apply calbonus_Ok in H1 as (i0 & ust0 & Hfind0 & Ht & _).
  rewrite Hfind in Hfind0. injection Hfind0 as <- <-.
  assert (claims_end hdr s2 ust2 = claims_end hdr s ust) as Hend
    by (unfold claims_end, get_dmc_config; rewrite Hcfg, Hcreated; reflexivity).
  assert (capped_now hdr s2 ust2 = t) as Hcap
    by (rewrite Ht; unfold capped_now; rewrite Hend, Hnow2; reflexivity).
  assert (0 <= t < 2 ^ 32) as Hrange.
  { rewrite Ht. unfold capped_now.
    set (mx := claims_end hdr s ust).
    assert (0 <= mx)
      by (unfold mx, claims_end, uint64; apply Z.mod_pos_bound; lia).
    destruct (mx <=? now s) eqn:Hmx; [apply Z.leb_le in Hmx |]; lia. }
  assert (uint32 t = t) as Ht32
    by (unfold uint32; apply Z.mod_small; exact Hrange).
  unfold calbonus in H2. rewrite Hfind2 in H2. cbn [get bind] in H2.
  ok_step H2.
  rewrite Hupdated, Hcap, Ht32 in H2.
  destruct (t <=? _) in H2.
  - rewrite Z.sub_diag in H2. change (uint64 0) with 0 in H2.
    ok_steps H2. rewrite Z.mul_0_r in H2. change (int64 0) with 0 in H2.
    rewrite Z.mul_0_l in H2. change (int64 0) with 0 in H2.
    cbn in H2. injection H2 as <- <-. auto.
  - injection H2 as <- <-. auto.
Qed.

(** A hundred seconds after [bill], bob orders 100 PST: [order] accrues
    the bonus and stores the timestamp with the new unmatched amount.
    An accrual in the same second on the store [order] left returns the
    same timestamp and that store. *)
Lemma calbonus_after_write_back_witness :
  1000100 = 1000100 /\ accrue ordered_later = ordered_later
  /\ makers (accrue ordered_later) = makers ordered_later
  /\ staked_of (accrue ordered_later) alice = staked_of ordered_later alice.
Proof.
  apply (calbonus_after_write_back sample_header later (accrue later)
           ordered_later (accrue ordered_later) alice bill_1 alice alice
           1000100 1000100 0%nat 0%nat bill_row
           (with_updated_at 1000100
              (with_matched (mk_asset 100 pst_sym)
                 (with_unmatched (mk_asset 900 pst_sym) bill_row))));
    [ split; vm_compute; [discriminate | reflexivity]
    | vm_compute; reflexivity.. ].
Defined.

(** What [order] left in that store: the accrued stake, and the row
    with the timestamp and 900 PST unmatched. *)
Lemma order_writes_back :
  order sample_header bob alice bill_1 (mk_asset 100 pst_sym)
    (mk_asset 600 dmc_sym) "" (now later + week) later = Ok ordered_later
  /\ staked_of later alice = 10000 /\ staked_of ordered_later alice = 210000
  /\ (fun b => (amount (b_unmatched b), b_updated_at b))
       <$> bills_of ordered_later alice = [(900, 1000100)].
Proof. split_and!; vm_compute; reflexivity. Qed.

(** C9 as stated fails: two calls of [calbonus] back to back, as the
    claim has them.  [calbonus] itself does not move the bill's
    [updated_at], so the second call accrues the same hundred seconds
    again. *)
Lemma calbonus_twice_accrues_twice :
  calbonus sample_header alice bill_1 alice later
  = Ok (1000100, accrue later) /\
  calbonus sample_header alice bill_1 alice (accrue later)
  = Ok (1000100, accrue (accrue later)) /\
  now (accrue later) = now later /\
  staked_of later alice = 10000 /\
  staked_of (accrue later) alice = 210000 /\
  staked_of (accrue (accrue later)) alice = 410000.
Proof. split_and!; vm_compute; reflexivity. Qed.
(** ** Cancelling a bill needs a maker record *)

(** C10: [unbill] on an existing bill of an owner without a maker record
    aborts in [calbonus], with "no such pst maker". *)
Theorem unbill_without_maker_aborts (hdr : header) (s : state) (owner : name)
    (bill_id : Z) (memo : string) (i : nat) (ust : bill_record) :
  has_auth owner s = true ->
  (String.length memo <= 256)%nat ->
  find_bill (bills_of s owner) bill_id = Some (i, ust) ->
  makers s !! owner = None ->
  unbill hdr owner bill_id memo s = Abort "no such pst maker".
Proof.
  intros Hauth Hmemo Hbill Hmaker.
  unfold unbill, calbonus.
  rewrite Hauth.
  apply Nat.leb_le in Hmemo. rewrite Hmemo.
  rewrite Hbill. cbn [get bind].
  rewrite Hmaker. reflexivity.
Qed.

(** An owner can create the bill without a maker record: [bill] never
    looks at the maker table. *)
Lemma unbill_without_maker_aborts_witness :
  bill sample_header alice (mk_asset 100 pst_sym) 2.5 (now genesis_pst + week)
    1 "" genesis_pst = Ok billed_without_pool /\
  unbill sample_header alice bill_2 "" billed_without_pool
  = Abort "no such pst maker".
Proof.
  split; [vm_compute; reflexivity |].
  apply (unbill_without_maker_aborts sample_header billed_without_pool alice
           bill_2 "" 0%nat
           (mk_bill 0 bill_2 alice (mk_asset 0 pst_sym) (mk_asset 100 pst_sym)
              10737418240 1000000 1000000 1604800 1));
    [ reflexivity | simpl; lia | vm_compute; reflexivity | reflexivity ].
Defined.

(** ** Ordering *)

Lemma asset_sub_amount (a b c : extended_asset) :
  asset_sub a b = Ok c ->
  - 2 ^ 63 <= amount a - amount b < 2 ^ 63 ->
  amount c = amount a - amount b /\ symbol c = symbol a /\ symbol b = symbol a.
Proof.
  unfold asset_sub. intros H Hrange. ok_steps H. injection H as <-.
  cbn. split; [| split; [reflexivity |]].
  - unfold int64. rewrite Z.mod_small by lia. lia.
  - match goal with E : bool_decide _ = true |- _ =>
      apply bool_decide_eq_true in E; congruence end.
Qed.

Lemma asset_Ok (v : Z) (sym : extended_symbol) (a : extended_asset) :
  asset v sym = Ok a ->
  a = mk_asset v sym /\ - max_amount <= v <= max_amount.
Proof.
  unfold asset. intros H. ok_steps H. injection H as <-.
  match goal with E : _ && _ = true |- _ =>
    apply andb_true_iff in E as [?%Z.leb_le ?%Z.leb_le] end.
  auto.
Qed.

Lemma asset_le_Ok (a b : extended_asset) (r : bool) :
  asset_le a b = Ok r ->
  symbol a = symbol b /\ r = (amount a <=? amount b).
Proof.
  unfold asset_le. intros H. ok_steps H. injection H as <-.
  match goal with E : bool_decide _ = true |- _ =>
    apply bool_decide_eq_true in E end.
  auto.
Qed.

(** The store [order] returns, step by step as the action builds it. *)
Lemma order_Ok (hdr : header) (s s' : state) (owner miner_name : name)
    (bill_id : Z) (a reserve : extended_asset) (memo : string)
    (deposit_valid : Z) :
  order hdr owner miner_name bill_id a reserve memo deposit_valid s = Ok s' ->
  exists i ust pay dep first_payment s1 t s2 unmatched' matched' maker_iter
         lock_v lock_dmc reduced pledge0 pledge,
    find_bill (bills_of s miner_name) bill_id = Some (i, ust) /\
    asset_le a (b_unmatched ust) = Ok true /\
    0 < amount a /\
    user_to_pay ust a = Ok pay /\
    user_to_deposit pay ust = Ok dep /\
    asset_add pay dep = Ok first_payment /\
    asset_le first_payment reserve = Ok true /\
    sub_balance owner reserve s = Ok s1 /\
    calbonus hdr miner_name bill_id owner s1 = Ok (t, s2) /\
    asset_sub (b_unmatched ust) a = Ok unmatched' /\
    asset_add (b_matched ust) a = Ok matched' /\
    makers s2 !! miner_name = Some maker_iter /\
    to_int64 (of_Z (amount pay)
              * cal_current_rate hdr s2 (total_staked maker_iter) miner_name)%float
    = Ok lock_v /\
    asset lock_v (symbol pay) = Ok lock_dmc /\
    asset_sub (total_staked maker_iter) lock_dmc = Ok reduced /\
    asset_sub reserve pay = Ok pledge0 /\
    asset_sub pledge0 dep = Ok pledge /\
    let ust' :=
      with_updated_at (uint32 t)
        (with_matched matched' (with_unmatched unmatched' ust)) in
    let s3 :=
      set_bills (<[miner_name := <[i := ust']> (bills_of s2 miner_name)]> (bills s2))
        s2 in
    let id :=
      free_order_id (orders s3)
        (order_digest hdr owner miner_name bill_id a reserve memo (now s)) in
    let s4 :=
      set_makers
        (<[miner_name :=
             with_rate (cal_current_rate hdr s3 reduced miner_name) maker_iter]>
           (makers s3)) s3 in
    let order_info :=
      mk_order id owner miner_name bill_id pledge a lock_dmc
        (mk_asset 0 (symbol pay)) pay pay OrderStateWaiting 0 0
        (mk_asset 0 rsi_sym) (mk_asset 0 rsi_sym) (mk_asset 0 rsi_sym)
        dep deposit_valid 0 in
    let s5 := set_orders (<[id := order_info]> (orders s4)) s4 in
    let s6 :=
      set_challenges
        (<[id := mk_challenge id 0 (self hdr) 0 ChallengePrepare
                   (mk_asset 0 dmc_sym) (mk_asset 0 dmc_sym)]> (challenges s5))
        s5 in
    s' = trace_price_history hdr (bill_price ust) bill_id s6.
Proof.
  unfold order. intros H. ok_steps H. injection H as <-.
  do 16 eexists.
  repeat match goal with
         | |- _ /\ _ => split
         end;
    try reflexivity; try eassumption.
  apply Z.ltb_lt. assumption.
Qed.

(** What [calbonus] does to the maker table: nothing, or the owner's
    stake grown by a positive converted reward. *)
Lemma calbonus_makers (hdr : header) (s s1 : state) (owner : name)
    (bill_id : Z) (payer : name) (t : Z) :
  calbonus hdr owner bill_id payer s = Ok (t, s1) ->
  exists iter,
    makers s !! owner = Some iter /\
    (makers s1 = makers s
     \/ exists bonus staked',
          0 < amount bonus /\
          asset_add (total_staked iter) bonus = Ok staked' /\
          makers s1 = <[owner := with_staked staked' iter]> (makers s)).
Proof.
  unfold calbonus. intros H. ok_steps H.
  exists row. split; [reflexivity |].
  repeat first
    [ ok_step H
    | match type of H with
      | (if ?c then _ else _) = Ok _ => destruct c eqn:?
      end ];
    injection H as <- <-; auto.
  right. do 2 eexists. split; [| split; [eassumption | reflexivity]].
  apply Z.ltb_lt. assumption.
Qed.

Lemma user_to_pay_Ok (ust : bill_record) (a pay : extended_asset) :
  user_to_pay ust a = Ok pay ->
  symbol pay = dmc_sym /\ - max_amount <= amount pay <= max_amount.
Proof.
  unfold user_to_pay, get_asset_by_amount. intros H. ok_steps H.
  apply asset_Ok in H as [-> ?]. auto.
Qed.

Lemma user_to_deposit_Ok (pay dep : extended_asset) (ust : bill_record) :
  user_to_deposit pay ust = Ok dep ->
  symbol dep = dmc_sym /\ - max_amount <= amount dep <= max_amount.
Proof.
  unfold user_to_deposit. intros H. ok_steps H.
  apply asset_Ok in H as [-> ?]. auto.
Qed.

Lemma max_amount_lt : max_amount < 2 ^ 62.
Proof. unfold max_amount. lia. Qed.

(** C1 (amended): a successful [order] of [a] against the bill [ust]
    requires the payment [user_to_pay] (the ceiling of price times
    amount) and the deposit [user_to_deposit] (the payment times the
    bill's integer deposit ratio, through [std::round]), succeeds only
    with a pledge of at least their sum, debits the pledge from the
    buyer, and moves [a] from the bill's unmatched to its matched
    amount. *)
Theorem order_escrow (hdr : header) (s s' : state) (owner miner_name : name)
    (bill_id : Z) (a reserve : extended_asset) (memo : string)
    (deposit_valid : Z) (i : nat) (ust : bill_record) :
  find_bill (bills_of s miner_name) bill_id = Some (i, ust) ->
  - max_amount <= amount (b_unmatched ust) <= max_amount ->
  - max_amount <= amount (b_matched ust) <= max_amount ->
  order hdr owner miner_name bill_id a reserve memo deposit_valid s = Ok s' ->
  exists pay dep ust',
    user_to_pay ust a = Ok pay /\
    user_to_deposit pay ust = Ok dep /\
    amount pay + amount dep <= amount reserve /\
    balance s' owner (symbol reserve)
    = balance s owner (symbol reserve) - amount reserve /\
    bills_of s' miner_name = <[i := ust']> (bills_of s miner_name) /\
    amount a <= amount (b_unmatched ust) /\
    amount (b_unmatched ust') = amount (b_unmatched ust) - amount a /\
    amount (b_matched ust') = amount (b_matched ust) + amount a.
Proof.
  intros Hfind Hu Hm H. pose proof max_amount_lt as Hmax.
  apply order_Ok in H
    as (i0 & ust0 & pay & dep & fp & s1 & t & s2 & u' & m' & mk & lv & ld
        & red & p0 & p1 & Hfind0 & Hle & Hpos & Hpay & Hdep & Hfp & Hcov
        & Hsub & Hbonus & Hu' & Hm' & _ & _ & _ & _ & _ & _ & ->).
  rewrite Hfind in Hfind0. injection Hfind0 as <- <-.
  apply asset_le_Ok in Hle as [_ Hle]. symmetry in Hle. apply Z.leb_le in Hle.
  destruct (user_to_pay_Ok _ _ _ Hpay) as [_ Hpayr].
  destruct (user_to_deposit_Ok _ _ _ Hdep) as [_ Hdepr].
  apply asset_add_amount in Hfp as (Hfp & _ & _); [| lia].
  apply asset_le_Ok in Hcov as [_ Hcov]. symmetry in Hcov.
  apply Z.leb_le in Hcov.
  apply asset_sub_amount in Hu' as (Hu' & _ & _); [| lia].
  apply asset_add_amount in Hm' as (Hm' & _ & _); [| lia].
  apply sub_balance_Ok in Hsub as [_ ->].
  apply calbonus_Ok in Hbonus as (_ & _ & _ & _ & Hbills & _ & _ & Hacc & _).
  exists pay, dep,
    (with_updated_at (uint32 t) (with_matched m' (with_unmatched u' ust))).
  split; [assumption |]. split; [assumption |].
  split; [lia |].
  split.
  { unfold balance at 1, trace_price_history. cbn. rewrite Hacc. cbn.
    rewrite lookup_insert_eq. reflexivity. }
  split.
  { unfold bills_of at 1, trace_price_history. cbn.
    rewrite lookup_insert_eq. unfold bills_of. rewrite Hbills. reflexivity. }
  cbn. auto.
Qed.

(** C5 (amended): a successful [order] leaves the seller's stake as the
    bill's bonus accrual left it, which is the stake before the call or
    that stake plus a positive reward; nothing is debited for the locked
    collateral.  The stored rate is [cal_current_rate] of that stake
    less [miner_lock_dmc], the payment times the rate recomputed from
    that stake. *)
Theorem order_keeps_stake (hdr : header) (s s' : state)
    (owner miner_name : name) (bill_id : Z) (a reserve : extended_asset)
    (memo : string) (deposit_valid : Z) (i : nat) (ust : bill_record) :
  find_bill (bills_of s miner_name) bill_id = Some (i, ust) ->
  order hdr owner miner_name bill_id a reserve memo deposit_valid s = Ok s' ->
  exists m0 m' pay lock_v reduced,
    makers s !! miner_name = Some m0 /\
    makers s' !! miner_name = Some m' /\
    (total_staked m' = total_staked m0
     \/ exists bonus,
          0 < amount bonus /\
          asset_add (total_staked m0) bonus = Ok (total_staked m')) /\
    user_to_pay ust a = Ok pay /\
    to_int64 (of_Z (amount pay)
              * cal_current_rate hdr s (total_staked m') miner_name)%float
    = Ok lock_v /\
    asset_sub (total_staked m') (mk_asset lock_v dmc_sym) = Ok reduced /\
    current_rate m' = cal_current_rate hdr s reduced miner_name /\
    total_weight m' = total_weight m0 /\
    miner_rate m' = miner_rate m0.
Proof.
  intros Hfind H.
  apply order_Ok in H
    as (i0 & ust0 & pay & dep & fp & s1 & t & s2 & u' & m' & mk & lv & ld
        & red & p0 & p1 & Hfind0 & _ & _ & Hpay & _ & _ & _
        & Hsub & Hbonus & _ & _ & Hmk & Hlv & Hld & Hred & _ & _ & ->).
  rewrite Hfind in Hfind0. injection Hfind0 as <- <-.
  destruct (user_to_pay_Ok _ _ _ Hpay) as [Hsym _].
  rewrite Hsym in Hld. apply asset_Ok in Hld as [-> _].
  apply sub_balance_Ok in Hsub as [_ ->].
  pose proof Hbonus as Hframe.
  apply calbonus_Ok in Hframe as (_ & _ & _ & _ & _ & _ & _ & _ & Hpst & _).
  apply calbonus_makers in Hbonus as (m0 & Hm0 & Hstake).
  cbn in Hm0, Hpst.
  assert (forall x, cal_current_rate hdr s2 x miner_name
                    = cal_current_rate hdr s x miner_name) as Hrate
    by (intros x; apply cal_current_rate_pststats; exact Hpst).
  exists m0, (with_rate (cal_current_rate hdr s red miner_name) mk), pay, lv, red.
  split; [exact Hm0 |].
  split.
  { unfold trace_price_history. cbn. rewrite lookup_insert_eq.
    do 2 f_equal. apply cal_current_rate_pststats. exact Hpst. }
  rewrite Hrate in Hlv.
  assert (total_weight mk = total_weight m0 /\ miner_rate mk = miner_rate m0
          /\ (total_staked mk = total_staked m0
              \/ exists bonus, 0 < amount bonus
                   /\ asset_add (total_staked m0) bonus = Ok (total_staked mk)))
    as (Hw & Hr & Hs).
  { destruct Hstake as [Hsame | (bonus & st' & Hpos & Hadd & Hnew)].
    - rewrite Hsame in Hmk. cbn in Hmk. rewrite Hm0 in Hmk.
      injection Hmk as <-. auto.
    - rewrite Hnew in Hmk. cbn in Hmk. rewrite lookup_insert_eq in Hmk.
      injection Hmk as <-. cbn. eauto 10. }
  cbn. auto 10.
Qed.

(** bob's order of 100 PST against alice's bill at 2.5 DMC, deposit
    ratio 1, with a pledge of 600 DMC. *)
Lemma order_escrow_witness :
  exists pay dep ust',
    user_to_pay bill_row (mk_asset 100 pst_sym) = Ok pay /\
    user_to_deposit pay bill_row = Ok dep /\
    amount pay + amount dep <= 600 /\
    balance ordered bob dmc_sym = balance billed bob dmc_sym - 600 /\
    bills_of ordered alice = <[0%nat := ust']> (bills_of billed alice) /\
    100 <= amount (b_unmatched bill_row) /\
    amount (b_unmatched ust') = amount (b_unmatched bill_row) - 100 /\
    amount (b_matched ust') = amount (b_matched bill_row) + 100.
Proof.
  apply (order_escrow sample_header billed ordered bob alice bill_1
           (mk_asset 100 pst_sym) (mk_asset 600 dmc_sym) ""
           (now billed + week) 0%nat bill_row);
    [ vm_compute; reflexivity
    | vm_compute; split; discriminate
    | vm_compute; split; discriminate
    | vm_compute; reflexivity ].
Defined.

(** The amounts of that order: payment 250, deposit 250, escrow 500. *)
Lemma order_escrow_amounts :
  user_to_pay bill_row (mk_asset 100 pst_sym) = Ok (mk_asset 250 dmc_sym) /\
  user_to_deposit (mk_asset 250 dmc_sym) bill_row = Ok (mk_asset 250 dmc_sym) /\
  asset_add (mk_asset 250 dmc_sym) (mk_asset 250 dmc_sym)
  = Ok (mk_asset 500 dmc_sym).
Proof. split_and!; vm_compute; reflexivity. Qed.

(** The order placed a hundred seconds after the bill: the accrual
    inside [order] has raised alice's stake from 10000 to 210000. *)
Lemma order_keeps_stake_witness :
  exists m0 m' pay lock_v reduced,
    makers later !! alice = Some m0 /\
    makers (after (order sample_header bob alice bill_1 (mk_asset 100 pst_sym)
                     (mk_asset 600 dmc_sym) "" (now later + week) later) later)
      !! alice = Some m' /\
    (total_staked m' = total_staked m0
     \/ exists bonus,
          0 < amount bonus /\
          asset_add (total_staked m0) bonus = Ok (total_staked m')) /\
    user_to_pay bill_row (mk_asset 100 pst_sym) = Ok pay /\
    to_int64 (of_Z (amount pay)
              * cal_current_rate sample_header later (total_staked m') alice)%float
    = Ok lock_v /\
    asset_sub (total_staked m') (mk_asset lock_v dmc_sym) = Ok reduced /\
    current_rate m' = cal_current_rate sample_header later reduced alice /\
    total_weight m' = total_weight m0 /\
    miner_rate m' = miner_rate m0.
Proof.
  apply (order_keeps_stake sample_header later _ bob alice bill_1
           (mk_asset 100 pst_sym) (mk_asset 600 dmc_sym) ""
           (now later + week) 0%nat bill_row);
    vm_compute; reflexivity.
Defined.

(** C5 as stated fails: [order] runs the bill's bonus accrual first, and
    that raises the seller's [total_staked]. *)
Lemma order_accrual_raises_stake :
  exists s',
    order sample_header bob alice bill_1 (mk_asset 100 pst_sym)
      (mk_asset 600 dmc_sym) "" (now later + week) later = Ok s' /\
    staked_of later alice = 10000 /\
    staked_of s' alice = 210000.
Proof.
  exists (after (order sample_header bob alice bill_1 (mk_asset 100 pst_sym)
                   (mk_asset 600 dmc_sym) "" (now later + week) later) later).
  split_and!; vm_compute; reflexivity.
Qed.

(** ** Stake pool *)

Lemma pool_of_set_pools (f : gmap name (gmap name float)) (s : state)
    (maker_name : name) (p : gmap name float) :
  pool_of (set_pools (<[maker_name := p]> f) s) maker_name = p.
Proof. unfold pool_of. cbn. rewrite lookup_insert_eq. reflexivity. Qed.

(** A full redemption: the depositor's row is erased; the maker row is
    erased too when the payout is the whole stake, and otherwise keeps a
    total weight that is the last remaining depositor's weight, or the
    old total less the erased weight when more than one remains. *)
Lemma redemption_full_Ok (hdr : header) (s s' : state) (owner maker_name : name) :
  redemption hdr owner 1 maker_name s = Ok s' ->
  exists iter w,
    makers s !! maker_name = Some iter /\
    pool_of s maker_name !! owner = Some w /\
    pool_of s' maker_name = delete owner (pool_of s maker_name) /\
    (makers s' !! maker_name = None
     \/ exists m',
          makers s' !! maker_name = Some m' /\
          amount (total_staked m') <> 0 /\
          total_weight m'
          = match pool_after_erase (delete owner (pool_of s maker_name)) with
            | pool_single w' => w'
            | _ => (total_weight iter - w * 1)%float
            end).
Proof.
  unfold redemption. intros H.
  change (feq 1 1) with true in H.
  change (flt 0 1 && fle 1 1) with true in H.
  cbv iota in H.
  destruct (has_auth owner s); [| discriminate H].
  destruct (makers s !! maker_name) as [iter|]; [| discriminate H].
  destruct (pool_of s maker_name !! owner) as [w|]; [| discriminate H].
  cbn [bind get] in H.
  exists iter, w. split; [reflexivity |]. split; [reflexivity |].
  destruct (pool_after_erase (delete owner (pool_of s maker_name)));
    ok_all;
    (split; [unfold pool_of at 1; cbn; rewrite lookup_insert_eq; reflexivity |]);
    cbn [makers set_makers];
    first
      [ left; apply lookup_delete_eq
      | right; rewrite lookup_insert_eq; eexists; split; [reflexivity |];
        cbn; split; [apply Z.eqb_neq; assumption | reflexivity] ].
Qed.
Lemma pool_single_singleton (p : gmap name float) (w : float) :
  pool_after_erase p = pool_single w -> exists k, p = {[k := w]}.
Proof.
  unfold pool_after_erase. intros H.
  destruct (map_to_list p) as [|[k v] [|? ?]] eqn:Hl; try discriminate H.
  injection H as ->. exists k.
  rewrite <- (list_to_map_to_list p), Hl. reflexivity.
Qed.

(** A partial redemption takes [p_weight * rate] off the depositor's
    row and off the total weight. *)
Lemma redemption_partial_Ok (hdr : header) (s s' : state)
    (owner maker_name : name) (rate : float) :
  feq rate 1 = false ->
  redemption hdr owner rate maker_name s = Ok s' ->
  exists iter w,
    makers s !! maker_name = Some iter /\
    pool_of s maker_name !! owner = Some w /\
    pool_of s' maker_name
    = <[owner := (w - w * rate)%float]> (pool_of s maker_name) /\
    (makers s' !! maker_name = None
     \/ exists m',
          makers s' !! maker_name = Some m' /\
          total_weight m' = (total_weight iter - w * rate)%float).
Proof.
  unfold redemption. intros Hrate H. rewrite Hrate in H.
  destruct (has_auth owner s); [| discriminate H].
  destruct (flt 0 rate && fle rate 1); [| discriminate H].
  destruct (makers s !! maker_name) as [iter|]; [| discriminate H].
  destruct (pool_of s maker_name !! owner) as [w|]; [| discriminate H].
  cbn [bind get] in H.
  exists iter, w. split; [reflexivity |]. split; [reflexivity |].
  ok_all;
    (split; [unfold pool_of at 1; cbn; rewrite lookup_insert_eq; reflexivity |]);
    cbn [makers set_makers];
    first
      [ left; apply lookup_delete_eq
      | right; rewrite lookup_insert_eq; eexists; split; reflexivity ].
Qed.

(** An increase into an existing pool adds [new_weight] to the
    depositor's row and to the total weight. *)
Lemma increase_Ok (hdr : header) (s s' : state) (owner maker_name : name)
    (a : extended_asset) (iter : maker) :
  makers s !! maker_name = Some iter ->
  increase hdr owner a maker_name s = Ok s' ->
  let new_weight :=
    (of_Z (amount a) / of_Z (amount (total_staked iter)) * total_weight iter)%float in
  pool_of s' maker_name
  = <[owner := match pool_of s maker_name !! owner with
               | Some w => (w + new_weight)%float
               | None => new_weight
               end]> (pool_of s maker_name) /\
  exists m',
    makers s' !! maker_name = Some m' /\
    total_weight m' = (total_weight iter + new_weight)%float.
Proof.
  unfold increase. intros Hmaker H.
  destruct (has_auth owner s); [| discriminate H].
  destruct (bool_decide (symbol a = dmc_sym)); [| discriminate H].
  destruct (0 <? amount a); [| discriminate H].
  destruct (sub_balance owner a s) as [s1|] eqn:Hsub; [| discriminate H].
  apply sub_balance_Ok in Hsub as [_ ->].
  cbn [bind makers set_accounts] in H. rewrite Hmaker in H.
  change (pool_of (set_accounts _ s) maker_name) with (pool_of s maker_name) in H.
  ok_all.
  split.
  - rewrite pool_of_set_pools.
    destruct (pool_of s maker_name !! owner); reflexivity.
  - cbn. rewrite lookup_insert_eq. eexists. split; reflexivity.
Qed.

(** C2 (amended): for a maker that is there before and after a
    successful increase or redemption, the operation moves the caller's
    PoolShare and the total weight by one and the same double (each sum
    rounded on its own), touching no other share; a full redemption
    that leaves one depositor sets the total to that depositor's
    weight. *)
Theorem pool_weights_move_together (hdr : header) (op : pool_op)
    (owner maker_name : name) (s s' : state) (iter m' : maker) :
  run_pool_op hdr op owner maker_name s = Ok s' ->
  makers s !! maker_name = Some iter ->
  makers s' !! maker_name = Some m' ->
  weight_move (pool_of s maker_name) (pool_of s' maker_name)
    (total_weight iter) (total_weight m') owner.
Proof.
  intros Hop Hiter Hm'. destruct op as [a | rate]; cbn [run_pool_op] in Hop.
  - destruct (increase_Ok _ _ _ _ _ _ _ Hiter Hop) as (Hpool & m1 & Hm1 & Hw).
    rewrite Hm' in Hm1. injection Hm1 as <-.
    eapply move_in; eassumption.
  - destruct (feq rate 1) eqn:Hrate.
    + assert (rate = 1%float) as ->.
      { apply feq_one. exact Hrate. }
      apply redemption_full_Ok in Hop
        as (iter0 & w & Hiter0 & Hw & Hpool & [Hgone | (m1 & Hm1 & _ & Htw)]).
      { congruence. }
      rewrite Hiter in Hiter0. injection Hiter0 as <-.
      rewrite Hm' in Hm1. injection Hm1 as <-.
      destruct (pool_after_erase (delete owner (pool_of s maker_name)))
        eqn:Hrest.
      * eapply move_all; eassumption.
      * apply pool_single_singleton in Hrest as [k Hk].
        eapply move_last; [exact Hpool | rewrite Hpool; exact Hk | exact Htw].
      * eapply move_all; eassumption.
    + apply redemption_partial_Ok in Hop
        as (iter0 & w & Hiter0 & Hw & Hpool & [Hgone | (m1 & Hm1 & Htw)]);
        [congruence | | exact Hrate].
      rewrite Hiter in Hiter0. injection Hiter0 as <-.
      rewrite Hm' in Hm1. injection Hm1 as <-.
      eapply move_out; eassumption.
Qed.

(** bob joins alice's pool with 5000 units. *)
Lemma pool_weights_move_together_witness :
  weight_move (pool_of opened alice) (pool_of joined alice) 10000000 15000000
    bob.
Proof.
  apply (pool_weights_move_together sample_header
           (op_increase (mk_asset 5000 dmc_sym)) bob alice opened joined
           (mk_maker alice 18446744073709551616 0.2 10000000
              (mk_asset 10000 dmc_sym) 200 0)
           (mk_maker alice 18446744073709551616 0.2 15000000
              (mk_asset 15000 dmc_sym) 200 0));
    vm_compute; reflexivity.
Defined.

(** C2 as stated fails.  In [odd_pool] the one share is the total
    weight.  Six increases later the stake is the sum of what was paid
    in, and the exact sum of the three shares is more than two units in
    the last place above the total weight. *)
Lemma pool_weights_drift :
  weight_sum (pool_of odd_pool alice) = scaled (total_weight_of odd_pool alice) /\
  staked_of drifted alice = 12345 + 37 + 47 + 1000 + 17 + 23 + 3333 /\
  size (pool_of drifted alice) = 3%nat /\
  2 * scaled_ulp (total_weight_of drifted alice)
  < weight_sum (pool_of drifted alice) - scaled (total_weight_of drifted alice).
Proof. split_and!; vm_compute; reflexivity. Qed.

(** ** Full redemption from a pool of two *)

(** C6 (amended): in a pool of exactly two depositors, a successful
    full redemption by one erases that depositor's PoolShare, and the
    maker row, when the call leaves one (the payout was not the whole
    stake), has the remaining depositor's weight as its total weight. *)
Theorem redemption_full_two_depositors (hdr : header) (s s' : state)
    (owner other maker_name : name) (w_owner w_other : float) :
  owner <> other ->
  pool_of s maker_name = <[owner := w_owner]> {[other := w_other]} ->
  redemption hdr owner 1 maker_name s = Ok s' ->
  pool_of s' maker_name = {[other := w_other]} /\
  (makers s' !! maker_name = None
   \/ exists m',
        makers s' !! maker_name = Some m' /\
        amount (total_staked m') <> 0 /\
        total_weight m' = w_other).
Proof.
  intros Hne Hpool H.
  apply redemption_full_Ok in H as (iter & w & _ & _ & Hpool' & Hmaker).
  assert (delete owner (pool_of s maker_name) = {[other := w_other]}) as Hrest.
  { rewrite Hpool, delete_insert_eq. apply delete_id.
    apply lookup_singleton_ne. congruence. }
  rewrite Hrest in Hpool', Hmaker.
  split; [exact Hpool' |].
  unfold pool_after_erase in Hmaker.
  rewrite map_to_list_singleton in Hmaker. exact Hmaker.
Qed.

(** bob leaves the pool he shares with alice. *)
Lemma redemption_full_two_depositors_witness :
  pool_of bob_left alice = {[alice := 10000000%float]} /\
  (makers bob_left !! alice = None
   \/ exists m',
        makers bob_left !! alice = Some m' /\
        amount (total_staked m') <> 0 /\
        total_weight m' = 10000000%float).
Proof.
  apply (redemption_full_two_depositors sample_header joined bob_left bob alice
           alice 5000000 10000000);
    [ discriminate | vm_compute; reflexivity | vm_compute; reflexivity ].
Defined.

(** C6 as stated fails.  In [lopsided] alice's weight is the total
    weight as a double, bob's being below its rounding unit.  alice's
    full redemption is paid the whole stake, bob's 16 units with it, and
    erases the maker row: bob's PoolShare is left without a maker. *)
Lemma redemption_full_tears_down :
  pool_of lopsided alice
  = <[alice := total_weight_of lopsided alice]> {[bob := 10000000%float]} /\
  staked_of lopsided alice = 2 ^ 59 /\
  redemption sample_header alice 1 alice lopsided = Ok alice_left /\
  makers alice_left !! alice = None /\
  pool_of alice_left alice = {[bob := 10000000%float]} /\
  l_asset <$> locked alice_left = [mk_asset (2 ^ 59) dmc_sym].
Proof. split_and!; vm_compute; reflexivity. Qed.

(** ** Liquidation *)

Lemma same_rates_refl (s : state) : same_rates s s.
Proof. unfold same_rates. auto. Qed.

Lemma same_rates_trans (s1 s2 s3 : state) :
  same_rates s1 s2 -> same_rates s2 s3 -> same_rates s1 s3.
Proof. unfold same_rates. intros (-> & -> & ->) (-> & -> & ->). auto. Qed.

Lemma insert_byrate_perm (m : maker) (idx : list maker) :
  insert_byrate m idx ≡ₚ m :: idx.
Proof.
  induction idx as [|q idx IH]; cbn; [reflexivity |].
  destruct (rate_before m q); [reflexivity |].
  rewrite IH. apply Permutation_swap.
Qed.

Lemma byrate_perm (tbl : gmap name maker) :
  byrate tbl ≡ₚ (map_to_list tbl).*2.
Proof.
  unfold byrate. induction ((map_to_list tbl).*2) as [|m l IH]; cbn;
    [reflexivity |].
  rewrite insert_byrate_perm, IH. reflexivity.
Qed.

(** The index holds each row of the table once. *)
Lemma byrate_rows (s : state) :
  makers_keyed s ->
  NoDup (miner <$> byrate (makers s))
  /\ forall m, m ∈ byrate (makers s) -> makers s !! miner m = Some m.
Proof.
  intros Hkeyed.
  assert (forall km, km ∈ map_to_list (makers s) -> miner km.2 = km.1) as Hrow.
  { intros [k m] Hin. apply elem_of_map_to_list in Hin. cbn.
    apply Hkeyed. exact Hin. }
  split.
  - rewrite byrate_perm.
    replace (miner <$> (map_to_list (makers s)).*2)
      with ((map_to_list (makers s)).*1);
      [apply NoDup_fst_map_to_list |].
    rewrite <- list_fmap_compose. apply list_fmap_ext.
    intros i km Hin. symmetry. apply Hrow.
    apply list_elem_of_lookup. eauto.
  - intros m Hin. rewrite byrate_perm in Hin.
    apply list_elem_of_fmap in Hin as ([k m'] & -> & Hin).
    pose proof (Hrow _ Hin) as Hk. cbn in *. rewrite Hk.
    apply elem_of_map_to_list. exact Hin.
Qed.

Lemma calbonus_frame (hdr : header) (s s1 : state) (owner : name) (bill_id : Z)
    (payer : name) (t : Z) :
  calbonus hdr owner bill_id payer s = Ok (t, s1) ->
  bills s1 = bills s /\ accounts s1 = accounts s /\ authority s1 = authority s
  /\ orders s1 = orders s /\ challenges s1 = challenges s
  /\ pools s1 = pools s /\ locked s1 = locked s /\ now s1 = now s.
Proof.
  unfold calbonus. intros H. ok_steps H.
  repeat first
    [ ok_step H
    | match type of H with
      | (if ?c then _ else _) = Ok _ => destruct c eqn:?
      end ];
    injection H as <- <-; auto 10.
Qed.


Lemma calbonus_same_rates (hdr : header) (s s1 : state) (owner : name)
    (bill_id : Z) (payer : name) (t : Z) :
  calbonus hdr owner bill_id payer s = Ok (t, s1) ->
  same_rates s s1 /\ bills s1 = bills s.
Proof.
  intros H.
  apply calbonus_Ok in H as (_ & _ & _ & _ & Hb & _ & Hc & _ & Hp & Ha).
  unfold same_rates. auto.
Qed.

Lemma asset_sub_range (a b c : extended_asset) :
  asset_sub a b = Ok c -> - max_amount <= amount c <= max_amount.
Proof.
  unfold asset_sub. intros H. ok_all. cbn.
  repeat match goal with
         | E' : (_ <=? _) = true |- _ => apply Z.leb_le in E'
         end.
  lia.
Qed.

Lemma penalty_of_config (hdr : header) (s s' : state) (f : float)
    (a : extended_asset) :
  config s' = config s -> penalty_of hdr s' f a = penalty_of hdr s f a.
Proof. unfold penalty_of, get_dmc_config. intros ->. reflexivity. Qed.

Lemma liq_target_range (f : float) (minted target : extended_asset) :
  liq_target f minted = Ok target ->
  - max_amount <= amount target <= max_amount.
Proof.
  unfold liq_target, get_asset_by_amount. intros H. ok_steps H.
  apply asset_Ok in H as [-> ?]. assumption.
Qed.

Lemma cal_current_rate_lookup (hdr : header) (s s' : state)
    (a : extended_asset) (owner : name) :
  pststats s' !! owner = pststats s !! owner ->
  cal_current_rate hdr s' a owner = cal_current_rate hdr s a owner.
Proof. unfold cal_current_rate. intros ->. reflexivity. Qed.

Lemma asset_sub_self (a c : extended_asset) :
  asset_sub a a = Ok c -> amount c = 0.
Proof.
  unfold asset_sub. intros H. ok_steps H. injection H as <-. cbn.
  rewrite Z.sub_diag. reflexivity.
Qed.

(** What one accrual inside the drain leaves alone. *)
Lemma calbonus_drain_frame (hdr : header) (s s1 : state) (owner : name)
    (bill_id : Z) (payer : name) (t : Z) :
  calbonus hdr owner bill_id payer s = Ok (t, s1) ->
  same_rates s s1 /\ bills s1 = bills s /\ accounts s1 = accounts s.
Proof.
  intros H.
  pose proof (calbonus_same_rates _ _ _ _ _ _ _ H) as [Hrates Hbills].
  apply calbonus_frame in H as (_ & Hacc & _). auto.
Qed.

Lemma drained_only_set_bills (scope : name) (rows : list bill_record)
    (s s1 : state) :
  same_rates s s1 -> accounts s1 = accounts s -> bills s1 = bills s ->
  drained_only scope s (set_bills (<[scope := rows]> (bills s1)) s1).
Proof.
  intros (Hp & Hc & Ha) Hacc Hbills. split; [| split].
  - unfold same_rates. cbn. auto.
  - intros key _. cbn. rewrite Hacc. reflexivity.
  - intros other Hother. unfold bills_of. cbn.
    rewrite lookup_insert_ne by congruence. rewrite Hbills. reflexivity.
Qed.

(** *** The two drains *)

Lemma drained_only_refl (owner : name) (s : state) : drained_only owner s s.
Proof. split; [apply same_rates_refl | auto]. Qed.

Lemma drained_only_trans (owner : name) (s1 s2 s3 : state) :
  drained_only owner s1 s2 -> drained_only owner s2 s3 ->
  drained_only owner s1 s3.
Proof.
  intros (Hr1 & Ha1 & Hb1) (Hr2 & Ha2 & Hb2).
  split; [eapply same_rates_trans; eassumption |].
  split.
  - intros key Hkey. rewrite Ha2, Ha1 by exact Hkey. reflexivity.
  - intros other Hother. rewrite Hb2, Hb1 by exact Hother. reflexivity.
Qed.

(** The drain of the balance takes [from_balance] off the balance and
    off what is left to drain. *)
Lemma drain_balance_exact (owner : name) (leftover l' : extended_asset)
    (s s' : state) :
  drain_balance owner leftover s = Ok (l', s') ->
  - max_amount <= amount leftover <= max_amount ->
  amount l' = amount leftover - from_balance s owner (amount leftover)
  /\ symbol l' = symbol leftover
  /\ balance s' owner pst_sym
     = balance s owner pst_sym - from_balance s owner (amount leftover)
  /\ bills s' = bills s
  /\ drained_only owner s s'.
Proof.
  unfold drain_balance, from_balance, balance. intros H Hrange.
  pose proof max_amount_lt as Hmax.
  destruct (accounts s !! (owner, pst_sym)) as [bal|] eqn:Hbal.
  - ok_steps H. injection H as <- <-.
    match goal with
    | E : asset _ _ = Ok _ |- _ => apply asset_Ok in E as [-> Hsub]
    end.
    match goal with
    | E : sub_balance _ _ _ = Ok _ |- _ => apply sub_balance_Ok in E as [_ ->]
    end.
    match goal with
    | E : asset_sub _ _ = Ok _ |- _ =>
        apply asset_sub_amount in E as (Hrest & _ & _); [| cbn; lia]
    end.
    cbn in Hrest. cbn [amount symbol accounts set_accounts bills].
    unfold balance. rewrite lookup_insert_eq, Hbal. cbn [default].
    split; [lia |]. split; [reflexivity |]. split; [reflexivity |].
    split; [reflexivity |].
    split; [unfold same_rates; cbn; auto |].
    split.
    + intros key Hkey. cbn. apply lookup_insert_ne. congruence.
    + intros other _. reflexivity.
  - injection H as <- <-. rewrite Hbal. cbn [default].
    split; [lia |]. split; [reflexivity |]. split; [lia |].
    split; [reflexivity |]. apply drained_only_refl.
Qed.

Lemma drain_balance_range (owner : name) (leftover l' : extended_asset)
    (s s' : state) :
  drain_balance owner leftover s = Ok (l', s') ->
  - max_amount <= amount leftover <= max_amount ->
  - max_amount <= amount l' <= max_amount.
Proof.
  unfold drain_balance. intros H Hrange.
  pose proof max_amount_lt as Hmax.
  destruct (accounts s !! (owner, pst_sym)) as [bal|].
  - ok_steps H. injection H as <- <-.
    match goal with
    | E : asset_sub _ _ = Ok _ |- _ => apply asset_sub_range in E
    end.
    cbn [amount]. lia.
  - injection H as <- <-. exact Hrange.
Qed.

Lemma unmatched_left_done (us : list Z) : unmatched_left us 0 = us.
Proof. destruct us; reflexivity. Qed.

Lemma bills_leftover_done (us : list Z) : bills_leftover us 0 = 0.
Proof. destruct us; reflexivity. Qed.

(** The drain of the bills: what is left to drain, and the unmatched
    amounts left in the table.  [done] are the rows before [bit]. *)
Lemma drain_bills_exact (hdr : header) (rows : list bill_record) :
  forall (i : nat) (scope : name) (leftover l' : extended_asset) (s s' : state)
         (done : list bill_record),
    drain_bills hdr rows i scope leftover s = Ok (l', s') ->
    bills_of s scope = done ++ rows ->
    length done = i ->
    Forall bill_sound rows ->
    amount leftover <= max_amount ->
    amount l' = bills_leftover (unmatched_of rows) (amount leftover)
    /\ unmatched_of (bills_of s' scope)
       = unmatched_of done
         ++ unmatched_left (unmatched_of rows) (amount leftover)
    /\ accounts s' = accounts s
    /\ drained_only scope s s'.
Proof.
  pose proof max_amount_lt as Hmax.
  induction rows as [|bit rest IH];
    intros i scope leftover l' s s' done H Htable Hlen Hsound Hrange;
    cbn [drain_bills] in H.
  { injection H as <- <-. rewrite Htable. cbn. rewrite !app_nil_r.
    split; [reflexivity |]. split; [reflexivity |].
    split; [reflexivity | apply drained_only_refl]. }
  apply Forall_cons in Hsound as [Hbit Hsound]. unfold bill_sound in Hbit.
  change (unmatched_of (bit :: rest))
    with (amount (b_unmatched bit) :: unmatched_of rest).
  cbn [bills_leftover unmatched_left].
  destruct (0 <? amount leftover) eqn:Hpos.
  2: { injection H as <- <-. rewrite Htable.
       split; [reflexivity |].
       split; [unfold unmatched_of; rewrite fmap_app; reflexivity |].
       split; [reflexivity | apply drained_only_refl]. }
  apply Z.ltb_lt in Hpos.
  destruct (asset_le (b_unmatched bit) leftover) as [whole|] eqn:Hwhole;
    [| discriminate H].
  apply asset_le_Ok in Hwhole as [Hsym ->].
  cbn [bind] in H.
  destruct (amount (b_unmatched bit) <=? amount leftover) eqn:Hle.
  - (* the bill is drained whole and erased *)
    apply Z.leb_le in Hle.
    destruct (asset_sub leftover (b_unmatched bit)) as [l|] eqn:Hl;
      [| discriminate H].
    apply asset_sub_amount in Hl as (Hl & Hlsym & _); [| lia].
    cbn [bind] in H.
    destruct (calbonus hdr (b_owner bit) (b_bill_id bit) (self hdr) s)
      as [[now_time_t s1]|] eqn:Hbonus; [| discriminate H].
    apply calbonus_drain_frame in Hbonus as (Hrates & Hbills & Hacc).
    cbn [bind] in H.
    destruct (asset_sub (b_unmatched bit) (b_unmatched bit)) as [u|] eqn:Hu;
      [| discriminate H].
    apply asset_sub_self in Hu. cbn [bind] in H. rewrite Hu in H.
    change (0 =? 0) with true in H. cbv iota in H.
    assert (bills_of s1 scope = done ++ bit :: rest) as Htable1
      by (unfold bills_of; rewrite Hbills; exact Htable).
    rewrite Htable1 in H.
    rewrite <- Hlen, delete_middle in H.
    apply IH with (done := done) in H as (Hleft & Hrows & Hacc' & Honly);
      [| apply bills_of_set_bills | reflexivity | exact Hsound | lia].
    rewrite Hl in Hleft, Hrows.
    split; [exact Hleft |]. split; [exact Hrows |].
    split; [cbn in Hacc'; congruence |].
    eapply drained_only_trans; [| exact Honly].
    apply drained_only_set_bills; assumption.
  - (* the bill covers what is left *)
    apply Z.leb_gt in Hle.
    cbn [bind] in H.
    destruct (calbonus hdr (b_owner bit) (b_bill_id bit) (self hdr) s)
      as [[now_time_t s1]|] eqn:Hbonus; [| discriminate H].
    apply calbonus_drain_frame in Hbonus as (Hrates & Hbills & Hacc).
    cbn [bind] in H.
    destruct (asset_sub (b_unmatched bit) leftover) as [u|] eqn:Hu;
      [| discriminate H].
    apply asset_sub_amount in Hu as (Hu & _ & _); [| lia].
    cbn [bind] in H.
    assert ((amount u =? 0) = false) as Hnz by (apply Z.eqb_neq; lia).
    rewrite Hnz in H.
    assert (bills_of s1 scope = done ++ bit :: rest) as Htable1
      by (unfold bills_of; rewrite Hbills; exact Htable).
    rewrite Htable1 in H.
    set (bit' := with_updated_at (uint32 now_time_t) (with_unmatched u bit)) in H.
    rewrite <- Hlen in H.
    rewrite insert_app_r_alt in H by lia.
    rewrite Nat.sub_diag in H. cbn [insert list_insert] in H.
    apply IH with (done := done ++ [bit']) in H
      as (Hleft & Hrows & Hacc' & Honly);
      [| rewrite bills_of_set_bills, <- app_assoc; reflexivity
       | rewrite length_app; cbn; lia | exact Hsound | cbn; lia].
    cbn [amount] in Hleft, Hrows.
    rewrite bills_leftover_done in Hleft.
    rewrite unmatched_left_done in Hrows.
    split; [exact Hleft |].
    split.
    { rewrite Hrows. unfold unmatched_of. rewrite fmap_app, <- app_assoc.
      cbn. rewrite Hu. reflexivity. }
    split; [cbn in Hacc'; congruence |].
    eapply drained_only_trans; [| exact Honly].
    apply drained_only_set_bills; assumption.
Qed.

(** *** The scan against the plan *)

Lemma bills_leftover_range (us : list Z) :
  forall leftover,
    Forall (fun u => 0 <= u) us ->
    Z.min leftover 0 <= bills_leftover us leftover <= Z.max leftover 0.
Proof.
  induction us as [|u rest IH]; intros leftover Hus; cbn [bills_leftover];
    [lia |].
  apply Forall_cons in Hus as [Hu Hus].
  destruct (0 <? leftover) eqn:Hpos; [| lia].
  apply Z.ltb_lt in Hpos.
  destruct (u <=? leftover) eqn:Hle; [| lia].
  apply Z.leb_le in Hle. specialize (IH (leftover - u) Hus). lia.
Qed.

Lemma unmatched_sound (rows : list bill_record) :
  Forall bill_sound rows -> Forall (fun u => 0 <= u) (unmatched_of rows).
Proof.
  unfold unmatched_of. intros H. apply Forall_fmap.
  eapply Forall_impl; [exact H |]. intros b [Hb _]. exact Hb.
Qed.

(** The makers of a plan are the first rows of the index. *)
Lemma sweep_plan_prefix (hdr : header) (s : state) (idx : list maker) :
  forall (queued : nat) (sweeps : list sweep),
    sweep_plan hdr s idx queued = Ok sweeps ->
    exists rest, idx = (sw_maker <$> sweeps) ++ rest.
Proof.
  induction idx as [|m rest IH]; intros queued sweeps H; cbn [sweep_plan] in H.
  { injection H as <-. exists []. reflexivity. }
  destruct (_ && _); [| injection H as <-; exists (m :: rest); reflexivity].
  destruct (sweep_of hdr s m) as [sw|] eqn:Hsw; [| discriminate H].
  cbn [bind] in H.
  destruct (sweep_plan hdr s rest _) as [more|] eqn:Hmore; [| discriminate H].
  injection H as <-. apply IH in Hmore as [rest' ->].
  exists rest'. cbn. f_equal.
  unfold sweep_of in Hsw. ok_steps Hsw. injection Hsw as <-. reflexivity.
Qed.

Lemma sweep_plan_owners (hdr : header) (s : state) (idx : list maker)
    (queued : nat) (sweeps : list sweep) :
  sweep_plan hdr s idx queued = Ok sweeps ->
  forall sw, sw ∈ sweeps -> sw_owner sw ∈ miner <$> idx.
Proof.
  intros H sw Hsw. apply sweep_plan_prefix in H as [rest ->].
  rewrite fmap_app. apply elem_of_app. left.
  rewrite <- list_fmap_compose. apply list_elem_of_fmap.
  exists sw. split; [reflexivity | exact Hsw].
Qed.

(** The plan of a maker reads the rates, the maker's PST balance and
    the maker's bills. *)
Lemma sweep_of_ext (hdr : header) (s c : state) (m : maker) :
  same_rates s c ->
  accounts c !! (miner m, pst_sym) = accounts s !! (miner m, pst_sym) ->
  bills_of c (miner m) = bills_of s (miner m) ->
  sweep_of hdr c m = sweep_of hdr s m.
Proof.
  intros (Hp & Hc & Ha) Hacc Hbills. unfold sweep_of.
  rewrite !(get_dmc_rate_prices hdr s c) by assumption.
  rewrite (penalty_of_config hdr s c) by assumption.
  unfold minted_read, from_balance. rewrite Hp, Hacc, Hbills. reflexivity.
Qed.

Lemma sweep_plan_ext (hdr : header) (s c : state) (idx : list maker) :
  same_rates s c ->
  (forall m, m ∈ idx ->
     accounts c !! (miner m, pst_sym) = accounts s !! (miner m, pst_sym)
     /\ bills_of c (miner m) = bills_of s (miner m)) ->
  forall queued, sweep_plan hdr c idx queued = sweep_plan hdr s idx queued.
Proof.
  intros Hrates. induction idx as [|m rest IH]; intros Hagree queued;
    cbn [sweep_plan]; [reflexivity |].
  destruct (Hagree m) as [Hacc Hbills]; [apply list_elem_of_here |].
  destruct Hrates as (Hp & Hc & Ha).
  rewrite (get_dmc_rate_prices hdr s c) by assumption.
  rewrite (sweep_of_ext hdr s c m) by (unfold same_rates; auto).
  destruct (_ && _); [| reflexivity].
  destruct (sweep_of hdr s m) as [sw|]; [| reflexivity].
  cbn [bind]. rewrite IH; [reflexivity |].
  intros m' Hm'. apply Hagree. apply list_elem_of_further. exact Hm'.
Qed.

(** The scan carries out the plan made on the store it starts from:
    it queues what the plan queues, drains what the plan drains, and
    leaves the balances and bills of the other makers alone. *)
Lemma scan_plan (hdr : header) (idx : list maker) :
  forall (required required' : list liquidation_entry) (c c' : state),
    NoDup (miner <$> idx) ->
    (forall m, m ∈ idx -> Forall bill_sound (bills_of c (miner m))) ->
    scan hdr idx required c = Ok (required', c') ->
    exists sweeps,
      sweep_plan hdr c idx (length required) = Ok sweeps
      /\ required' = required ++ queue_of sweeps
      /\ same_rates c c'
      /\ Forall (sweep_drained c c') sweeps
      /\ (forall k, k ∉ sw_owner <$> sweeps ->
            accounts c' !! (k, pst_sym) = accounts c !! (k, pst_sym)
            /\ bills_of c' k = bills_of c k)
      /\ (forall key, key.2 <> pst_sym ->
            accounts c' !! key = accounts c !! key).
Proof.
  pose proof max_amount_lt as Hmax.
  induction idx as [|m rest IH]; intros required required' c c' Hnd Hsound H;
    cbn [scan] in H.
  { injection H as <- <-. exists []. cbn. rewrite app_nil_r.
    split_and!; auto using same_rates_refl. }
  cbn [sweep_plan].
  destruct (flt (current_rate m) (get_dmc_rate hdr c (get_n m))
            && (length required <? 20)%nat).
  2: { injection H as <- <-. exists []. cbn. rewrite app_nil_r.
       split_and!; auto using same_rates_refl. }
  cbn [fmap list_fmap] in Hnd. apply NoDup_cons in Hnd as [Hfresh Hnd].
  set (owner := miner m) in *.
  set (f := shortfall (current_rate m)
              (get_dmc_rate hdr c (benchmark_stake_rate m))) in *.
  cbn zeta in H.
  destruct (liq_target f (minted_read hdr c owner)) as [origin|] eqn:Horigin;
    [| discriminate H].
  pose proof (liq_target_range _ _ _ Horigin) as Horange.
  assert (symbol origin = pst_sym) as Hosym.
  { unfold liq_target, get_asset_by_amount in Horigin. ok_steps Horigin.
    apply asset_Ok in Horigin as [-> _]. reflexivity. }
  cbn [bind] in H.
  destruct (drain_balance owner origin c) as [[leftover1 s1]|] eqn:Hdrain1;
    [| discriminate H].
  pose proof (drain_balance_range _ _ _ _ _ Hdrain1 Horange) as Hl1max.
  apply drain_balance_exact in Hdrain1
    as (Hl1 & Hl1sym & Hbal1 & Hbills1 & Honly1); [| exact Horange].
  cbn [bind] in H.
  assert (bills_of s1 owner = bills_of c owner) as Hrows1
    by (unfold bills_of; rewrite Hbills1; reflexivity).
  assert (Forall bill_sound (bills_of c owner)) as Hsound0
    by (apply Hsound, list_elem_of_here).
  destruct (drain_bills hdr (bills_of s1 owner) 0 owner leftover1 s1)
    as [[leftover2 s2]|] eqn:Hdrain2; [| discriminate H].
  apply drain_bills_exact with (done := []) in Hdrain2
    as (Hl2 & Hrows2 & Hacc2 & Honly2);
    [| reflexivity | reflexivity | rewrite Hrows1; exact Hsound0 | ].
  2: exact (proj2 Hl1max).
  rewrite Hrows1 in Hl2, Hrows2. cbn [app unmatched_of fmap list_fmap] in Hrows2.
  pose proof (bills_leftover_range _ (amount leftover1)
                (unmatched_sound _ Hsound0)) as Hl2range.
  cbn [bind] in H.
  destruct (asset_sub origin leftover2) as [sub_pst_asset|] eqn:Hsub;
    [| discriminate H].
  apply asset_sub_amount in Hsub as (Hsub & Hsubsym & _); [| lia].
  cbn [bind] in H.
  pose proof (drained_only_trans _ _ _ _ Honly1 Honly2) as Honly.
  destruct Honly as (Hrates & Hothers & Hotherbills).
  destruct (penalty_of hdr s2 f (total_staked m)) as [penalty|] eqn:Hpen;
    [| discriminate H].
  rewrite (penalty_of_config hdr c s2) in Hpen by apply Hrates.
  cbn [bind] in H.
  (* the planned sweep of this maker *)
  set (sw := mk_sweep m origin (from_balance c owner (amount origin))
               (amount origin - from_balance c owner (amount origin)
                - bills_leftover (unmatched_of (bills_of c owner))
                    (amount origin - from_balance c owner (amount origin)))
               penalty).
  assert (sweep_of hdr c m = Ok sw) as Hsw.
  { unfold sweep_of. fold owner. fold f. rewrite Horigin. cbn [bind].
    rewrite Hpen. reflexivity. }
  assert (amount sub_pst_asset = sw_burned sw) as Hburned.
  { unfold sw_burned, sw. cbn. rewrite Hsub, Hl2, Hl1. lia. }
  assert (sub_pst_asset = mk_asset (sw_burned sw) pst_sym) as ->.
  { destruct sub_pst_asset as [v sym]. cbn in *. congruence. }
  change (amount (mk_asset (sw_burned sw) pst_sym)) with (sw_burned sw) in H.
  change (negb (sw_burned sw =? 0) && negb (amount penalty =? 0))
    with (sw_queued sw) in H.
  rewrite Hsw. cbn [bind].
  assert (forall m', m' ∈ rest -> miner m' <> owner) as Hdistinct.
  { intros m' Hm' Heq. apply Hfresh. rewrite <- Heq.
    apply list_elem_of_fmap. eauto. }
  apply IH in H as (more & Hplan & -> & Hrates' & Hdrained & Hframe & Hrest);
    [| exact Hnd |].
  2: { intros m' Hm'. rewrite Hotherbills by (apply Hdistinct; exact Hm').
       apply Hsound. apply list_elem_of_further. exact Hm'. }
  rewrite (sweep_plan_ext hdr c s2) in Hplan.
  2: exact Hrates.
  2: { intros m' Hm'. split.
       - apply Hothers. intros [= Heq]. exact (Hdistinct _ Hm' Heq).
       - apply Hotherbills. apply Hdistinct. exact Hm'. }
  assert (length (if sw_queued sw
                  then required ++ [(owner, mk_asset (sw_burned sw) pst_sym, penalty)]
                  else required)
          = if sw_queued sw then S (length required) else length required)
    as Hlen.
  { destruct (sw_queued sw); [| reflexivity].
    rewrite length_app. cbn. lia. }
  rewrite Hlen in Hplan. rewrite Hplan. cbn [bind].
  assert (owner ∉ sw_owner <$> more) as Hnotmore.
  { intros Hin. apply list_elem_of_fmap in Hin as (sw' & Heq & Hsw').
    pose proof (sweep_plan_owners _ _ _ _ _ Hplan sw' Hsw') as Hin.
    rewrite <- Heq in Hin. exact (Hfresh Hin). }
  exists (sw :: more).
  split; [reflexivity |].
  split.
  { change (queue_of (sw :: more))
      with (match sweep_entry sw with
            | Some y => y :: queue_of more
            | None => queue_of more
            end).
    unfold sweep_entry.
    change (sw_owner sw) with owner. change (sw_penalty sw) with penalty.
    destruct (sw_queued sw); [rewrite <- app_assoc |]; reflexivity. }
  split; [eapply same_rates_trans; eassumption |].
  split.
  - constructor.
    + destruct (Hframe owner Hnotmore) as [Hacc' Hbills'].
      unfold sweep_drained. change (sw_owner sw) with owner.
      unfold balance. rewrite Hacc'. rewrite Hbills', Hrows2.
      rewrite Hacc2. fold (balance s1 owner pst_sym). rewrite Hbal1.
      rewrite Hl1. split; reflexivity.
    + rewrite Forall_forall in Hdrained. apply Forall_forall.
      intros sw' Hsw'. specialize (Hdrained sw' Hsw').
      pose proof (sweep_plan_owners _ _ _ _ _ Hplan sw' Hsw') as Hin.
      apply list_elem_of_fmap in Hin as (m' & Heq & Hm').
      assert (sw_owner sw' <> owner) as Hne
        by (rewrite Heq; apply Hdistinct; exact Hm').
      unfold sweep_drained, balance in *.
      rewrite (Hothers (sw_owner sw', pst_sym)) in Hdrained by congruence.
      rewrite (Hotherbills (sw_owner sw')) in Hdrained by exact Hne.
      exact Hdrained.
  - split.
    + intros k Hk. cbn [fmap list_fmap] in Hk.
      apply not_elem_of_cons in Hk as [Hne Hk].
      change (sw_owner sw) with owner in Hne.
      destruct (Hframe k Hk) as [-> ->].
      split; [apply Hothers; congruence | apply Hotherbills; exact Hne].
    + intros key Hkey. rewrite (Hrest key Hkey). apply Hothers.
      intros ->. apply Hkey. reflexivity.
Qed.

Lemma sweep_plan_sound (hdr : header) (s : state) (idx : list maker) :
  forall (queued : nat) (sweeps : list sweep),
    sweep_plan hdr s idx queued = Ok sweeps ->
    forall sw, sw ∈ sweeps -> sweep_of hdr s (sw_maker sw) = Ok sw.
Proof.
  induction idx as [|m rest IH]; intros queued sweeps H sw Hin;
    cbn [sweep_plan] in H.
  { injection H as <-. apply elem_of_nil in Hin. destruct Hin. }
  destruct (_ && _);
    [| injection H as <-; apply elem_of_nil in Hin; destruct Hin].
  destruct (sweep_of hdr s m) as [sw0|] eqn:Hsw; [| discriminate H].
  cbn [bind] in H.
  destruct (sweep_plan hdr s rest _) as [more|] eqn:Hmore; [| discriminate H].
  injection H as <-.
  apply elem_of_cons in Hin as [-> | Hin]; [| eapply IH; eassumption].
  assert (sw_maker sw0 = m) as ->; [| exact Hsw].
  unfold sweep_of in Hsw. ok_steps Hsw. injection Hsw as <-. reflexivity.
Qed.

Lemma sweep_of_penalty (hdr : header) (s : state) (m : maker) (sw : sweep) :
  sweep_of hdr s m = Ok sw -> symbol (sw_penalty sw) = dmc_sym.
Proof.
  unfold sweep_of. intros H. ok_steps H. injection H as <-. cbn.
  match goal with
  | E : penalty_of _ _ _ _ = Ok _ |- _ =>
      unfold penalty_of, get_asset_by_amount in E; ok_steps E;
      apply asset_Ok in E as [-> _]
  end.
  reflexivity.
Qed.

Lemma queue_of_elem (sweeps : list sweep) (e : liquidation_entry) :
  e ∈ queue_of sweeps -> exists sw, sw ∈ sweeps /\ sweep_entry sw = Some e.
Proof.
  induction sweeps as [|sw rest IH]; intros Hin.
  { apply elem_of_nil in Hin. destruct Hin. }
  change (queue_of (sw :: rest))
    with (match sweep_entry sw with
          | Some y => y :: queue_of rest
          | None => queue_of rest
          end) in Hin.
  destruct (sweep_entry sw) as [y|] eqn:Hentry.
  - apply elem_of_cons in Hin as [-> | Hin].
    + exists sw. split; [apply list_elem_of_here | exact Hentry].
    + destruct (IH Hin) as (sw' & ? & ?). exists sw'.
      split; [apply list_elem_of_further |]; assumption.
  - destruct (IH Hin) as (sw' & ? & ?). exists sw'.
    split; [apply list_elem_of_further |]; assumption.
Qed.

Lemma queue_of_intro (sweeps : list sweep) (sw : sweep) (e : liquidation_entry) :
  sw ∈ sweeps -> sweep_entry sw = Some e -> e ∈ queue_of sweeps.
Proof.
  induction sweeps as [|sw0 rest IH]; intros Hin Hentry.
  { apply elem_of_nil in Hin. destruct Hin. }
  change (queue_of (sw0 :: rest))
    with (match sweep_entry sw0 with
          | Some y => y :: queue_of rest
          | None => queue_of rest
          end).
  apply elem_of_cons in Hin as [<- | Hin].
  - rewrite Hentry. apply list_elem_of_here.
  - destruct (sweep_entry sw0); [apply list_elem_of_further |]; auto.
Qed.

Lemma sweep_entry_miner (sw : sweep) (e : liquidation_entry) :
  sweep_entry sw = Some e -> entry_miner e = sw_owner sw.
Proof.
  unfold sweep_entry. destruct (sw_queued sw); [| discriminate].
  intros [= <-]. reflexivity.
Qed.

Lemma queue_of_names (sweeps : list sweep) :
  sublist (entry_miner <$> queue_of sweeps) (sw_owner <$> sweeps).
Proof.
  induction sweeps as [|sw rest IH]; [constructor |].
  change (queue_of (sw :: rest))
    with (match sweep_entry sw with
          | Some y => y :: queue_of rest
          | None => queue_of rest
          end).
  destruct (sweep_entry sw) as [y|] eqn:Hentry; cbn [fmap list_fmap].
  - rewrite (sweep_entry_miner _ _ Hentry). apply sublist_skip. exact IH.
  - apply sublist_cons. exact IH.
Qed.

Lemma NoDup_fmap_eq {A B : Type} (f : A -> B) (l : list A) (x y : A) :
  NoDup (f <$> l) -> x ∈ l -> y ∈ l -> f x = f y -> x = y.
Proof.
  induction l as [|a l IH]; intros Hnd Hx Hy Heq.
  { apply elem_of_nil in Hx. destruct Hx. }
  cbn [fmap list_fmap] in Hnd. apply NoDup_cons in Hnd as [Hfresh Hnd].
  apply elem_of_cons in Hx as [-> | Hx]; apply elem_of_cons in Hy as [-> | Hy];
    auto.
  - exfalso. apply Hfresh. rewrite Heq. apply list_elem_of_fmap. eauto.
  - exfalso. apply Hfresh. rewrite <- Heq. apply list_elem_of_fmap. eauto.
Qed.

(** The makers the scan queues are makers of the index, in its order. *)
Lemma scan_names (hdr : header) (idx : list maker) :
  forall (required required' : list liquidation_entry) (s s' : state),
    scan hdr idx required s = Ok (required', s') ->
    exists extra,
      required' = required ++ extra
      /\ sublist (entry_miner <$> extra) (miner <$> idx).
Proof.
  induction idx as [|maker_it rest IH]; intros required required' s s' H;
    cbn [scan] in H.
  { injection H as <- <-. exists []. rewrite app_nil_r.
    split; [reflexivity | constructor]. }
  destruct (flt (current_rate maker_it) (get_dmc_rate hdr s (get_n maker_it))
            && (length required <? 20)%nat).
  2: { injection H as <- <-. exists []. rewrite app_nil_r.
       split; [reflexivity | apply sublist_nil_l]. }
  cbn zeta in H.
  match type of H with
  | bind ?r _ = _ => destruct r as [origin|]; [| discriminate H]
  end.
  cbn [bind] in H.
  destruct (drain_balance (miner maker_it) origin s) as [[leftover1 s1]|];
    [| discriminate H].
  cbn [bind] in H.
  destruct (drain_bills hdr (bills_of s1 (miner maker_it)) 0 (miner maker_it)
              leftover1 s1) as [[leftover2 s2]|]; [| discriminate H].
  cbn [bind] in H.
  destruct (asset_sub origin leftover2) as [sub_pst_asset|]; [| discriminate H].
  cbn [bind] in H.
  match type of H with
  | bind ?r _ = _ => destruct r as [penalty|]; [| discriminate H]
  end.
  cbn [bind] in H.
  apply IH in H as (extra & -> & Hnames).
  destruct (negb (amount sub_pst_asset =? 0) && negb (amount penalty =? 0)).
  - exists ((miner maker_it, sub_pst_asset, penalty) :: extra).
    rewrite <- app_assoc. split; [reflexivity |].
    cbn [fmap list_fmap]. apply sublist_skip. exact Hnames.
  - exists extra. split; [reflexivity |].
    cbn [fmap list_fmap]. apply sublist_cons. exact Hnames.
Qed.

(** The apply phase, entry by entry: the rows of the makers that are not
    queued stay; a queued maker's minted amount loses the burned PST
    (a maker without a minted amount gets one, of the burned PST
    negated), and its maker row is the cached one with the stake less
    the penalty and the rate recomputed from the two new amounts. *)
Lemma settle_spec (hdr : header) (cache : list maker) :
  forall (required : list liquidation_entry) (s s' : state),
    settle hdr cache required s = Ok s' ->
    NoDup (entry_miner <$> required) ->
    (forall owner, owner ∉ entry_miner <$> required ->
       pststats s' !! owner = pststats s !! owner
       /\ makers s' !! owner = makers s !! owner)
    /\ (forall owner pst dmc, (owner, pst, dmc) ∈ required ->
          exists iter minted' staked',
            List.find (fun m => miner m =? owner) cache = Some iter
            /\ match pststats s !! owner with
               | Some st => asset_add st (asset_neg pst)
               | None => Ok (asset_neg pst)
               end = Ok minted'
            /\ pststats s' !! owner = Some minted'
            /\ asset_sub (total_staked iter) dmc = Ok staked'
            /\ makers s' !! owner
               = Some (with_rate (cal_current_rate hdr s' staked' owner)
                         (with_staked staked' iter))).
Proof.
  induction required as [|[[owner pst] dmc] rest IH]; intros s s' H Hnd.
  { injection H as <-. split; [auto |].
    intros ? ? ? Hin. apply elem_of_nil in Hin. destruct Hin. }
  cbn [settle] in H.
  destruct (change_pst owner (asset_neg pst) s) as [s1|] eqn:Hchange;
    [| discriminate H].
  cbn [bind] in H.
  destruct (List.find (fun m => miner m =? owner) cache) as [iter|] eqn:Hfind;
    [| discriminate H].
  cbn [get bind] in H.
  destruct (asset_sub (total_staked iter) dmc) as [staked'|] eqn:Hsub;
    [| discriminate H].
  cbn [bind] in H.
  apply change_pst_Ok in Hchange as (minted' & Hminted' & ->).
  cbn [fmap list_fmap] in Hnd. apply NoDup_cons in Hnd as [Hfresh Hnd].
  change (entry_miner (owner, pst, dmc)) with owner in Hfresh.
  apply IH in H as [Hframe Hrows]; [| exact Hnd].
  cbn in Hframe, Hrows.
  split.
  - intros owner' Hout. cbn [fmap list_fmap] in Hout.
    apply not_elem_of_cons in Hout as [Hne Hout].
    change (entry_miner (owner, pst, dmc)) with owner in Hne.
    destruct (Hframe owner' Hout) as [-> ->].
    rewrite !lookup_insert_ne by congruence. auto.
  - intros owner' pst' dmc' Hin.
    apply elem_of_cons in Hin as [Heq | Hin].
    + injection Heq as -> -> ->.
      destruct (Hframe owner Hfresh) as [Hp Hm].
      rewrite lookup_insert_eq in Hp. rewrite lookup_insert_eq in Hm.
      exists iter, minted', staked'.
      split_and!; auto.
      rewrite Hm. do 2 f_equal.
      apply cal_current_rate_lookup. cbn.
      rewrite lookup_insert_eq. symmetry. exact Hp.
    + assert (owner' <> owner) as Hne.
      { intros ->. apply Hfresh. apply list_elem_of_fmap.
        exists (owner, pst', dmc'). auto. }
      destruct (Hrows _ _ _ Hin)
        as (iter' & m' & st' & ? & Hp & ? & ? & ?).
      rewrite lookup_insert_ne in Hp by congruence.
      exists iter', m', st'. split_and!; auto.
Qed.

(** The apply phase leaves the bills and the PST balances alone: the
    penalties it credits are DMC. *)
Lemma settle_ledger (hdr : header) (cache : list maker) :
  forall (required : list liquidation_entry) (s s' : state),
    settle hdr cache required s = Ok s' ->
    (forall e, e ∈ required -> symbol e.2 = dmc_sym) ->
    bills s' = bills s
    /\ forall k, accounts s' !! (k, pst_sym) = accounts s !! (k, pst_sym).
Proof.
  induction required as [|[[owner pst] dmc] rest IH]; intros s s' H Hsym;
    cbn [settle] in H.
  { injection H as <-. auto. }
  destruct (change_pst owner (asset_neg pst) s) as [s1|] eqn:Hchange;
    [| discriminate H].
  apply change_pst_Ok in Hchange as (st' & _ & ->).
  cbn [bind] in H.
  destruct (List.find (fun m => miner m =? owner) cache) as [iter|];
    [| discriminate H].
  cbn [get bind] in H.
  destruct (asset_sub (total_staked iter) dmc) as [staked'|]; [| discriminate H].
  cbn [bind] in H.
  apply IH in H as [Hbills Hacc].
  2: { intros e He. apply Hsym. apply list_elem_of_further. exact He. }
  assert (symbol dmc = dmc_sym) as Hdmc
    by (apply (Hsym (owner, pst, dmc)); apply list_elem_of_here).
  split; [rewrite Hbills; reflexivity |].
  intros k. rewrite Hacc. cbn. rewrite Hdmc.
  apply lookup_insert_ne. discriminate.
Qed.

(** The apply phase credits the penalties, one after the other. *)
Lemma settle_credit (hdr : header) (cache : list maker) :
  forall (required : list liquidation_entry) (s s' : state),
    settle hdr cache required s = Ok s' ->
    (forall e, e ∈ required -> symbol e.2 = dmc_sym) ->
    balance s' (system_account hdr) dmc_sym
    = balance s (system_account hdr) dmc_sym
      + foldr (fun e acc => amount e.2 + acc) 0 required.
Proof.
  induction required as [|[[owner pst] dmc] rest IH]; intros s s' H Hsym;
    cbn [settle] in H.
  { injection H as <-. cbn. lia. }
  destruct (change_pst owner (asset_neg pst) s) as [s1|] eqn:Hchange;
    [| discriminate H].
  apply change_pst_Ok in Hchange as (st' & _ & ->).
  cbn [bind] in H.
  destruct (List.find (fun m => miner m =? owner) cache) as [iter|];
    [| discriminate H].
  cbn [get bind] in H.
  destruct (asset_sub (total_staked iter) dmc) as [staked'|]; [| discriminate H].
  cbn [bind] in H.
  apply IH in H.
  2: { intros e He. apply Hsym. apply list_elem_of_further. exact He. }
  assert (symbol dmc = dmc_sym) as Hdmc
    by (apply (Hsym (owner, pst, dmc)); apply list_elem_of_here).
  rewrite H. cbn [foldr snd]. unfold add_balance. rewrite Hdmc.
  unfold balance at 1. cbn [accounts set_accounts].
  rewrite lookup_insert_eq. cbn [default].
  unfold balance. cbn. lia.
Qed.

Lemma queue_of_penalties (sweeps : list sweep) :
  foldr (fun (e : liquidation_entry) acc => amount e.2 + acc) 0
    (queue_of sweeps)
  = penalties_of sweeps.
Proof.
  induction sweeps as [|sw rest IH]; [reflexivity |].
  change (queue_of (sw :: rest))
    with (match sweep_entry sw with
          | Some y => y :: queue_of rest
          | None => queue_of rest
          end).
  unfold penalties_of. cbn [foldr]. fold (penalties_of rest).
  unfold sweep_entry. destruct (sw_queued sw); cbn [foldr snd]; rewrite IH;
    reflexivity.
Qed.
(** ** The sweep as a whole *)

(** X21: A successful [liquidation] carries out the plan that
    [sweep_plan] makes on the store the call starts from: the makers of
    the rate index in ascending order, up to the first whose rate is not
    below its valued benchmark or until twenty are queued, each with the
    target [ceil((1 - rate/benchmark) * minted)] and the penalty
    computed from the stake its row holds.  For every maker of the plan
    the call takes [min(target, balance)] off the free PST balance and
    the rest off the unmatched amounts of the maker's bills, oldest
    first, a bill drained whole being erased.  A maker is queued exactly
    when the PST so drained and the penalty are both not zero; for a
    queued maker the call takes the drained PST off the minted amount
    and the penalty off the stake, and stores the rate recomputed from
    the two new amounts, the other fields of the row staying; for a
    maker not queued the minted amount stays.  The penalties of the
    queued makers are credited to the system account.  Minted amounts,
    PST balances and bills of the makers outside the plan stay.  The
    minted amount the plan reads for a maker without one is the
    header's [end_minted]. *)
Theorem liquidation_settles (hdr : header) (memo : string) (s s' : state) :
  makers_keyed s -> bills_sound s ->
  liquidation hdr memo s = Ok s' ->
  exists sweeps : list sweep,
    sweep_plan hdr s (byrate (makers s)) 0 = Ok sweeps
    /\ Forall (sweep_settled hdr s s') sweeps
    /\ balance s' (system_account hdr) dmc_sym
       = balance s (system_account hdr) dmc_sym + penalties_of sweeps
    /\ (forall k, k ∉ sw_owner <$> sweeps ->
          pststats s' !! k = pststats s !! k
          /\ balance s' k pst_sym = balance s k pst_sym
          /\ bills_of s' k = bills_of s k).
Proof.
  intros Hkeyed Hsound H. unfold liquidation in H.
  destruct (has_auth (eos_account hdr) s); [| discriminate H].
  destruct (scan hdr (byrate (makers s)) [] s) as [[required s1]|] eqn:Hscan;
    [| discriminate H].
  cbn [bind] in H.
  destruct (byrate_rows s Hkeyed) as [Hnodup Hrows].
  apply scan_plan in Hscan
    as (sweeps & Hplan & Hreq & Hrates & Hdrained & Hframe & Hrest);
    [| exact Hnodup | intros m _; apply Hsound].
  cbn in Hplan, Hreq. subst required.
  destruct (sweep_plan_prefix _ _ _ _ _ Hplan) as [rest Hidx].
  assert (NoDup (sw_owner <$> sweeps)) as Hndsw.
  { rewrite Hidx, fmap_app in Hnodup. apply NoDup_app in Hnodup as [Hnd _].
    rewrite <- list_fmap_compose in Hnd. exact Hnd. }
  assert (NoDup (entry_miner <$> queue_of sweeps)) as Hndq
    by (eapply sublist_NoDup; [exact Hndsw | apply queue_of_names]).
  assert (forall e, e ∈ queue_of sweeps -> symbol e.2 = dmc_sym) as Hsym.
  { intros e He. apply queue_of_elem in He as (sw & Hsw & Hentry).
    unfold sweep_entry in Hentry.
    destruct (sw_queued sw); [| discriminate Hentry].
    injection Hentry as <-. cbn.
    eapply sweep_of_penalty. eapply sweep_plan_sound; eassumption. }
  pose proof (settle_ledger _ _ _ _ _ H Hsym) as [Hbills Hacc].
  pose proof (settle_credit _ _ _ _ _ H Hsym) as Hcredit.
  apply settle_spec in H as [Hsframe Hsettled]; [| exact Hndq].
  destruct Hrates as (Hp & Hc & Ha).
  assert (forall k, k ∈ entry_miner <$> queue_of sweeps ->
                    exists sw, sw ∈ sweeps /\ sw_owner sw = k
                               /\ sw_queued sw = true) as Hqueued.
  { intros k Hin. apply list_elem_of_fmap in Hin as (e & -> & He).
    apply queue_of_elem in He as (sw & Hsw & Hentry).
    exists sw. split; [exact Hsw |].
    split; [symmetry; apply sweep_entry_miner; exact Hentry |].
    unfold sweep_entry in Hentry.
    destruct (sw_queued sw); [reflexivity | discriminate Hentry]. }
  exists sweeps. split; [exact Hplan |].
  split.
  { apply Forall_forall. intros sw Hsw.
    assert (makers s !! sw_owner sw = Some (sw_maker sw)) as Hrow.
    { apply Hrows. rewrite Hidx. apply elem_of_app. left.
      apply list_elem_of_fmap. eauto. }
    unfold sweep_settled. cbn zeta. split; [exact Hrow |]. split.
    - rewrite Forall_forall in Hdrained. specialize (Hdrained sw Hsw).
      unfold sweep_drained, balance, bills_of in *.
      rewrite Hacc, Hbills. exact Hdrained.
    - destruct (sw_queued sw) eqn:Hq.
      + assert ((sw_owner sw, mk_asset (sw_burned sw) pst_sym, sw_penalty sw)
                ∈ queue_of sweeps) as Hin.
        { eapply queue_of_intro; [exact Hsw |].
          unfold sweep_entry. rewrite Hq. reflexivity. }
        destruct (Hsettled _ _ _ Hin)
          as (iter & minted' & staked' & Hfind & Hadd & Hm' & Hsub & Hmk).
        apply find_some in Hfind as [Hiter Hname]. apply Z.eqb_eq in Hname.
        apply list_elem_of_In, Hrows in Hiter.
        rewrite Hname, Hrow in Hiter. injection Hiter as <-.
        exists minted', staked'. rewrite Hp in Hadd. split_and!; assumption.
      + destruct (Hsframe (sw_owner sw)) as [-> _]; [| rewrite Hp; reflexivity].
        intros Hin. apply Hqueued in Hin as (sw' & Hsw' & Heq & Hq').
        assert (sw' = sw) as ->
          by (eapply NoDup_fmap_eq; [exact Hndsw | | | exact Heq]; assumption).
        congruence. }
  split.
  { rewrite Hcredit, queue_of_penalties. unfold balance.
    rewrite Hrest by discriminate. reflexivity. }
  intros k Hk. destruct (Hframe k Hk) as [Hak Hbk].
  split; [| split].
  - destruct (Hsframe k) as [-> _]; [| rewrite Hp; reflexivity].
    intros Hin. apply Hqueued in Hin as (sw & Hsw & <- & _).
    apply Hk. apply list_elem_of_fmap. eauto.
  - unfold balance. rewrite Hacc, Hak. reflexivity.
  - unfold bills_of in *. rewrite Hbills. exact Hbk.
Qed.

Lemma bills_sound_list (s : state) :
  Forall (fun kr => Forall bill_sound kr.2) (map_to_list (bills s)) ->
  bills_sound s.
Proof.
  intros H owner. unfold bills_of.
  destruct (bills s !! owner) as [rows|] eqn:Hrows; [| constructor].
  rewrite Forall_forall in H.
  apply (H (owner, rows)). apply elem_of_map_to_list. exact Hrows.
Qed.

Lemma makers_keyed_list (s : state) :
  Forall (fun km => miner km.2 = km.1) (map_to_list (makers s)) ->
  makers_keyed s.
Proof.
  intros H k m Hkm. rewrite Forall_forall in H.
  apply (H (k, m)). apply elem_of_map_to_list. exact Hkm.
Qed.

Lemma ordered_keyed : makers_keyed ordered.
Proof. apply makers_keyed_list. vm_compute. repeat constructor. Qed.

Lemma stretched_keyed : makers_keyed stretched.
Proof. apply makers_keyed_list. vm_compute. repeat constructor. Qed.

Lemma stretched_sound : bills_sound stretched.
Proof.
  apply bills_sound_list.
  replace (map_to_list (bills stretched))
    with [(alice, bills_of stretched alice)] by (vm_compute; reflexivity).
  replace (bills_of stretched alice)
    with [with_matched (mk_asset 100 pst_sym)
            (with_unmatched (mk_asset 900 pst_sym) bill_row);
          mk_bill 1 10738420191 alice (mk_asset 0 pst_sym)
            (mk_asset 1950 pst_sym) 10737418240 1000000 1000000 2814400 1]
    by (vm_compute; reflexivity).
  pose proof max_amount_lt.
  repeat constructor.
  all: unfold max_amount; cbn [b_unmatched with_matched with_unmatched amount];
    lia.
Qed.

(** The sweep on [stretched] has alice alone in its plan. *)
Lemma liquidation_settles_witness :
  exists sweeps : list sweep,
    sweep_plan sample_header stretched (byrate (makers stretched)) 0
    = Ok sweeps
    /\ Forall (sweep_settled sample_header stretched stretched_swept) sweeps
    /\ balance stretched_swept (system_account sample_header) dmc_sym
       = balance stretched (system_account sample_header) dmc_sym
         + penalties_of sweeps
    /\ (forall k, k ∉ sw_owner <$> sweeps ->
          pststats stretched_swept !! k = pststats stretched !! k
          /\ balance stretched_swept k pst_sym = balance stretched k pst_sym
          /\ bills_of stretched_swept k = bills_of stretched k).
Proof.
  apply (liquidation_settles sample_header "" stretched stretched_swept
           stretched_keyed stretched_sound).
  vm_compute. reflexivity.
Defined.

(** The plan of that sweep, and what the call leaves: 50 PST from the
    balance and 1117 from the bills, the first of them erased; 1167 PST
    off the minted amount, 1167 DMC off the stake and to the system
    account. *)
Lemma liquidation_settles_amounts :
  (fun sw => (sw_owner sw, amount (sw_target sw), sw_from_balance sw,
              sw_from_bills sw, amount (sw_penalty sw), sw_queued sw))
    <$> after_plan (sweep_plan sample_header stretched
                      (byrate (makers stretched)) 0)
  = [(alice, 1167, 50, 1117, 1167, true)]
  /\ balance stretched alice pst_sym = 50
  /\ balance stretched_swept alice pst_sym = 0
  /\ unmatched_of (bills_of stretched alice) = [900; 1950]
  /\ unmatched_of (bills_of stretched_swept alice) = [1733]
  /\ staked_of stretched alice = 10000
  /\ staked_of stretched_swept alice = 8833
  /\ pststats stretched !! alice = Some (mk_asset 3000 pst_sym)
  /\ pststats stretched_swept !! alice = Some (mk_asset 1833 pst_sym)
  /\ balance stretched_swept (system_account sample_header) dmc_sym = 1167.
Proof. split_and!; vm_compute; reflexivity. Qed.

(** A maker row below its benchmark without a minted amount: the sweep
    reads [end_minted], here nothing, and queues nobody. *)
Lemma liquidation_without_minted_amount :
  liquidation sample_header "" (set_pststats ∅ ordered)
  = Ok (set_pststats ∅ ordered).
Proof. vm_compute. reflexivity. Qed.

(** ** Where the sweep stops *)

(** X22: The sweep walks the makers by ascending rate and stops at the first
    one whose rate is not below its own valued benchmark.  When that is
    the maker of lowest rate, or there is no maker, the call changes
    nothing, whatever the makers after it are like. *)
Theorem liquidation_stops_at_first_safe_maker (hdr : header) (memo : string)
    (s : state) :
  has_auth (eos_account hdr) s = true ->
  match byrate (makers s) with
  | [] => True
  | m :: _ => flt (current_rate m) (get_dmc_rate hdr s (get_n m)) = false
  end ->
  liquidation hdr memo s = Ok s.
Proof.
  intros Hauth Hfirst. unfold liquidation. rewrite Hauth.
  destruct (byrate (makers s)) as [|m rest]; [reflexivity |].
  cbn [scan]. rewrite Hfirst. reflexivity.
Qed.

(** alice's rate is the lowest and meets her benchmark; bob's rate is
    below his own benchmark, and the sweep leaves him alone. *)
Lemma liquidation_stops_at_first_safe_maker_witness :
  liquidation sample_header "" two_makers = Ok two_makers.
Proof.
  apply (liquidation_stops_at_first_safe_maker sample_header "" two_makers);
    vm_compute; reflexivity.
Defined.

Lemma two_makers_rates :
  (fun m => (miner m, flt (current_rate m)
                        (get_dmc_rate sample_header two_makers (get_n m))))
    <$> byrate (makers two_makers)
  = [(alice, false); (bob, true)].
Proof. vm_compute. reflexivity. Qed.

(** ** Configuration *)

(** X1: A value stored by [setdmcconfig] is what [get_dmc_config] returns
    for that key, whatever the default; every other key reads as
    before. *)
Theorem setdmcconfig_get_dmc_config (hdr : header) (key : string) (value : Z)
    (s s' : state) :
  setdmcconfig hdr key value s = Ok s' ->
  (forall d, get_dmc_config s' key d = value)
  /\ (forall key' d, key' <> key ->
        get_dmc_config s' key' d = get_dmc_config s key' d).
Proof.
  unfold setdmcconfig. intros H. ok_steps H. injection H as <-.
  unfold get_dmc_config. cbn. split.
  - intros d. rewrite lookup_insert_eq. reflexivity.
  - intros key' d Hne. rewrite lookup_insert_ne by congruence. reflexivity.
Qed.

Lemma setdmcconfig_get_dmc_config_witness :
  (forall d, get_dmc_config configured "bmrate" d = 1209600000)
  /\ (forall key' d, key' <> "bmrate" ->
        get_dmc_config configured key' d = get_dmc_config minted key' d).
Proof.
  apply (setdmcconfig_get_dmc_config sample_header "bmrate" 1209600000 minted
           configured).
  vm_compute. reflexivity.
Defined.

(** X2: [setdmcconfig] succeeds exactly when the administrator signed and
    the value is not a zero claims interval. *)
Theorem setdmcconfig_succeeds_iff (hdr : header) (key : string) (value : Z)
    (s : state) :
  (exists s', setdmcconfig hdr key value s = Ok s')
  <-> eos_account hdr ∈ authority s /\ (key = "claiminter" -> 0 < value).
Proof.
  unfold setdmcconfig, has_auth. split.
  - intros [s' H]. ok_steps H.
    match goal with E : bool_decide _ = true |- _ =>
      apply bool_decide_eq_true in E end.
    split; [assumption |]. intros ->.
    match goal with E : _ || _ = true |- _ =>
      cbn in E; apply Z.ltb_lt in E end.
    assumption.
  - intros [Hauth Hvalue].
    rewrite bool_decide_eq_true_2 by exact Hauth.
    destruct (String.eqb key "claiminter") eqn:Hkey; cbn [negb orb].
    + apply String.eqb_eq in Hkey.
      apply Hvalue, Z.ltb_lt in Hkey as ->. eauto.
    + eauto.
Qed.

(** X3: How a rate is valued after a configuration change: at the stored
    price average once there is one, whatever the configuration says;
    before the first sample, at the configured initial price, which is
    the new value when this is the key that was set. *)
Theorem get_dmc_rate_after_setdmcconfig (hdr : header) (key : string)
    (value rate_value : Z) (s s' : state) :
  setdmcconfig hdr key value s = Ok s' ->
  get_dmc_rate hdr s' rate_value
  = match price_average s with
    | Some a => (of_Z rate_value / 100 * avg a)%float
    | None =>
        (of_Z rate_value / 100
         * of_Z (if String.eqb key "initalprice" then value
                 else get_dmc_config s "initalprice" (default_initial_price hdr)))%float
    end.
Proof.
  unfold setdmcconfig. intros H. ok_steps H. injection H as <-.
  unfold get_dmc_rate, get_dmc_config. cbn.
  destruct (price_average s); [reflexivity |].
  destruct (String.eqb key "initalprice") eqn:Hkey.
  - apply String.eqb_eq in Hkey as ->. rewrite lookup_insert_eq. reflexivity.
  - apply String.eqb_neq in Hkey.
    rewrite lookup_insert_ne by congruence. reflexivity.
Qed.

(** The administrator sets the initial price to 3 before any trade: a
    benchmark of 200 is valued at 6. *)
Lemma get_dmc_rate_after_setdmcconfig_witness :
  get_dmc_rate sample_header
    (after (setdmcconfig sample_header "initalprice" 3 minted) minted) 200
  = match price_average minted with
    | Some a => (of_Z 200 / 100 * avg a)%float
    | None =>
        (of_Z 200 / 100
         * of_Z (if String.eqb "initalprice" "initalprice" then 3
                 else get_dmc_config minted "initalprice"
                        (default_initial_price sample_header)))%float
    end.
Proof.
  apply (get_dmc_rate_after_setdmcconfig sample_header "initalprice" 3 200
           minted).
  vm_compute. reflexivity.
Defined.


(** ** Stake pool: what an increase and a redemption keep *)

(** The store a successful [increase] into an existing pool returns. *)
Lemma increase_existing_Ok (hdr : header) (s s' : state)
    (owner maker_name : name) (a : extended_asset) (iter : maker) :
  makers s !! maker_name = Some iter ->
  increase hdr owner a maker_name s = Ok s' ->
  let new_weight :=
    (of_Z (amount a) / of_Z (amount (total_staked iter)) * total_weight iter)%float in
  let total_weight' := (total_weight iter + new_weight)%float in
  let dmc_pool' :=
    <[owner := match pool_of s maker_name !! owner with
               | Some w => (w + new_weight)%float
               | None => new_weight
               end]> (pool_of s maker_name) in
  let s1 :=
    set_accounts
      (<[(owner, symbol a) := balance s owner (symbol a) - amount a]>
         (accounts s)) s in
  exists new_total miner_weight,
    symbol a = dmc_sym /\ 0 < amount a /\
    amount a <= balance s owner (symbol a) /\
    asset_add (total_staked iter) a = Ok new_total /\
    dmc_pool' !! maker_name = Some miner_weight /\
    fle (miner_rate iter) (miner_weight / total_weight')%float = true /\
    s' = set_pools (<[maker_name := dmc_pool']> (pools s))
           (set_makers
              (<[maker_name :=
                   with_rate (cal_current_rate hdr s new_total maker_name)
                     (with_staked new_total (with_weight total_weight' iter))]>
                 (makers s)) s1).
Proof.
  unfold increase. intros Hmaker H.
  destruct (has_auth owner s); [| discriminate H].
  destruct (bool_decide (symbol a = dmc_sym)) eqn:Hsym; [| discriminate H].
  apply bool_decide_eq_true in Hsym.
  destruct (0 <? amount a) eqn:Hpos; [| discriminate H].
  apply Z.ltb_lt in Hpos.
  destruct (sub_balance owner a s) as [s1|] eqn:Hsub; [| discriminate H].
  apply sub_balance_Ok in Hsub as [Hfunds ->].
  cbn [bind makers set_accounts] in H. rewrite Hmaker in H.
  change (pool_of (set_accounts _ s) maker_name) with (pool_of s maker_name) in H.
  destruct (asset_add (total_staked iter) a) as [new_total|] eqn:Hadd;
    [| discriminate H].
  cbn [bind] in H.
  destruct (flt 0 _); [| discriminate H].
  destruct (flt 0.0001 _); [| discriminate H].
  cbn zeta.
  assert (forall X : gmap name float,
             match pool_of s maker_name !! owner with
             | Some w =>
                 <[owner := (w + of_Z (amount a)
                                 / of_Z (amount (total_staked iter))
                                 * total_weight iter)%float]> (pool_of s maker_name)
             | None =>
                 <[owner := (of_Z (amount a) / of_Z (amount (total_staked iter))
                             * total_weight iter)%float]> (pool_of s maker_name)
             end
             = <[owner := match pool_of s maker_name !! owner with
                          | Some w =>
                              (w + of_Z (amount a)
                                   / of_Z (amount (total_staked iter))
                                   * total_weight iter)%float
                          | None =>
                              (of_Z (amount a)
                               / of_Z (amount (total_staked iter))
                               * total_weight iter)%float
                          end]> (pool_of s maker_name)) as Hpool
    by (intros _; destruct (pool_of s maker_name !! owner); reflexivity).
  rewrite (Hpool ∅) in H.
  match type of H with
  | bind (get ?o _) _ = _ => destruct o as [miner_weight|] eqn:Hmw;
                             [| discriminate H]
  end.
  cbn [bind get] in H.
  match type of H with
  | (if ?c then _ else _) = _ => destruct c eqn:Hshare; [| discriminate H]
  end.
  injection H as <-.
  exists new_total, miner_weight. split_and!; auto.
Qed.

(** The store a successful [increase] returns when the maker has no row:
    the caller is the maker, and the row and the pool row are created. *)
Lemma increase_bootstrap_Ok (hdr : header) (s s' : state)
    (owner maker_name : name) (a : extended_asset) :
  makers s !! maker_name = None ->
  increase hdr owner a maker_name s = Ok s' ->
  let s1 :=
    set_accounts
      (<[(owner, symbol a) := balance s owner (symbol a) - amount a]>
         (accounts s)) s in
  owner = maker_name /\ symbol a = dmc_sym /\ 0 < amount a /\
  amount a <= balance s owner (symbol a) /\
  s' = set_pools
         (<[maker_name := <[owner := static_weights hdr]> (pool_of s maker_name)]>
            (pools s))
         (set_makers
            (<[maker_name :=
                 mk_maker owner (cal_current_rate hdr s a maker_name) 1
                   (static_weights hdr) a
                   (get_dmc_config s "bmrate" (default_benchmark_stake_rate hdr))
                   0]> (makers s)) s1).
Proof.
  unfold increase. intros Hmaker H.
  destruct (has_auth owner s); [| discriminate H].
  destruct (bool_decide (symbol a = dmc_sym)) eqn:Hsym; [| discriminate H].
  apply bool_decide_eq_true in Hsym.
  destruct (0 <? amount a) eqn:Hpos; [| discriminate H].
  apply Z.ltb_lt in Hpos.
  destruct (sub_balance owner a s) as [s1|] eqn:Hsub; [| discriminate H].
  apply sub_balance_Ok in Hsub as [Hfunds ->].
  cbn [bind makers set_accounts] in H. rewrite Hmaker in H.
  change (pool_of (set_accounts _ s) maker_name) with (pool_of s maker_name) in H.
  destruct (owner =? maker_name) eqn:Hown; [| discriminate H].
  apply Z.eqb_eq in Hown.
  destruct (bool_decide _); [| discriminate H].
  injection H as <-. cbn zeta. split_and!; auto.
Qed.

(** X9: A successful [increase] debits the staked amount from the caller's
    free DMC balance and adds exactly that amount to the maker's stake
    (a maker without a row has none). *)
Theorem increase_stake_accounting (hdr : header) (owner maker_name : name)
    (a : extended_asset) (s s' : state) :
  - max_amount <= staked_of s maker_name <= max_amount ->
  amount a <= max_amount ->
  increase hdr owner a maker_name s = Ok s' ->
  balance s' owner dmc_sym = balance s owner dmc_sym - amount a
  /\ staked_of s' maker_name = staked_of s maker_name + amount a.
Proof.
  intros Hrange Ha H. pose proof max_amount_lt as Hmax.
  unfold staked_of in *.
  destruct (makers s !! maker_name) as [iter|] eqn:Hiter.
  - destruct (increase_existing_Ok _ _ _ _ _ _ _ Hiter H)
      as (new_total & mw & Hsym & Hpos & _ & Hadd & _ & _ & ->).
    apply asset_add_amount in Hadd as (Hadd & _ & _); [| lia].
    cbn [makers set_makers set_pools]. rewrite lookup_insert_eq. cbn.
    rewrite Hsym. unfold balance at 1. cbn. rewrite lookup_insert_eq.
    split; [reflexivity | exact Hadd].
  - destruct (increase_bootstrap_Ok _ _ _ _ _ _ Hiter H)
      as (_ & Hsym & _ & _ & ->).
    cbn [makers set_makers set_pools]. rewrite lookup_insert_eq. cbn.
    rewrite Hsym. unfold balance at 1. cbn. rewrite lookup_insert_eq.
    split; [reflexivity | lia].
Qed.

(** bob joins alice's pool with 5000 units. *)
Lemma increase_stake_accounting_witness :
  balance joined bob dmc_sym = balance opened bob dmc_sym - 5000
  /\ staked_of joined alice = staked_of opened alice + 5000.
Proof.
  apply (increase_stake_accounting sample_header bob alice
           (mk_asset 5000 dmc_sym) opened joined).
  - vm_compute. split; discriminate.
  - vm_compute. discriminate.
  - vm_compute. reflexivity.
Defined.

(** X10: After a successful [increase] into an existing pool the maker's own
    share of the new total weight is at least its [miner_rate], which
    the call leaves as it was. *)
Theorem increase_keeps_share (hdr : header) (owner maker_name : name)
    (a : extended_asset) (s s' : state) (iter : maker) :
  makers s !! maker_name = Some iter ->
  increase hdr owner a maker_name s = Ok s' ->
  share_kept s' maker_name
  /\ exists m', makers s' !! maker_name = Some m'
                /\ miner_rate m' = miner_rate iter.
Proof.
  intros Hiter H.
  destruct (increase_existing_Ok _ _ _ _ _ _ _ Hiter H)
    as (new_total & mw & _ & _ & _ & _ & Hmw & Hshare & ->).
  unfold share_kept. cbn [makers set_makers set_pools].
  rewrite lookup_insert_eq. split.
  - eexists _, mw. split; [reflexivity |].
    split; [| exact Hshare].
    rewrite pool_of_set_pools. exact Hmw.
  - eexists. split; reflexivity.
Qed.

Lemma increase_keeps_share_witness :
  share_kept joined alice
  /\ exists m', makers joined !! alice = Some m'
                /\ miner_rate m' = 0.2%float.
Proof.
  apply (increase_keeps_share sample_header bob alice (mk_asset 5000 dmc_sym)
           opened joined
           (mk_maker alice 18446744073709551615 0.2 10000000
              (mk_asset 10000 dmc_sym) 200 0));
    vm_compute; reflexivity.
Defined.

(** X8: Only the maker can open its pool.  The first [increase] creates the
    maker row with the staked amount, the total weight [static_weights],
    a minimum own share of 1 and the configured benchmark, and gives the
    maker a pool row of weight [static_weights]. *)
Theorem increase_opens_pool (hdr : header) (owner maker_name : name)
    (a : extended_asset) (s s' : state) :
  makers s !! maker_name = None ->
  increase hdr owner a maker_name s = Ok s' ->
  owner = maker_name
  /\ pool_of s' maker_name !! maker_name = Some (static_weights hdr)
  /\ exists m',
       makers s' !! maker_name = Some m'
       /\ miner m' = maker_name
       /\ total_staked m' = a
       /\ total_weight m' = static_weights hdr
       /\ miner_rate m' = 1%float
       /\ benchmark_stake_rate m'
          = get_dmc_config s "bmrate" (default_benchmark_stake_rate hdr)
       /\ rate_updated_at m' = 0.
Proof.
  intros Hiter H.
  destruct (increase_bootstrap_Ok _ _ _ _ _ _ Hiter H)
    as (-> & _ & _ & _ & ->).
  split; [reflexivity |]. split.
  - rewrite pool_of_set_pools. apply lookup_insert_eq.
  - cbn [makers set_makers set_pools]. rewrite lookup_insert_eq.
    eexists. split; [reflexivity |]. cbn. auto 10.
Qed.

Lemma increase_opens_pool_witness :
  alice = alice
  /\ pool_of staked alice !! alice = Some (static_weights sample_header)
  /\ exists m',
       makers staked !! alice = Some m'
       /\ miner m' = alice
       /\ total_staked m' = mk_asset 10000 dmc_sym
       /\ total_weight m' = static_weights sample_header
       /\ miner_rate m' = 1%float
       /\ benchmark_stake_rate m'
          = get_dmc_config genesis "bmrate"
              (default_benchmark_stake_rate sample_header)
       /\ rate_updated_at m' = 0.
Proof.
  apply (increase_opens_pool sample_header alice alice (mk_asset 10000 dmc_sym)
           genesis staked);
    vm_compute; reflexivity.
Defined.

(** X11: A successful [redemption] locks for the depositor a positive amount
    that matures three [day_sec] days later, touches no free balance,
    and takes exactly that amount off the stake: the maker row is erased
    when the payout is the whole stake, and keeps a positive stake
    otherwise. *)
Theorem redemption_pays_what_it_takes (hdr : header) (owner maker_name : name)
    (rate : float) (s s' : state) (iter : maker) :
  makers s !! maker_name = Some iter ->
  - max_amount <= amount (total_staked iter) <= max_amount ->
  redemption hdr owner rate maker_name s = Ok s' ->
  exists q,
    locked s'
    = locked s ++ [mk_locked owner q (uint32 (now s + 3 * day_sec hdr * 86400))]
    /\ 0 < amount q
    /\ accounts s' = accounts s
    /\ match makers s' !! maker_name with
       | Some m' =>
           amount (total_staked m') = amount (total_staked iter) - amount q
           /\ 0 < amount (total_staked m')
       | None => amount q = amount (total_staked iter)
       end.
Proof.
  unfold redemption. intros Hiter Hrange H. pose proof max_amount_lt as Hmax.
  destruct (has_auth owner s); [| discriminate H].
  destruct (flt 0 rate && fle rate 1); [| discriminate H].
  rewrite Hiter in H.
  destruct (pool_of s maker_name !! owner) as [w|]; [| discriminate H].
  cbn [bind get] in H.
  ok_all.
  all: cbn [locked accounts makers set_makers set_pools lock_add_balance set_locked].
  all: eexists.
  all: (split; [reflexivity |]).
  all: (split; [apply Z.ltb_lt; assumption |]).
  all: (split; [reflexivity |]).
  all: rewrite ?lookup_delete_eq, ?lookup_insert_eq.
  all: cbn [total_staked with_rate with_staked with_weight] in *.
  all: repeat match goal with
       | E : match pool_after_erase ?p with _ => _ end = Ok _ |- _ =>
           destruct (pool_after_erase p); injection E as <- <- <- <- <-
       | E : asset _ _ = Ok _ |- _ => apply asset_Ok in E as [-> ?]
       | E : (_ =? _) = false |- _ => apply Z.eqb_neq in E
       | E : (_ =? _) = true |- _ => apply Z.eqb_eq in E
       | E : (_ <=? _) = true |- _ => apply Z.leb_le in E
       | E : (_ <? _) = true |- _ => apply Z.ltb_lt in E
       | E : asset_sub _ _ = Ok _ |- _ =>
           apply asset_sub_amount in E as (? & _ & _); [| cbn in *; lia]
       end.
  all: cbn in *; lia.
Qed.

(** bob leaves alice's pool: his 5000 units are locked for him and come
    off the stake. *)
Lemma redemption_pays_what_it_takes_witness :
  exists q,
    locked bob_left
    = locked joined
      ++ [mk_locked bob q
            (uint32 (now joined + 3 * day_sec sample_header * 86400))]
    /\ 0 < amount q
    /\ accounts bob_left = accounts joined
    /\ match makers bob_left !! alice with
       | Some m' =>
           amount (total_staked m') = amount (mk_asset 15000 dmc_sym) - amount q
           /\ 0 < amount (total_staked m')
       | None => amount q = amount (mk_asset 15000 dmc_sym)
       end.
Proof.
  apply (redemption_pays_what_it_takes sample_header bob alice 1 joined bob_left
           (mk_maker alice 18446744073709551615 0.2 15000000
              (mk_asset 15000 dmc_sym) 200 0)).
  - vm_compute. reflexivity.
  - vm_compute. split; discriminate.
  - vm_compute. reflexivity.
Defined.

(** X12: A maker's own redemption that leaves the maker row leaves it with a
    rate that is at least the valued benchmark and with the maker's
    share of the pool at least [miner_rate]. *)
Theorem redemption_by_maker_keeps_rates (hdr : header) (maker_name : name)
    (rate : float) (s s' : state) (m' : maker) :
  redemption hdr maker_name rate maker_name s = Ok s' ->
  makers s' !! maker_name = Some m' ->
  fle (get_dmc_rate hdr s' (benchmark_stake_rate m')) (current_rate m') = true
  /\ share_kept s' maker_name.
Proof.
  unfold redemption, share_kept. intros H Hm'.
  destruct (has_auth maker_name s); [| discriminate H].
  destruct (flt 0 rate && fle rate 1); [| discriminate H].
  destruct (makers s !! maker_name) as [iter|]; [| discriminate H].
  destruct (pool_of s maker_name !! maker_name) as [w|]; [| discriminate H].
  cbn [bind get] in H.
  rewrite Z.eqb_refl in H.
  ok_all.
  all: repeat match goal with
       | E : match pool_after_erase ?p with _ => _ end = Ok _ |- _ =>
           destruct (pool_after_erase p); injection E as <- <- <- <- <-
       end.
  all: try match goal with
       | E : delete ?k _ !! ?k = Some _ |- _ =>
           rewrite lookup_delete_eq in E; discriminate E
       end.
  all: cbn [makers set_makers] in Hm'.
  all: try (rewrite lookup_delete_eq in Hm'; discriminate Hm').
  all: try match goal with
       | E : asset_sub ?a ?a = Ok _, N : (amount _ =? 0) = false |- _ =>
           apply asset_sub_self in E; rewrite E in N; discriminate N
       end.
  all: rewrite lookup_insert_eq in Hm'; injection Hm' as <-.
  split; [assumption |].
  eexists _, _. cbn [makers set_makers]. rewrite lookup_insert_eq.
  split; [reflexivity |].
  split; [unfold pool_of; cbn; rewrite lookup_insert_eq; eassumption |].
  assumption.
Qed.

Lemma redemption_by_maker_keeps_rates_witness :
  fle (get_dmc_rate sample_header alice_halved 200) 18446744073709551615 = true
  /\ share_kept alice_halved alice.
Proof.
  apply (redemption_by_maker_keeps_rates sample_header alice 0.5 joined
           alice_halved
           (mk_maker alice 18446744073709551615 0.2 10000000
              (mk_asset 10000 dmc_sym) 200 0));
    vm_compute; reflexivity.
Defined.


(** X30: A [redemption] writes the caller's pool row only: every other
    depositor's row of that pool, and every other pool, is as before,
    also when the call pays out the whole stake and erases the maker
    row. *)
Theorem redemption_keeps_other_shares (hdr : header) (owner maker_name : name)
    (rate : float) (s s' : state) :
  redemption hdr owner rate maker_name s = Ok s' ->
  (forall k, k <> owner ->
     pool_of s' maker_name !! k = pool_of s maker_name !! k)
  /\ (forall other, other <> maker_name -> pool_of s' other = pool_of s other).
Proof.
  unfold redemption. intros H.
  destruct (has_auth owner s); [| discriminate H].
  destruct (flt 0 rate && fle rate 1); [| discriminate H].
  destruct (makers s !! maker_name) as [iter|]; [| discriminate H].
  destruct (pool_of s maker_name !! owner) as [w|]; [| discriminate H].
  cbn [bind get] in H.
  ok_all.
  all: repeat match goal with
       | E : match pool_after_erase ?p with _ => _ end = Ok _ |- _ =>
           destruct (pool_after_erase p); injection E as <- <- <- <- <-
       end.
  all: split;
    [ intros k Hk; unfold pool_of at 1; cbn; rewrite lookup_insert_eq; cbn;
      first [ apply lookup_delete_ne; congruence
            | apply lookup_insert_ne; congruence ]
    | intros other Hother; unfold pool_of; cbn;
      rewrite lookup_insert_ne by congruence; reflexivity ].
Qed.

(** alice takes her whole share out of the lopsided pool: the payout is
    the whole stake and the maker row is erased, and bob's row is still
    there. *)
Lemma redemption_keeps_other_shares_witness :
  (forall k, k <> alice ->
     pool_of alice_left alice !! k = pool_of lopsided alice !! k)
  /\ (forall other, other <> alice ->
        pool_of alice_left other = pool_of lopsided other).
Proof.
  apply (redemption_keeps_other_shares sample_header alice alice 1 lopsided
           alice_left).
  vm_compute. reflexivity.
Defined.

Lemma redemption_orphans_share :
  makers alice_left !! alice = None
  /\ pool_of alice_left alice !! bob = pool_of lopsided alice !! bob
  /\ is_Some (pool_of lopsided alice !! bob)
  /\ (l_asset <$> locked alice_left) = [mk_asset (2 ^ 59) dmc_sym].
Proof.
  split_and!; try (vm_compute; reflexivity).
  vm_compute. eauto.
Qed.

(** ** The maker's own settings *)

(** X4: A successful [setmakerrate] stores a rate between 0.2 and 1 that
    the maker's own share of the pool already meets, and changes nothing
    else: the other fields of the row, the other rows, the pools and
    the balances are as before. *)
Theorem setmakerrate_sets_floor (owner : name) (rate : float) (s s' : state) :
  setmakerrate owner rate s = Ok s' ->
  fle 0.2 rate = true /\ fle rate 1 = true
  /\ share_kept s' owner
  /\ (exists m,
        makers s !! owner = Some m
        /\ makers s'
           = <[owner :=
                 mk_maker (miner m) (current_rate m) rate (total_weight m)
                   (total_staked m) (benchmark_stake_rate m)
                   (rate_updated_at m)]> (makers s))
  /\ pools s' = pools s /\ accounts s' = accounts s
  /\ pststats s' = pststats s.
Proof.
  unfold setmakerrate. intros H. ok_steps H. injection H as <-.
  match goal with E : _ && _ = true |- _ =>
    apply andb_true_iff in E as [Hlo Hhi] end.
  split; [exact Hlo |]. split; [exact Hhi |].
  split.
  - unfold share_kept. cbn [makers set_makers]. rewrite lookup_insert_eq.
    eexists _, _. split; [reflexivity |].
    split; [eassumption |]. cbn. assumption.
  - split; [| auto]. eexists. split; reflexivity.
Qed.

Lemma setmakerrate_sets_floor_witness :
  fle 0.2 0.2 = true /\ fle 0.2 1 = true
  /\ share_kept opened alice
  /\ (exists m,
        makers staked !! alice = Some m
        /\ makers opened
           = <[alice :=
                 mk_maker (miner m) (current_rate m) 0.2 (total_weight m)
                   (total_staked m) (benchmark_stake_rate m)
                   (rate_updated_at m)]> (makers staked))
  /\ pools opened = pools staked /\ accounts opened = accounts staked
  /\ pststats opened = pststats staked.
Proof.
  apply (setmakerrate_sets_floor alice 0.2 staked opened).
  vm_compute. reflexivity.
Defined.

(** What a successful [setmakerbstr] stores. *)
Lemma setmakerbstr_Ok (hdr : header) (interval : Z) (owner : name)
    (rate_value : Z) (s s' : state) :
  setmakerbstr hdr interval owner rate_value s = Ok s' ->
  exists iter w,
    makers s !! owner = Some iter
    /\ pool_of s owner !! owner = Some w
    /\ uint32 (rate_updated_at iter + interval) <= now s
    /\ get_dmc_config s "bmrate" (default_benchmark_stake_rate hdr) <= rate_value
    /\ (rate_updated_at iter <> 0 ->
        fle (of_Z rate_value) (of_Z (benchmark_stake_rate iter) * 1.1)%float
        = true
        /\ fle (of_Z (benchmark_stake_rate iter) * 0.9)%float (of_Z rate_value)
           = true)
    /\ s' = set_makers
              (<[owner :=
                   mk_maker (miner iter) (current_rate iter) (miner_rate iter)
                     (total_weight iter) (total_staked iter) rate_value (now s)]>
                 (makers s)) s.
Proof.
  unfold setmakerbstr. intros H. ok_steps H. injection H as <-.
  eexists _, _. split; [reflexivity |]. split; [reflexivity |].
  split; [apply Z.leb_le; assumption |].
  match goal with
  | E : (if ?c then _ else _) = true |- _ => destruct c eqn:Hfirst
  end.
  - apply Z.eqb_eq in Hfirst.
    split; [apply Z.leb_le; assumption |]. split; [| reflexivity].
    intros Hne. contradiction.
  - match goal with E : _ && _ = true |- _ =>
      apply andb_true_iff in E as [E Hfloor];
      apply andb_true_iff in E as [Hup Hdown] end.
    split; [apply Z.leb_le; assumption |]. split; [| reflexivity].
    auto.
Qed.

(** X5: A successful [setmakerbstr] stores a benchmark that is at least the
    configured "bmrate" and, unless it is the maker's first change,
    within a tenth of the benchmark it replaces (as doubles); it stamps
    the row with the current time and changes no other field. *)
Theorem setmakerbstr_bounds (hdr : header) (interval : Z) (owner : name)
    (rate_value : Z) (s s' : state) :
  setmakerbstr hdr interval owner rate_value s = Ok s' ->
  exists iter m',
    makers s !! owner = Some iter
    /\ makers s' !! owner = Some m'
    /\ benchmark_stake_rate m' = rate_value
    /\ rate_updated_at m' = now s
    /\ get_dmc_config s "bmrate" (default_benchmark_stake_rate hdr) <= rate_value
    /\ (rate_updated_at iter <> 0 ->
        fle (of_Z rate_value) (of_Z (benchmark_stake_rate iter) * 1.1)%float
        = true
        /\ fle (of_Z (benchmark_stake_rate iter) * 0.9)%float (of_Z rate_value)
           = true)
    /\ total_staked m' = total_staked iter
    /\ total_weight m' = total_weight iter
    /\ current_rate m' = current_rate iter
    /\ miner_rate m' = miner_rate iter.
Proof.
  intros H.
  apply setmakerbstr_Ok in H
    as (iter & w & Hiter & _ & _ & Hfloor & Hdrift & ->).
  cbn [makers set_makers]. rewrite lookup_insert_eq.
  eexists iter, _. split; [exact Hiter |]. split; [reflexivity |].
  cbn. auto 10.
Qed.

Lemma setmakerbstr_bounds_witness :
  exists iter m',
    makers staked !! alice = Some iter
    /\ makers rebenchmarked !! alice = Some m'
    /\ benchmark_stake_rate m' = 250
    /\ rate_updated_at m' = now staked
    /\ get_dmc_config staked "bmrate"
         (default_benchmark_stake_rate sample_header) <= 250
    /\ (rate_updated_at iter <> 0 ->
        fle (of_Z 250) (of_Z (benchmark_stake_rate iter) * 1.1)%float = true
        /\ fle (of_Z (benchmark_stake_rate iter) * 0.9)%float (of_Z 250) = true)
    /\ total_staked m' = total_staked iter
    /\ total_weight m' = total_weight iter
    /\ current_rate m' = current_rate iter
    /\ miner_rate m' = miner_rate iter.
Proof.
  apply (setmakerbstr_bounds sample_header three_days alice 250 staked
           rebenchmarked).
  vm_compute. reflexivity.
Defined.

(** X6: The cooldown: after a successful [setmakerbstr], every further call
    for that maker made less than [maker_change_rate_interval] seconds
    later aborts, whatever rate it proposes. *)
Theorem setmakerbstr_cooldown (hdr : header) (interval : Z) (owner : name)
    (rate_value rate_value' dt : Z) (s s' : state) :
  setmakerbstr hdr interval owner rate_value s = Ok s' ->
  0 <= now s -> now s + interval < 2 ^ 32 ->
  0 <= dt < interval ->
  setmakerbstr hdr interval owner rate_value' (advance dt s')
  = Abort "change rate interval too short".
Proof.
  intros H Hnow Hwrap Hdt.
  pose proof H as Hauth. unfold setmakerbstr in Hauth.
  destruct (has_auth owner s) eqn:Hsigned; [clear Hauth | discriminate Hauth].
  apply setmakerbstr_Ok in H as (iter & w & _ & Hw & _ & _ & _ & ->).
  unfold setmakerbstr.
  change (has_auth owner (advance dt (set_makers _ s))) with (has_auth owner s).
  rewrite Hsigned.
  cbn [advance makers set_makers]. rewrite lookup_insert_eq.
  cbn [get bind].
  change (pool_of _ owner) with (pool_of s owner). rewrite Hw.
  cbn [get bind rate_updated_at now].
  assert (uint32 (now s + interval) = now s + interval) as ->
    by (unfold uint32; apply Z.mod_small; lia).
  change (now (advance dt (set_makers _ s))) with (now s + dt).
  destruct (now s + interval <=? now s + dt) eqn:Hle; [| reflexivity].
  apply Z.leb_le in Hle. lia.
Qed.

(** alice has raised her benchmark; a day later she may not change it
    again. *)
Lemma setmakerbstr_cooldown_witness :
  setmakerbstr sample_header three_days alice 260 (advance 86400 rebenchmarked)
  = Abort "change rate interval too short".
Proof.
  apply (setmakerbstr_cooldown sample_header three_days alice 250 260 86400
           staked rebenchmarked).
  - vm_compute. reflexivity.
  - vm_compute. discriminate.
  - vm_compute. reflexivity.
  - vm_compute. split; [discriminate | reflexivity].
Defined.


(** ** The release schedule *)

(** X7: A successful [setabostats] writes the row of its stage only.  The
    rates, the total release and the two dates are the ones given.  A
    stage configured for the first time starts with the whole release
    remaining and with both release times at the start date, or at the
    current time when the start date has passed; a stage configured
    again keeps its remaining release and its two release times. *)
Theorem setabostats_row (hdr : header) (stage_no : Z) (user_r foundation_r : float)
    (release : extended_asset) (start_t end_t : Z) (s : state)
    (ast ast' : gmap Z abostat) :
  setabostats hdr stage_no user_r foundation_r release start_t end_t s ast
  = Ok ast' ->
  (forall k, k <> stage_no -> ast' !! k = ast !! k)
  /\ exists row,
       ast' !! stage_no = Some row
       /\ user_rate row = user_r /\ foundation_rate row = foundation_r
       /\ total_release row = release
       /\ start_at row = start_t /\ end_at row = end_t
       /\ match ast !! stage_no with
          | Some old =>
              remaining_release row = remaining_release old
              /\ last_user_released_at row = last_user_released_at old
              /\ last_foundation_released_at row
                 = last_foundation_released_at old
          | None =>
              remaining_release row = release
              /\ last_user_released_at row = Z.max (now s) start_t
              /\ last_foundation_released_at row = Z.max (now s) start_t
          end.
Proof.
  unfold setabostats. intros H. ok_steps H.
  destruct (ast !! stage_no) as [old|] eqn:Hold; injection H as <-.
  - split; [intros k Hk; apply lookup_insert_ne; congruence |].
    eexists. rewrite lookup_insert_eq. split; [reflexivity |]. cbn. auto 10.
  - split; [intros k Hk; apply lookup_insert_ne; congruence |].
    eexists. rewrite lookup_insert_eq. split; [reflexivity |]. cbn.
    assert ((if start_t <? now s then now s else start_t)
            = Z.max (now s) start_t) as ->.
    { destruct (start_t <? now s) eqn:Hlt;
        [apply Z.ltb_lt in Hlt | apply Z.ltb_ge in Hlt]; lia. }
    auto 10.
Qed.

(** The stage configured again half a million seconds later, with a
    smaller total release: the million units remaining stay. *)
Lemma setabostats_row_witness :
  (forall k, k <> 1 -> stage_one_again !! k = stage_one !! k)
  /\ exists row,
       stage_one_again !! 1 = Some row
       /\ user_rate row = 0.25%float /\ foundation_rate row = 0.75%float
       /\ total_release row = mk_asset 500 dmc_sym
       /\ start_at row = 2000000 /\ end_at row = 4000000
       /\ match stage_one !! 1 with
          | Some old =>
              remaining_release row = remaining_release old
              /\ last_user_released_at row = last_user_released_at old
              /\ last_foundation_released_at row
                 = last_foundation_released_at old
          | None =>
              remaining_release row = mk_asset 500 dmc_sym
              /\ last_user_released_at row
                 = Z.max (now (advance 1500000 genesis)) 2000000
              /\ last_foundation_released_at row
                 = Z.max (now (advance 1500000 genesis)) 2000000
          end.
Proof.
  apply (setabostats_row sample_header 1 0.25 0.75 (mk_asset 500 dmc_sym)
           2000000 4000000 (advance 1500000 genesis) stage_one stage_one_again).
  vm_compute. reflexivity.
Defined.

Lemma setabostats_keeps_remaining :
  remaining_release <$> stage_one_again !! 1 = Some (mk_asset 1000000 dmc_sym)
  /\ total_release <$> stage_one_again !! 1 = Some (mk_asset 500 dmc_sym).
Proof. split; vm_compute; reflexivity. Qed.


(** ** Bills and orders *)

(** X14: A successful [unbill] erases the first row of the owner's table that
    carries the identifier, credits the unmatched amount of that row
    (not the matched one) to the owner's free balance, and touches no
    other balance and no other owner's bills. *)
Theorem unbill_refunds_unmatched (hdr : header) (owner : name) (bill_id : Z)
    (memo : string) (s s' : state) :
  unbill hdr owner bill_id memo s = Ok s' ->
  exists i ust,
    find_bill (bills_of s owner) bill_id = Some (i, ust)
    /\ bills_of s' owner = delete i (bills_of s owner)
    /\ balance s' owner (symbol (b_unmatched ust))
       = balance s owner (symbol (b_unmatched ust)) + amount (b_unmatched ust)
    /\ (forall k, k <> (owner, symbol (b_unmatched ust)) ->
          accounts s' !! k = accounts s !! k)
    /\ (forall other, other <> owner -> bills_of s' other = bills_of s other).
Proof.
  intros H.
  apply unbill_Ok in H as (i & ust & t & s1 & Hfind & Hbonus & ->).
  apply calbonus_frame in Hbonus as (Hbills & Hacc & _).
  exists i, ust. split; [exact Hfind |].
  split.
  { unfold bills_of at 1. cbn. rewrite lookup_insert_eq.
    unfold bills_of. rewrite Hbills. reflexivity. }
  split.
  { rewrite balance_add_balance. unfold balance. cbn. rewrite Hacc.
    reflexivity. }
  split.
  { intros k Hk. unfold add_balance. cbn.
    rewrite lookup_insert_ne by congruence. rewrite Hacc. reflexivity. }
  intros other Hother. unfold bills_of. cbn.
  rewrite lookup_insert_ne by congruence. rewrite Hbills. reflexivity.
Qed.

(** alice cancels the bill bob has matched 100 PST of: 900 PST come
    back. *)
Lemma unbill_refunds_unmatched_witness :
  exists i ust,
    find_bill (bills_of billed_again alice) bill_1 = Some (i, ust)
    /\ bills_of cancelled alice = delete i (bills_of billed_again alice)
    /\ balance cancelled alice (symbol (b_unmatched ust))
       = balance billed_again alice (symbol (b_unmatched ust))
         + amount (b_unmatched ust)
    /\ (forall k, k <> (alice, symbol (b_unmatched ust)) ->
          accounts cancelled !! k = accounts billed_again !! k)
    /\ (forall other, other <> alice ->
          bills_of cancelled other = bills_of billed_again other).
Proof.
  apply (unbill_refunds_unmatched sample_header alice bill_1 "" billed_again
           cancelled).
  vm_compute. reflexivity.
Defined.

(** X15: Without a bill of that identifier in the seller's table nothing that
    names the bill goes through: [unbill], [order] and [calbonus] all
    abort. *)
Theorem missing_bill_aborts (hdr : header) (seller : name) (bill_id : Z)
    (s : state) :
  find_bill (bills_of s seller) bill_id = None ->
  (forall memo, exists msg, unbill hdr seller bill_id memo s = Abort msg)
  /\ (forall buyer a reserve memo deposit_valid,
        exists msg,
          order hdr buyer seller bill_id a reserve memo deposit_valid s
          = Abort msg)
  /\ (forall payer,
        calbonus hdr seller bill_id payer s = Abort "no such record").
Proof.
  intros Hfind. split; [| split].
  - intros memo. unfold unbill. rewrite Hfind.
    destruct (has_auth seller s); [| eauto].
    destruct (String.length memo <=? 256)%nat; eauto.
  - intros buyer a reserve memo deposit_valid. unfold order. rewrite Hfind.
    destruct (has_auth buyer s); [| eauto].
    destruct (String.length memo <=? 256)%nat; [| eauto].
    destruct (negb (buyer =? seller)); [| eauto].
    destruct (bool_decide (symbol a = pst_sym)); [| eauto].
    destruct (0 <? amount a); [| eauto].
    destruct (0 <=? amount reserve); eauto.
  - intros payer. unfold calbonus. rewrite Hfind. reflexivity.
Qed.

(** Once alice has cancelled her only bill, the identifier names
    nothing. *)
Lemma missing_bill_aborts_witness :
  (forall memo,
     exists msg, unbill sample_header alice bill_1 memo withdrawn = Abort msg)
  /\ (forall buyer a reserve memo deposit_valid,
        exists msg,
          order sample_header buyer alice bill_1 a reserve memo deposit_valid
            withdrawn
          = Abort msg)
  /\ (forall payer,
        calbonus sample_header alice bill_1 payer withdrawn
        = Abort "no such record").
Proof.
  apply (missing_bill_aborts sample_header alice bill_1 withdrawn).
  vm_compute. reflexivity.
Defined.

(** *** The order identifier *)

Lemma uint64_succ (x : Z) : uint64 (uint64 x + 1) = uint64 (x + 1).
Proof. unfold uint64. rewrite Zplus_mod_idemp_l. reflexivity. Qed.

Lemma uint64_offsets_inj (id0 : Z) (i j : nat) :
  Z.of_nat i < 2 ^ 64 -> Z.of_nat j < 2 ^ 64 ->
  uint64 (id0 + Z.of_nat i) = uint64 (id0 + Z.of_nat j) -> i = j.
Proof.
  unfold uint64. intros Hi Hj Heq.
  pose proof (Z.div_mod (id0 + Z.of_nat i) (2 ^ 64)) as Di.
  pose proof (Z.div_mod (id0 + Z.of_nat j) (2 ^ 64)) as Dj.
  rewrite Heq in Di.
  set (qi := (id0 + Z.of_nat i) / 2 ^ 64) in *.
  set (qj := (id0 + Z.of_nat j) / 2 ^ 64) in *.
  set (r := (id0 + Z.of_nat j) mod 2 ^ 64) in *.
  assert (2 ^ 64 <> 0) as Hnz by lia.
  specialize (Di Hnz). specialize (Dj Hnz). lia.
Qed.

(** Identifiers found taken one after the other are rows of the table,
    each a different one. *)
Lemma taken_ids_bounded (tbl : gmap Z dmc_order) (id0 : Z) (k : nat) :
  Z.of_nat k <= 2 ^ 64 ->
  (forall j, (j < k)%nat -> is_Some (tbl !! uint64 (id0 + Z.of_nat j))) ->
  (k <= size tbl)%nat.
Proof.
  intros Hk Htaken.
  set (l := (fun j => uint64 (id0 + Z.of_nat j)) <$> seq 0 k).
  assert (NoDup l) as Hnd.
  { apply NoDup_fmap_2_strong; [| apply NoDup_seq].
    intros i j Hi Hj Heq.
    apply elem_of_seq in Hi, Hj.
    apply (uint64_offsets_inj id0); [lia | lia | exact Heq]. }
  assert (list_to_set l ⊆ (dom tbl : gset Z)) as Hsub.
  { intros x Hx. apply elem_of_list_to_set in Hx.
    apply list_elem_of_fmap in Hx as (j & -> & Hj).
    apply elem_of_seq in Hj. apply elem_of_dom. apply Htaken. lia. }
  apply subseteq_size in Hsub.
  rewrite size_list_to_set in Hsub by exact Hnd.
  rewrite size_dom in Hsub.
  unfold l in Hsub. rewrite length_fmap, length_seq in Hsub. exact Hsub.
Qed.

Lemma probe_free_from (tbl : gmap Z dmc_order) (id0 : Z) :
  Z.of_nat (size tbl) < 2 ^ 64 ->
  forall (fuel k : nat),
    (forall j, (j < k)%nat -> is_Some (tbl !! uint64 (id0 + Z.of_nat j))) ->
    (k + fuel = S (size tbl))%nat ->
    tbl !! probe fuel tbl (uint64 (id0 + Z.of_nat k)) = None.
Proof.
  intros Hsize. induction fuel as [|fuel IH]; intros k Htaken Hfuel.
  - exfalso. pose proof (taken_ids_bounded tbl id0 k) as Hb.
    assert (k <= size tbl)%nat by (apply Hb; [lia | exact Htaken]). lia.
  - cbn [probe].
    destruct (tbl !! uint64 (id0 + Z.of_nat k)) as [o|] eqn:Hk;
      [| exact Hk].
    rewrite uint64_succ.
    replace (id0 + Z.of_nat k + 1) with (id0 + Z.of_nat (S k)) by lia.
    apply IH; [| lia].
    intros j Hj. destruct (decide (j = k)) as [-> | Hne].
    + rewrite Hk. eauto.
    + apply Htaken. lia.
Qed.

(** The identifier the probing loop stops at is free: a table of fewer
    than [2 ^ 64] rows has a free identifier among any [size + 1]
    consecutive ones. *)
Lemma free_order_id_free (tbl : gmap Z dmc_order) (id : Z) :
  0 <= id < 2 ^ 64 ->
  Z.of_nat (size tbl) < 2 ^ 64 ->
  tbl !! free_order_id tbl id = None.
Proof.
  intros Hid Hsize. unfold free_order_id.
  pose proof (probe_free_from tbl id Hsize (S (size tbl)) 0) as H.
  cbn [Z.of_nat] in H. rewrite Z.add_0_r in H.
  assert (uint64 id = id) as Hu by (unfold uint64; apply Z.mod_small; lia).
  rewrite Hu in H. apply H; [| lia].
  intros j Hj. lia.
Qed.

Lemma asset_add_range (a b c : extended_asset) :
  asset_add a b = Ok c -> - max_amount <= amount c <= max_amount.
Proof.
  unfold asset_add. intros H. ok_steps H. injection H as <-. cbn.
  repeat match goal with
         | E : (_ <=? _) = true |- _ => apply Z.leb_le in E
         end.
  lia.
Qed.


(** X16: A successful [order] adds one order and one challenge under an
    identifier that neither table held, and overwrites nothing.  The
    order names the buyer, the seller, the bill and the PST matched, and
    splits the pledge exactly: the payment locked, the deposit, and the
    rest kept as the buyer's pledge. *)
Theorem order_adds_one_order (hdr : header) (buyer seller : name) (bill_id : Z)
    (a reserve : extended_asset) (memo : string) (deposit_valid : Z)
    (s s' : state) :
  0 <= order_digest hdr buyer seller bill_id a reserve memo (now s) < 2 ^ 64 ->
  Z.of_nat (size (orders s)) < 2 ^ 64 ->
  amount reserve <= max_amount ->
  order hdr buyer seller bill_id a reserve memo deposit_valid s = Ok s' ->
  exists id o c,
    orders s !! id = None /\ challenges s !! id = None
    /\ orders s' = <[id := o]> (orders s)
    /\ challenges s' = <[id := c]> (challenges s)
    /\ order_id o = id /\ c_order_id c = id
    /\ o_user o = buyer /\ o_miner o = seller /\ o_bill_id o = bill_id
    /\ miner_lock_pst o = a
    /\ amount (lock_pledge o) + amount (deposit o) + amount (user_pledge o)
       = amount reserve.
Proof.
  intros Hid Hsize Hreserve H. pose proof max_amount_lt as Hmax.
  unfold order in H. ok_steps H. injection H as <-.
  repeat match goal with
         | E : sub_balance _ _ _ = Ok _ |- _ =>
             apply sub_balance_Ok in E as [_ ->]
         | E : calbonus _ _ _ _ _ = Ok _ |- _ =>
             apply calbonus_frame in E
               as (_ & _ & _ & Horders & Hchallenges & _)
         | E : bool_decide _ = true |- _ => apply bool_decide_eq_true in E
         | E : user_to_pay _ _ = Ok _ |- _ =>
             apply user_to_pay_Ok in E as [? ?]
         | E : user_to_deposit _ _ = Ok _ |- _ =>
             apply user_to_deposit_Ok in E as [? ?]
         | E : (0 <=? amount reserve) = true |- _ => apply Z.leb_le in E
         end.
  cbn [orders challenges set_accounts set_bills set_makers set_orders
       set_challenges trace_price_history set_prices generate_maker_snapshot]
    in *.
  rewrite Horders in *. rewrite Hchallenges in *.
  set (id := free_order_id (orders s)
               (order_digest hdr buyer seller bill_id a reserve memo (now s)))
    in *.
  eexists id, _, _.
  split; [apply free_order_id_free; assumption |].
  split; [assumption |].
  split; [reflexivity |]. split; [reflexivity |].
  cbn. split_and!; try reflexivity.
  repeat match goal with
         | E : asset_add _ _ = Ok _ |- _ =>
             pose proof (asset_add_range _ _ _ E);
             apply asset_add_amount in E as (? & _ & _); [| cbn in *; lia]
         | E : asset_le _ _ = Ok true |- _ =>
             apply asset_le_Ok in E as [_ E]; symmetry in E;
             apply Z.leb_le in E
         | E : asset_sub _ _ = Ok _ |- _ =>
             apply asset_sub_amount in E as (? & _ & _); [| cbn in *; lia]
         end.
  lia.
Qed.

(** bob's order against alice's bill: a pledge of 600 DMC, of which 250
    pay, 250 are the deposit and 100 stay pledged. *)
Lemma order_adds_one_order_witness :
  exists id o c,
    orders billed !! id = None /\ challenges billed !! id = None
    /\ orders ordered = <[id := o]> (orders billed)
    /\ challenges ordered = <[id := c]> (challenges billed)
    /\ order_id o = id /\ c_order_id c = id
    /\ o_user o = bob /\ o_miner o = alice /\ o_bill_id o = bill_1
    /\ miner_lock_pst o = mk_asset 100 pst_sym
    /\ amount (lock_pledge o) + amount (deposit o) + amount (user_pledge o)
       = amount (mk_asset 600 dmc_sym).
Proof.
  apply (order_adds_one_order sample_header bob alice bill_1
           (mk_asset 100 pst_sym) (mk_asset 600 dmc_sym) "" (now billed + week)
           billed ordered).
  - vm_compute. split; [discriminate | reflexivity].
  - vm_compute. reflexivity.
  - vm_compute. discriminate.
  - vm_compute. reflexivity.
Defined.

(** *** A bill, an order against it, and its cancellation *)

Lemma bill_symbol (hdr : header) (s s1 : state) (owner : name)
    (a : extended_asset) (price : float) (expire_on deposit_ratio : Z)
    (memo : string) :
  bill hdr owner a price expire_on deposit_ratio memo s = Ok s1 ->
  symbol a = pst_sym /\ 0 < amount a.
Proof.
  unfold bill. intros H. ok_steps H.
  repeat match goal with
         | E : bool_decide _ = true |- _ => apply bool_decide_eq_true in E
         | E : (0 <? _) = true |- _ => apply Z.ltb_lt in E
         end.
  auto.
Qed.

(** What a successful [order] does to the free balances and to the
    seller's bills. *)
Lemma order_ledger (hdr : header) (s s' : state) (buyer seller : name)
    (bill_id : Z) (a reserve : extended_asset) (memo : string)
    (deposit_valid : Z) :
  order hdr buyer seller bill_id a reserve memo deposit_valid s = Ok s' ->
  buyer <> seller /\ symbol reserve = dmc_sym
  /\ accounts s'
     = <[(buyer, symbol reserve) :=
           balance s buyer (symbol reserve) - amount reserve]> (accounts s)
  /\ exists i ust unmatched' matched' t,
       find_bill (bills_of s seller) bill_id = Some (i, ust)
       /\ asset_le a (b_unmatched ust) = Ok true
       /\ 0 < amount a
       /\ asset_sub (b_unmatched ust) a = Ok unmatched'
       /\ bills_of s' seller
          = <[i := with_updated_at t
                     (with_matched matched' (with_unmatched unmatched' ust))]>
              (bills_of s seller).
Proof.
  intros H. pose proof H as Hne. unfold order in Hne.
  destruct (has_auth buyer s); [| discriminate Hne].
  destruct (String.length memo <=? 256)%nat; [| discriminate Hne].
  destruct (negb (buyer =? seller)) eqn:Hdistinct; [clear Hne | discriminate Hne].
  apply negb_true_iff, Z.eqb_neq in Hdistinct.
  apply order_Ok in H
    as (i & ust & pay & dep & fp & s1 & t & s2 & u' & m' & mk & lv & ld
        & red & p0 & p1 & Hfind & Hle & Hpos & Hpay & Hdep & Hfp & Hcov
        & Hsub & Hbonus & Hu' & Hm' & _ & _ & _ & _ & _ & _ & ->).
  apply sub_balance_Ok in Hsub as [_ ->].
  apply calbonus_frame in Hbonus as (Hbills & Hacc & _).
  split; [exact Hdistinct |].
  split.
  { apply asset_le_Ok in Hcov as [Hsym _]. rewrite <- Hsym.
    destruct (user_to_pay_Ok _ _ _ Hpay) as [Hps _].
    unfold asset_add in Hfp. ok_steps Hfp. injection Hfp as <-. exact Hps. }
  split.
  { unfold trace_price_history. cbn. rewrite Hacc. reflexivity. }
  exists i, ust, u', m', (uint32 t).
  split_and!; auto.
  unfold bills_of at 1, trace_price_history. cbn. rewrite lookup_insert_eq.
  unfold bills_of. rewrite Hbills. reflexivity.
Qed.

(** X17: A seller who bills [A] PST under an identifier no bill of theirs
    carries, sees a buyer match [a] of it and then cancels, has [a] PST
    less than before the bill, and the bill table they started with. *)
Theorem bill_order_unbill (hdr : header) (seller buyer : name)
    (A a reserve : extended_asset) (price : float)
    (expire_on deposit_ratio deposit_valid price_t : Z)
    (memo memo2 memo3 : string) (s s1 s2 s3 : state) :
  to_uint64 (price * 4294967296)%float = Ok price_t ->
  find_bill (bills_of s seller) (bill_digest hdr seller A price_t (now s) memo)
  = None ->
  amount A <= max_amount ->
  bill hdr seller A price expire_on deposit_ratio memo s = Ok s1 ->
  order hdr buyer seller (bill_digest hdr seller A price_t (now s) memo)
    a reserve memo2 deposit_valid s1 = Ok s2 ->
  unbill hdr seller (bill_digest hdr seller A price_t (now s) memo) memo3 s2
  = Ok s3 ->
  balance s3 seller pst_sym = balance s seller pst_sym - amount a
  /\ bills_of s3 seller = bills_of s seller.
Proof.
  intros Hprice Hfresh HA Hbill Horder Hunbill.
  pose proof max_amount_lt as Hmax.
  destruct (bill_symbol _ _ _ _ _ _ _ _ _ Hbill) as [Hsym HposA].
  apply bill_Ok in Hbill as (price_t' & Hprice' & Hfunds & ->).
  rewrite Hprice in Hprice'. injection Hprice' as <-.
  set (id := bill_digest hdr seller A price_t (now s) memo) in *.
  set (r := mk_bill _ id _ _ _ _ _ _ _ _) in *.
  set (s1 := set_bills _ _) in *.
  assert (bills_of s1 seller = bills_of s seller ++ [r]) as Hrows
    by apply bills_of_set_bills.
  assert (find_bill (bills_of s1 seller) id = Some (length (bills_of s seller), r))
    as Hfind.
  { unfold find_bill in *. rewrite Hrows, list_find_app_r by exact Hfresh.
    cbn. rewrite decide_True by reflexivity. reflexivity. }
  apply order_ledger in Horder
    as (Hne & Hrsym & Hacc2 & i & ust & u' & m' & t & Hfind' & Hle & Hpos & Hu'
        & Hrows2).
  rewrite Hfind in Hfind'. injection Hfind' as <- <-.
  apply asset_le_Ok in Hle as [_ Hle]. symmetry in Hle. apply Z.leb_le in Hle.
  apply asset_sub_amount in Hu' as (Hu' & Hu'sym & _); [| cbn in *; lia].
  set (r' := with_updated_at t (with_matched m' (with_unmatched u' r))) in *.
  assert (find_bill (bills_of s2 seller) id
          = Some (length (bills_of s seller), r')) as Hfind2.
  { rewrite Hrows2. eapply find_bill_write_back; [exact Hfind | reflexivity]. }
  apply unbill_Ok in Hunbill as (i & ust & t3 & s2' & Hfind3 & Hbonus & ->).
  rewrite Hfind2 in Hfind3. injection Hfind3 as <- <-.
  apply calbonus_frame in Hbonus as (Hbills & Hacc & _).
  split.
  - change (symbol (b_unmatched r)) with (symbol A) in Hu'sym.
    assert (symbol (b_unmatched r') = pst_sym) as Hsym'
      by (cbn; congruence).
    rewrite <- Hsym' at 1. rewrite balance_add_balance.
    unfold balance. cbn [accounts set_bills]. rewrite Hacc, Hacc2, Hsym'.
    rewrite lookup_insert_ne by congruence.
    subst s1. cbn [accounts set_bills set_accounts].
    rewrite Hsym, lookup_insert_eq. cbn [default].
    change (amount (b_unmatched r')) with (amount u').
    rewrite Hu'. cbn. unfold balance. lia.
  - match goal with
    | |- bills_of (add_balance _ _ ?st) _ = _ =>
        change (bills_of st seller = bills_of s seller)
    end.
    rewrite bills_of_set_bills.
    assert (bills_of s2' seller = bills_of s2 seller) as ->
      by (unfold bills_of; rewrite Hbills; reflexivity).
    rewrite Hrows2, Hrows.
    rewrite insert_app_r_alt by lia. rewrite Nat.sub_diag.
    change (<[0%nat := r']> [r]) with (r' :: []).
    rewrite delete_middle, app_nil_r. reflexivity.
Qed.

(** alice bills 1000 PST, bob orders 100 of them, alice cancels: she
    holds 100 PST less than before the bill. *)
Lemma bill_order_unbill_witness :
  balance closed alice pst_sym = balance configured alice pst_sym - 100
  /\ bills_of closed alice = bills_of configured alice.
Proof.
  apply (bill_order_unbill sample_header alice bob (mk_asset 1000 pst_sym)
           (mk_asset 100 pst_sym) (mk_asset 600 dmc_sym) 2.5
           (now configured + 3 * week) 1 (now billed + week) 10737418240
           "" "" "" configured billed ordered closed).
  - vm_compute. reflexivity.
  - vm_compute. reflexivity.
  - vm_compute. discriminate.
  - vm_compute. reflexivity.
  - vm_compute. reflexivity.
  - vm_compute. reflexivity.
Defined.

(** ** Actions on a maker that has no row *)

(** X13: Without a maker row nothing that works on the maker goes through:
    [mint], [setmakerrate], [setmakerbstr] and [redemption] abort, and
    so does an [increase] by anybody but the maker. *)
Theorem missing_maker_aborts (hdr : header) (interval : Z) (maker_name : name)
    (s : state) :
  makers s !! maker_name = None ->
  (forall a, exists msg, mint hdr maker_name a s = Abort msg)
  /\ (forall rate, exists msg, setmakerrate maker_name rate s = Abort msg)
  /\ (forall rate_value,
        exists msg,
          setmakerbstr hdr interval maker_name rate_value s = Abort msg)
  /\ (forall owner rate,
        exists msg, redemption hdr owner rate maker_name s = Abort msg)
  /\ (forall owner a,
        owner <> maker_name ->
        exists msg, increase hdr owner a maker_name s = Abort msg).
Proof.
  intros Hnone. split_and!.
  - intros a. unfold mint. rewrite Hnone.
    destruct (has_auth maker_name s); [| eauto].
    destruct (0 <? amount a); [| eauto].
    destruct (bool_decide (symbol a = pst_sym)); eauto.
  - intros rate. unfold setmakerrate. rewrite Hnone.
    destruct (has_auth maker_name s); [| eauto].
    destruct (fle 0.2 rate && fle rate 1); eauto.
  - intros rate_value. unfold setmakerbstr. rewrite Hnone.
    destruct (has_auth maker_name s); eauto.
  - intros owner rate. unfold redemption. rewrite Hnone.
    destruct (has_auth owner s); [| eauto].
    destruct (flt 0 rate && fle rate 1); eauto.
  - intros owner a Hother. unfold increase.
    destruct (has_auth owner s); [| eauto].
    destruct (bool_decide (symbol a = dmc_sym)); [| eauto].
    destruct (0 <? amount a); [| eauto].
    destruct (sub_balance owner a s) as [s1|] eqn:Hsub; [| eauto].
    apply sub_balance_Ok in Hsub as [_ ->].
    cbn [bind makers set_accounts]. rewrite Hnone.
    apply Z.eqb_neq in Hother. rewrite Hother. eauto.
Qed.

(** Nobody has staked in [genesis]: alice has no maker row there. *)
Lemma missing_maker_aborts_witness :
  (forall a, exists msg, mint sample_header alice a genesis = Abort msg)
  /\ (forall rate, exists msg, setmakerrate alice rate genesis = Abort msg)
  /\ (forall rate_value,
        exists msg,
          setmakerbstr sample_header three_days alice rate_value genesis
          = Abort msg)
  /\ (forall owner rate,
        exists msg, redemption sample_header owner rate alice genesis = Abort msg)
  /\ (forall owner a,
        owner <> alice ->
        exists msg, increase sample_header owner a alice genesis = Abort msg).
Proof.
  apply (missing_maker_aborts sample_header three_days alice genesis).
  vm_compute. reflexivity.
Defined.
(** ** Bonus accrual: the end of the claim window *)

(** X18: Once a bill's [updated_at] has reached the end of its claim window
    and the clock has passed it, [calbonus] returns the end of the
    window and accrues nothing: the store is as before. *)
Theorem calbonus_window_closed (hdr : header) (owner : name) (bill_id : Z)
    (payer : name) (s s1 : state) (t : Z) (i : nat) (ust : bill_record) :
  find_bill (bills_of s owner) bill_id = Some (i, ust) ->
  claims_end hdr s ust <= b_updated_at ust ->
  claims_end hdr s ust <= now s ->
  calbonus hdr owner bill_id payer s = Ok (t, s1) ->
  t = claims_end hdr s ust /\ s1 = s.
Proof.
  intros Hfind Hupd Hnow H. unfold calbonus in H.
  rewrite Hfind in H. cbn [get bind] in H.
  ok_step H. unfold capped_now in H.
  apply Z.leb_le in Hnow. rewrite Hnow in H.
  destruct (b_updated_at ust <=? claims_end hdr s ust) eqn:Hle.
  - apply Z.leb_le in Hle.
    assert (b_updated_at ust = claims_end hdr s ust) as Heq by lia.
    rewrite Heq, Z.sub_diag in H. change (uint64 0) with 0 in H.
    ok_steps H. rewrite Z.mul_0_r in H. change (int64 0) with 0 in H.
    rewrite Z.mul_0_l in H. change (int64 0) with 0 in H.
    cbn in H. injection H as <- <-. auto.
  - injection H as <- <-. auto.
Qed.

(** A hundred seconds after the window's end was written back, the
    bill of [billed] accrues nothing more. *)
Lemma calbonus_window_closed_witness :
  window_end
  = claims_end sample_header past_window (with_updated_at window_end bill_row)
  /\ past_window = past_window.
Proof.
  apply (calbonus_window_closed sample_header alice bill_1 alice past_window
           past_window window_end 0%nat (with_updated_at window_end bill_row)).
  - vm_compute. reflexivity.
  - vm_compute. discriminate.
  - vm_compute. discriminate.
  - vm_compute. reflexivity.
Defined.

Lemma calbonus_window_accrual :
  staked_of billed alice = 10000 /\ staked_of past_window alice = 1209610000.
Proof. split; vm_compute; reflexivity. Qed.

(** ** Price window *)

Lemma insert_bytime_perm (p : price_sample) (idx : list price_sample) :
  insert_bytime p idx ≡ₚ p :: idx.
Proof.
  induction idx as [|q idx IH]; cbn; [reflexivity |].
  destruct (p_created_at p <=? p_created_at q); [reflexivity |].
  rewrite IH. apply Permutation_swap.
Qed.

Lemma bytime_perm (rows : list price_sample) : bytime rows ≡ₚ rows.
Proof.
  unfold bytime. induction rows as [|p rows IH]; cbn; [reflexivity |].
  rewrite insert_bytime_perm, IH. reflexivity.
Qed.

(** X19: While no sample is older than the window, [trace_price_history]
    evicts nothing: it appends the new sample, adds its price to the
    running sum and one to the count, and stores their quotient as the
    average.  The first call starts from a sum and a count of zero. *)
Theorem trace_price_history_within_window (hdr : header) (price : float)
    (bill_id : Z) (s : state) :
  Forall (fun p => uint32 (now s - price_fluncuation_interval hdr)
                   <= p_created_at p) (prices s) ->
  let a := default (mk_avg 0 0 0 0) (price_average s) in
  let s' := trace_price_history hdr price bill_id s in
  prices s'
  = prices s ++ [mk_sample (next_sample_key (prices s)) bill_id price (now s)]
  /\ price_average s'
     = Some (mk_avg (a_primary a) (total a + price)%float (uint64 (count a + 1))
               ((total a + price) / of_Z (uint64 (count a + 1)))%float).
Proof.
  intros Hfresh a s'. subst s'. unfold trace_price_history.
  set (rtime := uint32 (now s - price_fluncuation_interval hdr)) in *.
  assert (List.filter (fun p => negb (p_created_at p <? rtime)) (prices s)
          = prices s) as Hkept.
  { apply forallb_filter_id. apply forallb_forall. intros p Hp.
    rewrite Forall_forall in Hfresh.
    apply negb_true_iff, Z.ltb_ge. apply Hfresh.
    apply list_elem_of_In. exact Hp. }
  assert (forall b, evict hdr rtime (bytime (prices s)) b = b) as Hevict.
  { intros b. destruct (bytime (prices s)) as [|it rest] eqn:Hidx;
      [reflexivity |].
    cbn [evict].
    assert (it ∈ prices s) as Hin
      by (rewrite <- (bytime_perm (prices s)), Hidx; apply list_elem_of_here).
    rewrite Forall_forall in Hfresh. apply Hfresh in Hin.
    apply Z.ltb_ge in Hin. rewrite Hin. reflexivity. }
  cbn [prices price_average set_prices]. rewrite Hkept, Hevict.
  split; [reflexivity |].
  unfold a. destruct (price_average s); reflexivity.
Qed.

(** The second trade, half a million seconds after the first: the
    window is a week. *)
Lemma trace_price_history_within_window_witness :
  let a := default (mk_avg 0 0 0 0) (price_average (advance 500000 traded_once)) in
  let s' := trace_price_history sample_header 5 7 (advance 500000 traded_once) in
  prices s'
  = prices (advance 500000 traded_once)
    ++ [mk_sample (next_sample_key (prices (advance 500000 traded_once))) 7 5
          (now (advance 500000 traded_once))]
  /\ price_average s'
     = Some (mk_avg (a_primary a) (total a + 5)%float (uint64 (count a + 1))
               ((total a + 5) / of_Z (uint64 (count a + 1)))%float).
Proof.
  apply (trace_price_history_within_window sample_header 5 7
           (advance 500000 traded_once)).
  replace (prices (advance 500000 traded_once))
    with [mk_sample 0 7 1 1000000] by (vm_compute; reflexivity).
  repeat constructor. vm_compute. discriminate.
Defined.

(** X20: The eviction loop, in general.  When the first [k] rows of the time
    index are expired and the row after them is not, the loop takes one
    off the count [k] times, and off the running sum the prices of the
    rows at positions 1 to [k] of the index: each time the price of the
    row after the one it erases, so that the oldest sample's price
    stays in the sum and the price of the first sample that is kept
    leaves it. *)
Theorem evict_takes_successor_prices (hdr : header) (rtime : Z) :
  forall (k : nat) (idx : list price_sample) (a : price_avg),
    (k < length idx)%nat ->
    Forall (fun p => p_created_at p < rtime) (take k idx) ->
    (forall p, idx !! k = Some p -> rtime <= p_created_at p) ->
    total (evict hdr rtime idx a)
    = foldl (fun t x => (t - x)%float) (total a)
        (take k (drop 1 (p_price <$> idx)))
    /\ count (evict hdr rtime idx a)
       = Nat.iter k (fun c => uint64 (c - 1)) (count a).
Proof.
  induction k as [|k IH]; intros idx a Hlen Hexp Hkeep.
  - destruct idx as [|it rest]; [cbn in Hlen; lia |].
    cbn [evict]. specialize (Hkeep it eq_refl).
    apply Z.ltb_ge in Hkeep. rewrite Hkeep. split; reflexivity.
  - destruct idx as [|it [|next rest]]; cbn [length] in Hlen; try lia.
    cbn [take] in Hexp. apply Forall_cons in Hexp as [Hit Hexp].
    apply Z.ltb_lt in Hit.
    change (evict hdr rtime (it :: next :: rest) a)
      with (if p_created_at it <? rtime
            then evict hdr rtime (next :: rest)
                   (mk_avg (a_primary a) (total a - p_price next)%float
                      (uint64 (count a - 1)) (avg a))
            else a).
    rewrite Hit.
    destruct (IH (next :: rest)
                (mk_avg (a_primary a) (total a - p_price next)%float
                   (uint64 (count a - 1)) (avg a)))
      as [Htotal Hcount];
      [cbn [length]; lia | exact Hexp | exact Hkeep |].
    rewrite Htotal, Hcount. cbn [total count]. split.
    + reflexivity.
    + rewrite Nat.iter_succ_r. reflexivity.
Qed.

(** The third trade of the sample: the first of two rows is expired; the
    sum of 6 loses the second row's price, 5. *)
Lemma evict_takes_successor_prices_witness :
  total (evict sample_header 1095200
           [mk_sample 0 7 1 1000000; mk_sample 1 7 5 1500000] (mk_avg 0 6 2 3))
  = foldl (fun t x => (t - x)%float) 6%float
      (take 1 (drop 1 (p_price <$> [mk_sample 0 7 1 1000000;
                                    mk_sample 1 7 5 1500000])))
  /\ count (evict sample_header 1095200
              [mk_sample 0 7 1 1000000; mk_sample 1 7 5 1500000]
              (mk_avg 0 6 2 3))
     = Nat.iter 1 (fun c => uint64 (c - 1)) 2.
Proof.
  apply (evict_takes_successor_prices sample_header 1095200 1
           [mk_sample 0 7 1 1000000; mk_sample 1 7 5 1500000] (mk_avg 0 6 2 3)).
  - cbn. lia.
  - repeat constructor.
  - intros p Hp. injection Hp as <-. cbn. lia.
Defined.

(** ** Minting *)

(** X24: A successful [mint] credits the minted PST to the maker's own free
    balance and leaves the stake, the pools, the bills and every other
    maker's row and minted amount as they were. *)
Theorem mint_credits_maker (hdr : header) (owner : name) (a : extended_asset)
    (s s' : state) :
  mint hdr owner a s = Ok s' ->
  balance s' owner pst_sym = balance s owner pst_sym + amount a
  /\ staked_of s' owner = staked_of s owner
  /\ pools s' = pools s /\ bills s' = bills s /\ locked s' = locked s
  /\ (forall k, k <> owner ->
        makers s' !! k = makers s !! k /\ pststats s' !! k = pststats s !! k)
  /\ (forall k, k <> (owner, pst_sym) -> accounts s' !! k = accounts s !! k).
Proof.
  unfold mint. intros H. ok_steps H. injection H as <-.
  match goal with
  | E : change_pst _ _ _ = Ok _ |- _ =>
      apply change_pst_Ok in E as (st' & _ & ->)
  end.
  match goal with
  | E : bool_decide (symbol a = pst_sym) = true |- _ =>
      apply bool_decide_eq_true in E; rename E into Hsym
  end.
  split.
  { unfold balance, add_balance. cbn. rewrite Hsym, lookup_insert_eq.
    reflexivity. }
  split.
  { unfold staked_of. cbn. rewrite lookup_insert_eq.
    match goal with E : makers s !! owner = Some _ |- _ => rewrite E end.
    reflexivity. }
  split; [reflexivity |]. split; [reflexivity |]. split; [reflexivity |].
  split.
  - intros k Hk. cbn. rewrite !lookup_insert_ne by congruence. auto.
  - intros k Hk. unfold add_balance. cbn. rewrite Hsym.
    rewrite lookup_insert_ne by congruence. reflexivity.
Qed.

Lemma mint_credits_maker_witness :
  balance minted alice pst_sym = balance staked alice pst_sym + 3000
  /\ staked_of minted alice = staked_of staked alice
  /\ pools minted = pools staked /\ bills minted = bills staked
  /\ locked minted = locked staked
  /\ (forall k, k <> alice ->
        makers minted !! k = makers staked !! k
        /\ pststats minted !! k = pststats staked !! k)
  /\ (forall k, k <> (alice, pst_sym) ->
        accounts minted !! k = accounts staked !! k).
Proof.
  apply (mint_credits_maker sample_header alice (mk_asset 3000 pst_sym) staked
           minted).
  vm_compute. reflexivity.
Defined.

(** ** What the sweep never writes *)

Lemma weights_kept_refl (s : state) : weights_kept s s.
Proof. split; [reflexivity |]. intros k m Hm. exists m. auto 10. Qed.

Lemma weights_kept_trans (s1 s2 s3 : state) :
  weights_kept s1 s2 -> weights_kept s2 s3 -> weights_kept s1 s3.
Proof.
  intros [Hp1 H1] [Hp2 H2]. split; [congruence |].
  intros k m Hm.
  destruct (H1 k m Hm) as (m2 & Hm2 & ? & ? & ? & ? & ?).
  destruct (H2 k m2 Hm2) as (m3 & Hm3 & ? & ? & ? & ? & ?).
  exists m3. split; [exact Hm3 |]. split_and!; congruence.
Qed.

Lemma weights_kept_same (s s' : state) :
  makers s' = makers s -> pools s' = pools s -> weights_kept s s'.
Proof.
  intros Hm Hp. split; [exact Hp |]. intros k m Hk. exists m.
  rewrite Hm. auto 10.
Qed.

Lemma calbonus_weights (hdr : header) (s s1 : state) (owner : name)
    (bill_id : Z) (payer : name) (t : Z) :
  calbonus hdr owner bill_id payer s = Ok (t, s1) -> weights_kept s s1.
Proof.
  intros H. pose proof H as Hframe.
  apply calbonus_frame in Hframe as (_ & _ & _ & _ & _ & Hpools & _).
  apply calbonus_makers in H
    as (iter & Hiter & [Hsame | (bonus & staked' & _ & _ & Hnew)]).
  - apply weights_kept_same; assumption.
  - split; [exact Hpools |]. intros k m Hk. rewrite Hnew.
    destruct (decide (k = owner)) as [-> | Hne].
    + rewrite lookup_insert_eq. rewrite Hiter in Hk. injection Hk as <-.
      eexists. split; [reflexivity |]. cbn. auto 10.
    + rewrite lookup_insert_ne by congruence. exists m. auto 10.
Qed.

Lemma drain_balance_weights (owner : name) (leftover l' : extended_asset)
    (s s' : state) :
  drain_balance owner leftover s = Ok (l', s') -> weights_kept s s'.
Proof.
  unfold drain_balance. intros H.
  destruct (accounts s !! (owner, pst_sym)) as [bal|].
  - ok_steps H. injection H as <- <-.
    match goal with
    | E : sub_balance _ _ _ = Ok _ |- _ => apply sub_balance_Ok in E as [_ ->]
    end.
    apply weights_kept_same; reflexivity.
  - injection H as <- <-. apply weights_kept_refl.
Qed.

Lemma drain_bills_weights (hdr : header) (rows : list bill_record) :
  forall (i : nat) (scope : name) (leftover l' : extended_asset) (s s' : state),
    drain_bills hdr rows i scope leftover s = Ok (l', s') ->
    weights_kept s s'.
Proof.
  induction rows as [|bit rest IH]; intros i scope leftover l' s s' H;
    cbn [drain_bills] in H.
  { injection H as <- <-. apply weights_kept_refl. }
  destruct (0 <? amount leftover);
    [| injection H as <- <-; apply weights_kept_refl].
  destruct (asset_le (b_unmatched bit) leftover) as [whole|];
    [| discriminate H].
  cbn [bind] in H.
  match type of H with
  | bind ?r _ = _ => destruct r as [[sub_pst leftover']|]; [| discriminate H]
  end.
  cbn [bind] in H.
  destruct (calbonus hdr (b_owner bit) (b_bill_id bit) (self hdr) s)
    as [[now_time_t s1]|] eqn:Hbonus; [| discriminate H].
  apply calbonus_weights in Hbonus.
  cbn [bind] in H.
  destruct (asset_sub (b_unmatched bit) sub_pst) as [u|]; [| discriminate H].
  cbn [bind] in H.
  destruct (amount u =? 0); apply IH in H;
    (eapply weights_kept_trans; [exact Hbonus |]);
    (eapply weights_kept_trans; [| exact H]);
    apply weights_kept_same; reflexivity.
Qed.

Lemma scan_weights (hdr : header) (idx : list maker) :
  forall (required required' : list liquidation_entry) (s s' : state),
    scan hdr idx required s = Ok (required', s') -> weights_kept s s'.
Proof.
  induction idx as [|maker_it rest IH]; intros required required' s s' H;
    cbn [scan] in H.
  { injection H as <- <-. apply weights_kept_refl. }
  destruct (flt (current_rate maker_it) (get_dmc_rate hdr s (get_n maker_it))
            && (length required <? 20)%nat);
    [| injection H as <- <-; apply weights_kept_refl].
  cbn zeta in H.
  match type of H with
  | bind ?r _ = _ => destruct r as [origin|]; [| discriminate H]
  end.
  cbn [bind] in H.
  destruct (drain_balance (miner maker_it) origin s) as [[leftover1 s1]|]
    eqn:Hdrain1; [| discriminate H].
  apply drain_balance_weights in Hdrain1.
  cbn [bind] in H.
  destruct (drain_bills hdr (bills_of s1 (miner maker_it)) 0 (miner maker_it)
              leftover1 s1) as [[leftover2 s2]|] eqn:Hdrain2;
    [| discriminate H].
  apply drain_bills_weights in Hdrain2.
  cbn [bind] in H.
  destruct (asset_sub origin leftover2) as [sub_pst_asset|]; [| discriminate H].
  cbn [bind] in H.
  match type of H with
  | bind ?r _ = _ => destruct r as [penalty|]; [| discriminate H]
  end.
  cbn [bind] in H.
  apply IH in H.
  eauto using weights_kept_trans.
Qed.

Lemma settle_pools (hdr : header) (cache : list maker) :
  forall (required : list liquidation_entry) (s s' : state),
    settle hdr cache required s = Ok s' -> pools s' = pools s.
Proof.
  induction required as [|[[owner pst] dmc] rest IH]; intros s s' H;
    cbn [settle] in H.
  { injection H as <-. reflexivity. }
  destruct (change_pst owner (asset_neg pst) s) as [s1|] eqn:Hchange;
    [| discriminate H].
  apply change_pst_Ok in Hchange as (st' & _ & ->).
  cbn [bind] in H.
  destruct (List.find (fun m => miner m =? owner) cache) as [iter|];
    [| discriminate H].
  cbn [get bind] in H.
  destruct (asset_sub (total_staked iter) dmc) as [staked'|]; [| discriminate H].
  cbn [bind] in H.
  apply IH in H. exact H.
Qed.

(** X23: A successful [liquidation] erases no maker row and leaves every
    maker's total weight, minimum share, benchmark and time of last
    change as they were, and every pool as it was: a sweep moves stake
    and minted amounts only.  This holds of every run that succeeds,
    those that select a maker without a minted amount included. *)
Theorem liquidation_keeps_weights (hdr : header) (memo : string) (s s' : state) :
  makers_keyed s ->
  liquidation hdr memo s = Ok s' ->
  weights_kept s s'.
Proof.
  intros Hkeyed H. unfold liquidation in H.
  destruct (has_auth (eos_account hdr) s); [| discriminate H].
  destruct (scan hdr (byrate (makers s)) [] s) as [[required s1]|] eqn:Hscan;
    [| discriminate H].
  cbn [bind] in H.
  pose proof (scan_weights _ _ _ _ _ _ Hscan) as [Hpools1 Hrows1].
  apply scan_names in Hscan as (extra & Hreq & Hnames).
  cbn in Hreq. subst extra.
  destruct (byrate_rows s Hkeyed) as [Hnodup Hrows].
  assert (NoDup (entry_miner <$> required)) as Hnd
    by (eapply sublist_NoDup; eassumption).
  pose proof (settle_pools _ _ _ _ _ H) as Hpools2.
  apply settle_spec in H as [Hframe Hsettled]; [| exact Hnd].
  split; [congruence |].
  intros k m Hk.
  destruct (decide (k ∈ entry_miner <$> required)) as [Hin | Hout].
  - apply list_elem_of_fmap in Hin as ([[owner pst] dmc] & -> & Hin).
    change (entry_miner (owner, pst, dmc)) with owner in *.
    destruct (Hsettled _ _ _ Hin)
      as (iter & _ & staked' & Hfind & _ & _ & _ & Hrow).
    apply find_some in Hfind as [Hiter Hname].
    apply Z.eqb_eq in Hname. subst owner.
    apply list_elem_of_In, Hrows in Hiter.
    rewrite Hiter in Hk. injection Hk as <-.
    eexists. split; [exact Hrow |]. cbn. auto 10.
  - destruct (Hframe k Hout) as [_ ->]. apply Hrows1. exact Hk.
Qed.

Lemma liquidation_keeps_weights_witness : weights_kept ordered swept.
Proof.
  apply (liquidation_keeps_weights sample_header "" ordered swept
           ordered_keyed).
  vm_compute. reflexivity.
Defined.
